(** * The plate core of the plate-tectonics terrain generator

    A shallow embedding of [src/plate.cpp]: one plate's elevation grid,
    age grid, mass counter, rectangle and continent bookkeeping, with the
    operations the world simulator calls on it.  Unsigned 32-bit values
    are integers with their wrap-around written out, single-precision
    values are IEEE-754 binary32 numbers computed with the Standard
    Library's executable specification of floating-point arithmetic. *)

From Stdlib Require Import ZArith Bool List Lia QArith Qabs Sorted.
From Stdlib Require Import Floats.SpecFloat.
From stdpp Require Import base option list.

Local Open Scope Z_scope.

(** ** Unsigned 32-bit arithmetic ([uint32_t]) *)

Module U32.

Definition modulus : Z := 2 ^ 32.
Definition max_value : Z := modulus - 1.

(** Reduction of an integer to its [uint32_t] representative. *)
Definition wrap (z : Z) : Z := z mod modulus.

Definition add (a b : Z) : Z := wrap (a + b).
Definition sub (a b : Z) : Z := wrap (a - b).
Definition mul (a b : Z) : Z := wrap (a * b).

(** [-(c)] for a comparison [c]: all ones when it holds, zero otherwise. *)
Definition mask (c : bool) : Z := wrap (- Z.b2z c).

(** [~m] *)
Definition lnot (m : Z) : Z := wrap (Z.lnot m).

Definition shl (a n : Z) : Z := wrap (Z.shiftl a n).
Definition shr (a n : Z) : Z := Z.shiftr a n.

Definition in_range (z : Z) : Prop := 0 <= z < modulus.

End U32.

(** ** Single precision ([float]) *)

Module F32.

Definition prec : Z := 24.
Definition emax : Z := 128.

Definition float : Type := spec_float.

Definition zero : float := S754_zero false.
Definition add : float -> float -> float := SFadd prec emax.
Definition sub : float -> float -> float := SFsub prec emax.
Definition mul : float -> float -> float := SFmul prec emax.
Definition div : float -> float -> float := SFdiv prec emax.
Definition ltb : float -> float -> bool := SFltb.
Definition leb : float -> float -> bool := SFleb.
Definition eqb : float -> float -> bool := SFeqb.
Definition gtb (x y : float) : bool := SFltb y x.

(** Conversion of an integer to the nearest [float] (ties to even), as
    the usual arithmetic conversions do for an [uint32_t] or [int]
    operand of a [float] operation. *)
Definition of_Z (z : Z) : float := binary_normalize prec emax z 0 false.

Definition one : float := of_Z 1.
Definition of_bool (b : bool) : float := of_Z (Z.b2z b).

(** The integer part of a finite value, rounded toward zero. *)
Definition trunc (x : float) : Z :=
  match x with
  | S754_finite s m e =>
      let a := match e with
               | Z0 => Zpos m
               | Zpos p => Z.shiftl (Zpos m) (Zpos p)
               | Zneg p => Z.shiftr (Zpos m) (Zpos p)
               end in
      if s then - a else a
  | _ => 0
  end.

(** [(uint32_t) x].  C++ defines the conversion only when the truncated
    value is representable; outside that range the model wraps, and
    gives 0 for infinities and NaN. *)
Definition to_u32 (x : float) : Z := U32.wrap (trunc x).

(** Rounding of a double-precision value to single precision:
    [(float) d]. *)
Definition of_double (d : spec_float) : float :=
  match d with
  | S754_finite s m e => binary_round prec emax s m e
  | _ => d
  end.

(** The exponent of the smallest positive value, and the exponent the
    format gives to a number of [e] binary digits before the point. *)
Definition emin : Z := -149.
Definition fexp (e : Z) : Z := Z.max (e - 24) emin.

End F32.

Abbreviation float := F32.float.

(** ** Double precision ([double])

    An operation of a [float] with a [double] literal is carried out in
    double precision: the [float] operand is converted, which is exact,
    and the result is rounded to single precision when it is stored in a
    [float]. *)

Module F64.

Definition prec : Z := 53.
Definition emax : Z := 1024.

Definition add : spec_float -> spec_float -> spec_float := SFadd prec emax.
Definition sub : spec_float -> spec_float -> spec_float := SFsub prec emax.
Definition mul : spec_float -> spec_float -> spec_float := SFmul prec emax.
Definition div : spec_float -> spec_float -> spec_float := SFdiv prec emax.

Definition of_Z (z : Z) : spec_float := binary_normalize prec emax z 0 false.

(** [(double) x]: the same number, with the mantissa and the exponent
    the double-precision format gives it. *)
Definition of_float (x : float) : spec_float :=
  match x with
  | S754_finite s m e => binary_round prec emax s m e
  | _ => x
  end.

(** [(float) d] *)
Definition to_float (d : spec_float) : float := F32.of_double d.

(** The literals [0.2] and [0.1]: the doubles nearest to 1/5 and 1/10. *)
Definition fifth : spec_float := div (of_Z 1) (of_Z 5).
Definition tenth : spec_float := div (of_Z 1) (of_Z 10).

End F64.

(** ** Collaborators of the plate

    [plate.cpp] includes [rectangle.hpp], [heightmap.hpp], [utils.hpp],
    [plate_functions.hpp] and, through [plate.hpp], the mass, movement and
    segment classes.  The following definitions stand for them. *)

(** Modelled from the spec: [BAD_INDEX] of [rectangle.hpp] is missing;
    the unassigned sentinel [0xFFFFFFFF] is used for it. *)
Definition BAD_INDEX : Z := U32.max_value.

(** Modelled from the spec: the segment-id sentinel meaning "unassigned",
    the value [memset(tmps, 255, ...)] writes in every four-byte cell. *)
Definition UNASSIGNED : Z := 4294967295.

(** Modelled from the spec: class [WorldDimension] is missing; the width
    and the height of the toroidal world. *)
Record WorldDimension : Type := mkWorldDimension {
  getWidth : Z;
  getHeight : Z
}.

(** Modelled from the spec: [WorldDimension::normalize] is missing; world
    coordinates are taken modulo the width and the height. *)
Definition normalize (wd : WorldDimension) (x y : Z) : Z * Z :=
  (x mod getWidth wd, y mod getHeight wd).

(** Modelled from the spec: class [Rectangle] (the plate's [_bounds]) is
    missing; the world it lives in, the floating-point world position of
    its top-left corner and its integer dimensions. *)
Record Rectangle : Type := mkRectangle {
  r_world : WorldDimension;
  r_x : float;
  r_y : float;
  width : Z;
  height : Z
}.

Definition area (r : Rectangle) : Z := U32.mul (width r) (height r).

(** The integer part of the corner is what indexing uses. *)
Definition leftAsUint (r : Rectangle) : Z := F32.to_u32 (r_x r).
Definition topAsUint (r : Rectangle) : Z := F32.to_u32 (r_y r).

(** Modelled from the spec: the right and bottom edges the distances of
    [setCrust] are measured from, the last column and the last row of
    the rectangle. *)
Definition rightAsUintNonInclusive (r : Rectangle) : Z :=
  U32.sub (U32.add (leftAsUint r) (width r)) 1.
Definition bottomAsUintNonInclusive (r : Rectangle) : Z :=
  U32.sub (U32.add (topAsUint r) (height r)) 1.

(** [index(lx, ly) = ly * w + lx] *)
Definition index (r : Rectangle) (lx ly : Z) : Z :=
  U32.add (U32.mul ly (width r)) lx.

(** Modelled from the spec: [Rectangle::getMapIndex] is missing; it
    translates world coordinates to local ones, taking the toroidal wrap
    into account, and gives [BAD_INDEX] (leaving the coordinates as they
    were) when the cell lies outside the rectangle.  The result is the
    index followed by the coordinates the call leaves in [*px], [*py]. *)
Definition getMapIndex (r : Rectangle) (px py : Z) : Z * Z * Z :=
  let W := getWidth (r_world r) in
  let H := getHeight (r_world r) in
  let x := px mod W in
  let y := py mod H in
  let ilft := leftAsUint r in
  let itop := topAsUint r in
  let irgt := ilft + width r in
  let ibtm := itop + height r in
  let xOk := ((ilft <=? x) && (x <? irgt)) || ((ilft <=? x + W) && (x + W <? irgt)) in
  let yOk := ((itop <=? y) && (y <? ibtm)) || ((itop <=? y + H) && (y + H <? ibtm)) in
  let lx := (if x <? ilft then x + W else x) - ilft in
  let ly := (if y <? itop then y + H else y) - itop in
  if xOk && yOk then (index r lx ly, lx, ly) else (BAD_INDEX, px, py).

(** Modelled from the spec: [getValidMapIndex] is [getMapIndex] with the
    assertion that the cell is inside; [None] is the failed assertion. *)
Definition getValidMapIndex (r : Rectangle) (px py : Z) : option (Z * Z * Z) :=
  let '(i, lx, ly) := getMapIndex r px py in
  if i =? BAD_INDEX then None else Some (i, lx, ly).

(** Modelled from the spec: [isInLimits] is missing; whether the local
    floating-point position falls on a cell of the rectangle. *)
Definition isInLimits (r : Rectangle) (fx fy : float) : bool :=
  F32.leb F32.zero fx && F32.leb F32.zero fy
  && (F32.trunc fx <? width r) && (F32.trunc fy <? height r).

(** One coordinate of the corner brought back into [[0, limit)]. *)
Definition wrap_coordinate (v : float) (limit : Z) : float :=
  if F32.ltb v F32.zero then F32.add v (F32.of_Z limit)
  else if F32.leb (F32.of_Z limit) v then F32.sub v (F32.of_Z limit)
  else v.

(** Modelled from the spec: [Rectangle::shift] is missing; it moves the
    corner and keeps it in [[0, W) x [0, H)]. *)
Definition shift (r : Rectangle) (dx dy : float) : Rectangle :=
  {| r_world := r_world r;
     r_x := wrap_coordinate (F32.add (r_x r) dx) (getWidth (r_world r));
     r_y := wrap_coordinate (F32.add (r_y r) dy) (getHeight (r_world r));
     width := width r;
     height := height r |}.

(** Modelled from the spec: [Rectangle::grow] is missing; it adds to the
    width and to the height. *)
Definition grow (r : Rectangle) (dw dh : Z) : Rectangle :=
  {| r_world := r_world r;
     r_x := r_x r;
     r_y := r_y r;
     width := U32.add (width r) dw;
     height := U32.add (height r) dh |}.

(** Modelled from the spec: class [Mass] is missing; the cached sum of the
    crust of the plate.  (Its centroid plays no part in [plate.cpp].) *)
Record Mass : Type := mkMass { getMass : float }.

(** Modelled from the spec: [Mass::incMass] adds its argument to the
    sum. *)
Definition incMass (m : Mass) (delta : float) : Mass :=
  {| getMass := F32.add (getMass m) delta |}.

(** Modelled from the spec: class [SegmentData] is missing; the bounding
    box of a continent in local coordinates, its area, its collision
    counter and its existence flag. *)
Record SegmentData : Type := mkSegmentData {
  getLeft : Z;
  getTop : Z;
  getRight : Z;
  getBottom : Z;
  sd_area : Z;
  collCount : Z;
  sd_exists : bool
}.

(** Modelled from the spec: a continent is empty when its area is 0. *)
Definition isEmpty (d : SegmentData) : bool := sd_area d =? 0.

(** Modelled from the spec: marking a continent non-existent clears the
    flag and the area, so that later requests find it empty. *)
Definition markNonExistent (d : SegmentData) : SegmentData :=
  {| getLeft := getLeft d; getTop := getTop d;
     getRight := getRight d; getBottom := getBottom d;
     sd_area := 0; collCount := collCount d; sd_exists := false |}.

Definition incArea (d : SegmentData) : SegmentData :=
  {| getLeft := getLeft d; getTop := getTop d;
     getRight := getRight d; getBottom := getBottom d;
     sd_area := U32.add (sd_area d) 1; collCount := collCount d;
     sd_exists := sd_exists d |}.

(** Modelled from the spec: the bounding box expands to contain the
    cell. *)
Definition enlarge_to_contain (d : SegmentData) (x y : Z) : SegmentData :=
  {| getLeft := Z.min (getLeft d) x; getTop := Z.min (getTop d) y;
     getRight := Z.max (getRight d) x; getBottom := Z.max (getBottom d) y;
     sd_area := sd_area d; collCount := collCount d;
     sd_exists := sd_exists d |}.

(** Modelled from the spec: the bounding box moved by [(dx, dy)]. *)
Definition shift_data (dx dy : Z) (d : SegmentData) : SegmentData :=
  {| getLeft := U32.add (getLeft d) dx; getTop := U32.add (getTop d) dy;
     getRight := U32.add (getRight d) dx; getBottom := U32.add (getBottom d) dy;
     sd_area := sd_area d; collCount := collCount d;
     sd_exists := sd_exists d |}.

(** Modelled from the spec: class [Segments] is missing; the continent id
    of every cell and the records of the continents. *)
Record Segments : Type := mkSegments {
  seg_id : list Z;
  seg_data : list SegmentData
}.

(** [_segments.id(i)]; [None] is a read outside the buffer. *)
Definition idAt (s : Segments) (i : Z) : option Z := seg_id s !! Z.to_nat i.

(** [_segments[c]]; [None] is an id for which there is no record. *)
Definition data (s : Segments) (c : Z) : option SegmentData :=
  seg_data s !! Z.to_nat c.

Definition setId (s : Segments) (i c : Z) : Segments :=
  {| seg_id := <[Z.to_nat i := c]> (seg_id s); seg_data := seg_data s |}.

Definition setData (s : Segments) (c : Z) (d : SegmentData) : Segments :=
  {| seg_id := seg_id s; seg_data := <[Z.to_nat c := d]> (seg_data s) |}.

(** [_segments.reassign(n, buf)]: the id buffer is replaced. *)
Definition reassign (s : Segments) (buf : list Z) : Segments :=
  {| seg_id := buf; seg_data := seg_data s |}.

(** [_segments.shift(dx, dy)]: every bounding box is moved. *)
Definition shift_segments (s : Segments) (dx dy : Z) : Segments :=
  {| seg_id := seg_id s; seg_data := shift_data dx dy <$> seg_data s |}.

(** Modelled from the spec: [_segments.size()], the number of continent
    records. *)
Definition size (s : Segments) : Z := Z.of_nat (length (seg_data s)).

(** ** Buffers *)

(** [memcpy(&dst[di], &src[si], n * sizeof(T))]: [n] cells of [src] from
    [si] on replace the cells of [dst] from [di] on.  [None] is a copy
    that leaves one of the two buffers. *)
Definition memcpy {A : Type} (dst : list A) (di : Z) (src : list A) (si n : Z)
  : option (list A) :=
  if (0 <=? n) && (0 <=? si) && (0 <=? di)
     && (si + n <=? Z.of_nat (length src))
     && (di + n <=? Z.of_nat (length dst))
  then Some (take (Z.to_nat di) dst
             ++ take (Z.to_nat n) (drop (Z.to_nat si) src)
             ++ drop (Z.to_nat (di + n)) dst)
  else None.

(** [buf[i] = v]; [None] is a write outside the buffer. *)
Definition store {A : Type} (buf : list A) (i : Z) (v : A) : option (list A) :=
  if (0 <=? i) && (i <? Z.of_nat (length buf))
  then Some (<[Z.to_nat i := v]> buf) else None.

(** [buf[i]]; [None] is a read outside the buffer. *)
Definition load {A : Type} (buf : list A) (i : Z) : option A :=
  if 0 <=? i then buf !! Z.to_nat i else None.

(** The copy loop of the reframe on one buffer: row [j] of the old plate
    and the [n] rows after it are copied to their place in the new
    buffer. *)
Fixpoint copy_rows {A : Type} (n : nat) (j d_top d_lft new_width old_width : Z)
    (old tmp : list A) : option (list A) :=
  match n with
  | O => Some tmp
  | S n' =>
      let dest_i := U32.add (U32.mul (U32.add d_top j) new_width) d_lft in
      let src_i := U32.mul j old_width in
      tmp' ← memcpy tmp dest_i old src_i old_width;
      copy_rows n' (U32.add j 1) d_top d_lft new_width old_width old tmp'
  end.

(** What a loop that is run for a bounded number of turns comes to: its
    result, a failed assertion or an access outside a buffer, or no
    result within the bound. *)
Inductive outcome (A : Type) : Type :=
| Finished (a : A)
| Aborted
| Unfinished.

Arguments Finished {A} a.
Arguments Aborted {A}.
Arguments Unfinished {A}.

(** ** The plate *)

(** The pseudo-random source is a collaborator known by its contract
    only: a source is made from a seed, [next()] gives a 32-bit unsigned
    value and [next_double()] a double-precision value, each with the
    advanced source. *)
Class RandomSource (R : Type) : Type := {
  rs_seed : Z -> R;
  rs_next : R -> Z * R;
  rs_next_double : R -> spec_float * R
}.

(** The rigid-body motion is another one: it is set up from the random
    source (which it may advance) and the world, and gives the dot
    product of its velocity with a vector and the two components of its
    velocity, scaled by the truth value they are called with. *)
Class Motion (M : Type) (R : Type) : Type := {
  mv_init : R -> WorldDimension -> M * R;
  mv_dot : M -> float -> float -> float;
  velocityOnX : M -> bool -> float;
  velocityOnY : M -> bool -> float
}.

Section Plate.

Context {RandSource Movement : Type}.
Context `{!RandomSource RandSource} `{!Motion Movement RandSource}.

Record plate : Type := mkPlate {
  _randsource : RandSource;
  _mass : Mass;
  _bounds : Rectangle;
  map : list float;
  age_map : list Z;
  _worldDimension : WorldDimension;
  _movement : Movement;
  _segments : Segments
}.

Definition with_mass (p : plate) (m : Mass) : plate :=
  mkPlate (_randsource p) m (_bounds p) (map p) (age_map p)
          (_worldDimension p) (_movement p) (_segments p).

Definition with_map (p : plate) (h : list float) : plate :=
  mkPlate (_randsource p) (_mass p) (_bounds p) h (age_map p)
          (_worldDimension p) (_movement p) (_segments p).

Definition with_segments (p : plate) (s : Segments) : plate :=
  mkPlate (_randsource p) (_mass p) (_bounds p) (map p) (age_map p)
          (_worldDimension p) (_movement p) s.

Definition with_randsource (p : plate) (r : RandSource) : plate :=
  mkPlate r (_mass p) (_bounds p) (map p) (age_map p)
          (_worldDimension p) (_movement p) (_segments p).

(** *** [plate::getCrust] *)
Definition getCrust (p : plate) (x y : Z) : option float :=
  let '(i, _, _) := getMapIndex (_bounds p) x y in
  if i =? BAD_INDEX then Some F32.zero else load (map p) i.

(** *** [plate::getCrustTimestamp] *)
Definition getCrustTimestamp (p : plate) (x y : Z) : option Z :=
  let '(i, _, _) := getMapIndex (_bounds p) x y in
  if i =? BAD_INDEX then Some 0 else load (age_map p) i.

(** *** [plate::setCrust] *)

(** How far the rectangle grows on each side for a cell outside it:
    [(d_lft, d_rgt, d_top, d_btm)].  The coordinates are the normalized
    ones. *)
Definition growth (p : plate) (x y : Z) : Z * Z * Z * Z :=
  let W := getWidth (_worldDimension p) in
  let H := getHeight (_worldDimension p) in
  let ilft := leftAsUint (_bounds p) in
  let itop := topAsUint (_bounds p) in
  let irgt := rightAsUintNonInclusive (_bounds p) in
  let ibtm := bottomAsUintNonInclusive (_bounds p) in
  (* Calculate distance of new point from plate edges. *)
  let _lft := U32.sub ilft x in
  let _rgt := U32.sub (U32.add (Z.land W (U32.mask (x <? ilft))) x) irgt in
  let _top := U32.sub itop y in
  let _btm := U32.sub (U32.add (Z.land H (U32.mask (y <? itop))) y) ibtm in
  (* Set larger of horizontal/vertical distance to zero. *)
  let d_lft := Z.land (Z.land _lft (U32.mask (_lft <? _rgt))) (U32.mask (_lft <? W)) in
  let d_rgt := Z.land (Z.land _rgt (U32.mask (_rgt <=? _lft))) (U32.mask (_rgt <? W)) in
  let d_top := Z.land (Z.land _top (U32.mask (_top <? _btm))) (U32.mask (_top <? H)) in
  let d_btm := Z.land (Z.land _btm (U32.mask (_btm <=? _top))) (U32.mask (_btm <? H)) in
  (* Scale all changes to multiple of 8. *)
  let d_lft := U32.shl (U32.add (Z.b2z (0 <? d_lft)) (U32.shr d_lft 3)) 3 in
  let d_rgt := U32.shl (U32.add (Z.b2z (0 <? d_rgt)) (U32.shr d_rgt 3)) 3 in
  let d_top := U32.shl (U32.add (Z.b2z (0 <? d_top)) (U32.shr d_top 3)) 3 in
  let d_btm := U32.shl (U32.add (Z.b2z (0 <? d_btm)) (U32.shr d_btm 3)) 3 in
  (* Make sure plate doesn't grow bigger than the system it's in! *)
  let '(d_lft, d_rgt) :=
    if W <? U32.add (U32.add (width (_bounds p)) d_lft) d_rgt
    then (0, U32.sub W (width (_bounds p))) else (d_lft, d_rgt) in
  let '(d_top, d_btm) :=
    if H <? U32.add (U32.add (height (_bounds p)) d_top) d_btm
    then (0, U32.sub H (height (_bounds p))) else (d_top, d_btm) in
  (d_lft, d_rgt, d_top, d_btm).

(** One of the four lines that scale a growth to a multiple of 8:
    [((d > 0) + (d >> 3)) << 3]. *)
Definition scale8 (d : Z) : Z :=
  U32.shl (U32.add (Z.b2z (0 <? d)) (U32.shr d 3)) 3.

(** The loop that copies the old plate into the new buffers, row [j]
    and the [n] rows after it. *)
Fixpoint copy_old_plate (n : nat) (j d_top d_lft new_width old_width : Z)
    (old_h : list float) (old_a old_s : list Z)
    (tmph : list float) (tmpa tmps : list Z)
  : option (list float * list Z * list Z) :=
  match n with
  | O => Some (tmph, tmpa, tmps)
  | S n' =>
      let dest_i := U32.add (U32.mul (U32.add d_top j) new_width) d_lft in
      let src_i := U32.mul j old_width in
      tmph' ← memcpy tmph dest_i old_h src_i old_width;
      tmpa' ← memcpy tmpa dest_i old_a src_i old_width;
      tmps' ← memcpy tmps dest_i old_s src_i old_width;
      copy_old_plate n' (U32.add j 1) d_top d_lft new_width old_width
                     old_h old_a old_s tmph' tmpa' tmps'
  end.

(** The body of [if (index == BAD_INDEX)]: the plate in its enlarged
    frame and the index of the cell in it.  [None] is a failed
    assertion or an access outside a buffer. *)
Definition reframe (p : plate) (x y : Z) (z : float) : option (plate * Z) :=
  (* Extending plate for nothing! *)
  _ ← guard (F32.gtb z F32.zero = true);
  let '(x, y) := normalize (_worldDimension p) x y in
  let '(d_lft, d_rgt, d_top, d_btm) := growth p x y in
  (* Index out of bounds, but nowhere to grow! *)
  _ ← guard (U32.add (U32.add (U32.add d_lft d_rgt) d_top) d_btm ≠ 0);
  let old_width := width (_bounds p) in
  let old_height := height (_bounds p) in
  let bounds :=
    grow (shift (_bounds p) (F32.of_Z (- d_lft)) (F32.of_Z (- d_top)))
         (U32.add d_lft d_rgt) (U32.add d_top d_btm) in
  let tmph := replicate (Z.to_nat (area bounds)) F32.zero in
  let tmpa := replicate (Z.to_nat (area bounds)) 0 in
  let tmps := replicate (Z.to_nat (area bounds)) UNASSIGNED in
  (* copy old plate into new. *)
  '(tmph, tmpa, tmps) ←
    copy_old_plate (Z.to_nat old_height) 0 d_top d_lft (width bounds) old_width
                   (map p) (age_map p) (seg_id (_segments p)) tmph tmpa tmps;
  (* Shift all segment data to match new coordinates. *)
  let segments := shift_segments (reassign (_segments p) tmps) d_lft d_top in
  '(i, _, _) ← getValidMapIndex bounds x y;
  _ ← guard (i < area bounds);
  Some (mkPlate (_randsource p) (_mass p) bounds tmph tmpa
                (_worldDimension p) (_movement p) segments, i).

(** [std::max(z, 0.0f)] *)
Definition clamp (z : float) : float :=
  if F32.ltb z F32.zero then F32.zero else z.

(** The cell the call writes to, after the reframe when there is one. *)
Definition locate (p : plate) (x y : Z) (z : float) : option (plate * Z) :=
  let '(i, _, _) := getMapIndex (_bounds p) x y in
  if i =? BAD_INDEX then reframe p x y z else Some (p, i).

(** The timestamp stored in a cell of crust [m] and age [a] that
    receives crust [z] of age [t]. *)
Definition new_age (m : float) (a : Z) (z : float) (t : Z) : Z :=
  let old_crust := U32.mask (F32.gtb m F32.zero) in
  let new_crust := U32.mask (F32.gtb z F32.zero) in
  let mean :=
    F32.to_u32 (F32.div (F32.add (F32.mul m (F32.of_Z a)) (F32.mul z (F32.of_Z t)))
                        (F32.add m z)) in
  let t := Z.lor (Z.land t (U32.lnot old_crust)) (Z.land mean old_crust) in
  Z.lor (Z.land t new_crust) (Z.land a (U32.lnot new_crust)).

(** The update of the age, of the mass and of the crust of cell [i]. *)
Definition update (p : plate) (i : Z) (z : float) (t : Z) : option plate :=
  m ← load (map p) i;
  a ← load (age_map p) i;
  ages ← store (age_map p) i (new_age m a z t);
  let mass := incMass (incMass (_mass p) (F32.mul (F32.of_Z (-1)) m)) z in
  heights ← store (map p) i z;
  Some (mkPlate (_randsource p) mass (_bounds p) heights ages
                (_worldDimension p) (_movement p) (_segments p)).

Definition setCrust (p : plate) (x y : Z) (z : float) (t : Z) : option plate :=
  (* Do not accept negative values. *)
  let z := clamp z in
  '(p, i) ← locate p x y z;
  update p i z t.

(** *** [plate::selectCollisionSegment] *)
Definition selectCollisionSegment (p : plate) (coll_x coll_y : Z) : option Z :=
  '(i, _, _) ← getValidMapIndex (_bounds p) coll_x coll_y;
  idAt (_segments p) i.

(** *** [plate::addCrustByCollision] *)
Definition addCrustByCollision (p : plate) (x y : Z) (z : float) (time : Z)
    (activeContinent : Z) : option plate :=
  (* Add crust. Extend plate if necessary. *)
  c ← getCrust p x y;
  p ← setCrust p x y (F32.add c z) time;
  '(i, lx, ly) ← getValidMapIndex (_bounds p) x y;
  ids ← store (seg_id (_segments p)) i activeContinent;
  let segments := reassign (_segments p) ids in
  d ← data segments activeContinent;
  Some (with_segments p
          (setData segments activeContinent
                   (enlarge_to_contain (incArea d) lx ly))).

(** *** [plate::aggregateCrust] *)

(** The values [lo, lo + 1, ..., hi] a loop counter takes. *)
Definition range (lo hi : Z) : list Z :=
  seqZ lo (hi + 1 - lo).

(** The cells of the bounding box of a continent, in the order the two
    nested loops visit them. *)
Definition box_cells (d : SegmentData) : list (Z * Z) :=
  y ← range (getTop d) (getBottom d);
  x ← range (getLeft d) (getRight d);
  [(x, y)].

(** A loop over [l] whose body can fail. *)
Fixpoint for_each {S A : Type} (body : S -> A -> option S) (l : list A) (s : S)
  : option S :=
  match l with
  | [] => Some s
  | c :: l' => s' ← body s c; for_each body l' s'
  end.

(** Whether the loop body moves cell [i] of plate [a]: the cell belongs
    to the continent and has crust. *)
Definition transferred (a : plate) (seg : Z) (i : Z) : option bool :=
  s ← idAt (_segments a) i;
  if s =? seg then m ← load (map a) i; Some (F32.gtb m F32.zero)
  else Some false.

(** [y * _bounds.width() + x] *)
Definition cell_index (a : plate) (c : Z * Z) : Z :=
  U32.add (U32.mul c.2 (width (_bounds a))) c.1.

(** The body of the inner loop of [aggregateCrust] at local cell
    [(x, y)] of plate [a]; [p] is the destination plate. *)
Definition aggregate_cell (seg wx wy lx ly activeContinent : Z)
    (st : plate * plate) (c : Z * Z) : option (plate * plate) :=
  let '(a, p) := st in
  let '(x, y) := c in
  let i := cell_index a (x, y) in
  b ← transferred a seg i;
  if b : bool then
    m ← load (map a) i;
    t ← load (age_map a) i;
    p' ← addCrustByCollision p (U32.sub (U32.add wx x) lx)
                               (U32.sub (U32.add wy y) ly) m t activeContinent;
    heights ← store (map a) i F32.zero;
    Some (with_map (with_mass a (incMass (_mass a) (F32.mul (F32.of_Z (-1)) m)))
                   heights, p')
  else Some (a, p).

(** [a.aggregateCrust(&p, wx, wy)] for two different plates [a] and
    [p]: both plates after the call and the returned mass. *)
Definition aggregateCrust (a p : plate) (wx wy : Z)
  : option (plate * plate * float) :=
  '(i, lx, ly) ← getValidMapIndex (_bounds a) wx wy;
  seg ← idAt (_segments a) i;
  d ← data (_segments a) seg;
  (* Do not process empty continents. *)
  if isEmpty d then Some (a, p, F32.zero) else
  activeContinent ← selectCollisionSegment p wx wy;
  (* Wrap coordinates around world edges to safeguard subtractions. *)
  let wx := U32.add wx (getWidth (_worldDimension a)) in
  let wy := U32.add wy (getHeight (_worldDimension a)) in
  let old_mass := getMass (_mass a) in
  (* Add all of the collided continent's crust to destination plate. *)
  '(a, p) ← for_each (aggregate_cell seg wx wy lx ly activeContinent)
                     (box_cells d) (a, p);
  (* Mark segment as non-existent *)
  d ← data (_segments a) seg;
  let a := with_segments a (setData (_segments a) seg (markNonExistent d)) in
  Some (a, p, F32.sub old_mass (getMass (_mass a))).

(** The cells of the bounding box the loop moves, in the order it visits
    them. *)
Definition moved_cells (a : plate) (seg : Z) (d : SegmentData) : list (Z * Z) :=
  filter (fun c => transferred a seg (cell_index a c) = Some true) (box_cells d).

(** The crust and the age of a cell of [a] (0 outside its buffers). *)
Definition crust_at (a : plate) (c : Z * Z) : float :=
  default F32.zero (load (map a) (cell_index a c)).
Definition age_at (a : plate) (c : Z * Z) : Z :=
  default 0 (load (age_map a) (cell_index a c)).

(** The call the loop makes on the destination plate for cell [c] of
    [a]; [wx], [wy] are the world coordinates after line 190. *)
Definition deposit (a : plate) (wx wy lx ly activeContinent : Z)
    (p : plate) (c : Z * Z) : option plate :=
  addCrustByCollision p (U32.sub (U32.add wx c.1) lx) (U32.sub (U32.add wy c.2) ly)
                      (crust_at a c) (age_at a c) activeContinent.

(** The mass counter of [a] after the loop took cell [c] away. *)
Definition take_away (a : plate) (m : Mass) (c : Z * Z) : Mass :=
  incMass m (F32.mul (F32.of_Z (-1)) (crust_at a c)).

(** The bounding box of a continent lies on the plate: its columns are
    columns of the plate, and the index of its last cell is an
    [uint32_t]. *)
Definition box_in_plate (a : plate) (d : SegmentData) : Prop :=
  0 <= getLeft d /\ getRight d < width (_bounds a)
  /\ 0 <= getTop d /\ (getBottom d + 1) * width (_bounds a) <= U32.modulus.

(** *** [plate::addCrustBySubduction] *)

(** The random scalar of lines 136-138 and the source after the two
    draws. *)
Definition perturbation (rs : RandSource) : float * RandSource :=
  let '(d, rs) := rs_next_double rs in
  let offset := F32.of_double d in
  let '(n, rs) := rs_next rs in
  let offset_sign := F32.of_Z (2 * (n mod 2) - 1) in
  (F32.mul offset (F32.mul (F32.mul offset offset) offset_sign), rs).

(** The displacement [(dx, dy)] of lines 132-140 and the source after
    the two draws. *)
Definition displacement (p : plate) (dx dy : float) : float * float * RandSource :=
  let dot := mv_dot (_movement p) dx dy in
  let dx := F32.sub dx (velocityOnX (_movement p) (F32.gtb dot F32.zero)) in
  let dy := F32.sub dy (velocityOnY (_movement p) (F32.gtb dot F32.zero)) in
  let '(offset, rs) := perturbation (_randsource p) in
  (F32.add (F32.mul (F32.of_Z 10) dx) (F32.mul (F32.of_Z 3) offset),
   F32.add (F32.mul (F32.of_Z 10) dy) (F32.mul (F32.of_Z 3) offset),
   rs).

(** The position [(fx, fy)] the crust is sent to, in local
    coordinates. *)
Definition subduction_target (p : plate) (x y : Z) (dx dy : float)
  : option (float * float) :=
  '(_, lx, ly) ← getValidMapIndex (_bounds p) x y;
  let '(dx, dy, _) := displacement p dx dy in
  Some (F32.add (F32.of_Z lx) dx, F32.add (F32.of_Z ly) dy).

(** The mean age line 150 computes. *)
Definition subduction_age (m : float) (a : Z) (z : float) (t : Z) : Z :=
  F32.to_u32 (F32.div (F32.add (F32.mul m (F32.of_Z a)) (F32.mul z (F32.of_Z t)))
                      (F32.add m z)).

(** The cell of the position [(fx, fy)], [_bounds.index(fx, fy)]. *)
Definition deposit_cell (p : plate) (fx fy : float) : Z :=
  index (_bounds p) (F32.to_u32 fx) (F32.to_u32 fy).

Definition addCrustBySubduction (p : plate) (x y : Z) (z : float) (t : Z)
    (dx dy : float) : option plate :=
  '(fx, fy) ← subduction_target p x y dx dy;
  let '(_, _, rs) := displacement p dx dy in
  let p := with_randsource p rs in
  if isInLimits (_bounds p) fx fy then
    let i := deposit_cell p fx fy in
    m ← load (map p) i;
    if F32.gtb m F32.zero then
      a ← load (age_map p) i;
      let t := subduction_age m a z t in
      ages ← store (age_map p) i (U32.mul t (Z.b2z (F32.gtb z F32.zero)));
      heights ← store (map p) i (F32.add m z);
      Some (mkPlate (_randsource p) (incMass (_mass p) z) (_bounds p)
                    heights ages (_worldDimension p) (_movement p)
                    (_segments p))
    else Some p
  else Some p.

(** *** [plate::findRiverSources] *)

(** Modelled from the spec: [::calculateCrust] of [plate_functions.hpp]
    is missing.  For each of the four directions it gives the height of
    the neighbour, or 0 when that direction is off the plate (a plate as
    wide, or as high, as the world wraps around); as the comments at its
    call sites in [plate.cpp] say, a neighbour that is not lower than
    the cell counts as 0 as well.  The result is
    [(w_crust, e_crust, n_crust, s_crust)] and the four indices. *)
Definition calculateCrust (wd : WorldDimension) (heights : list float)
    (width height x y i : Z)
  : option (float * float * float * float * (Z * Z * Z * Z)) :=
  let W := getWidth wd in
  let H := getHeight wd in
  (* Build masks for accessible directions (4-way). *)
  let w_mask := (0 <? x) || (width =? W) in
  let e_mask := (x <? width - 1) || (width =? W) in
  let n_mask := (0 <? y) || (height =? H) in
  let s_mask := (y <? height - 1) || (height =? H) in
  (* Neighbour coordinates, 0 for a direction that is off the plate. *)
  let wx := if w_mask then (W + x - 1) mod W else 0 in
  let ex := if e_mask then (x + 1) mod W else 0 in
  let ny := if n_mask then (H + y - 1) mod H else 0 in
  let sy := if s_mask then (y + 1) mod H else 0 in
  let w := U32.add (U32.mul y width) wx in
  let e := U32.add (U32.mul y width) ex in
  let n := U32.add (U32.mul ny width) x in
  let s := U32.add (U32.mul sy width) x in
  here ← load heights i;
  hw ← load heights w;
  he ← load heights e;
  hn ← load heights n;
  hs ← load heights s;
  (* Extract neighbours heights. Apply validity filtering: 0 is invalid. *)
  let crust (h : float) (mask : bool) :=
    F32.mul h (F32.of_bool (mask && F32.ltb h here)) in
  Some (crust hw w_mask, crust he e_mask, crust hn n_mask, crust hs s_mask,
        (w, e, n, s)).

(** The test of the inner loop at cell [(x, y)]: whether the cell is
    pushed. *)
Definition is_source (p : plate) (lower_bound : float) (c : Z * Z)
  : option bool :=
  let '(x, y) := c in
  let i := index (_bounds p) x y in
  m ← load (map p) i;
  if F32.ltb m lower_bound then Some false else
  '(w_crust, e_crust, n_crust, s_crust, _) ←
    calculateCrust (_worldDimension p) (map p)
                   (width (_bounds p)) (height (_bounds p)) x y i;
  (* This location is either at the edge of the plate or it is not the
     tallest of its neightbours. Don't start a river from here. *)
  Some (negb (F32.eqb (F32.mul (F32.mul (F32.mul w_crust e_crust) n_crust)
                               s_crust)
                      F32.zero)).

(** The body of the inner loop: the list of sources with the cell
    pushed at its end, or left as it was. *)
Definition river_source_cell (p : plate) (lower_bound : float)
    (sources : list Z) (c : Z * Z) : option (list Z) :=
  b ← is_source p lower_bound c;
  Some (if b : bool then sources ++ [index (_bounds p) c.1 c.2] else sources).

(** All cells of the plate, row by row. *)
Definition plate_cells (r : Rectangle) : list (Z * Z) :=
  y ← range 0 (height r - 1);
  x ← range 0 (width r - 1);
  [(x, y)].

Definition findRiverSources (p : plate) (lower_bound : float)
    (sources : list Z) : option (list Z) :=
  for_each (river_source_cell p lower_bound) (plate_cells (_bounds p)) sources.

(** *** [plate::plate] *)

(** What a constructor call comes to: a plate, the exception
    [std::invalid_argument], or a read through a null (or too short)
    array, which C++ leaves undefined. *)
Inductive construction : Type :=
| Constructed (p : plate)
| InvalidArgument
| InvalidRead.

(** The values the counter [k] takes in the two nested loops over the
    rows and the columns of a [w] x [h] array. *)
Definition cell_numbers (w h : Z) : list Z :=
  y ← range 0 (h - 1);
  x ← range 0 (w - 1);
  [U32.add (U32.mul y w) x].

(** Modelled from the spec: [MassBuilder(m, dimension).build()] is
    missing; the mass is the sum of the [w * h] cells of the array, read
    row by row.  [None] is a read the array does not cover. *)
Definition MassBuilder_build (m : option (list float)) (w h : Z) : option Mass :=
  for_each (fun (acc : Mass) (k : Z) =>
              cells ← m; c ← load cells k; Some (incMass acc c))
           (cell_numbers w h) (mkMass F32.zero).

(** The loop of the constructor body: the heights are cloned and every
    cell with crust receives the age of the plate. *)
Definition clone_cell (m : list float) (plate_age : Z)
    (st : list float * list Z) (k : Z) : option (list float * list Z) :=
  let '(heights, ages) := st in
  c ← load m k;
  heights ← store heights k c;
  ages ← store ages k (Z.land plate_age (U32.mask (F32.gtb c F32.zero)));
  Some (heights, ages).

Definition plate_ctor (seed : Z) (m : option (list float))
    (w h _x _y plate_age : Z) (worldDimension : WorldDimension) : construction :=
  (* the member initializers *)
  let rs := rs_seed seed in
  match MassBuilder_build m w h with
  | None => InvalidRead
  | Some mass =>
      let bounds :=
        mkRectangle worldDimension (F32.of_Z _x) (F32.of_Z _y) w h in
      let heights := replicate (Z.to_nat (U32.mul w h)) F32.zero in
      let ages := replicate (Z.to_nat (U32.mul w h)) 0 in
      let '(movement, rs) := mv_init rs worldDimension in
      let segments :=
        mkSegments (replicate (Z.to_nat (U32.mul w h)) UNASSIGNED) [] in
      (* the body *)
      match m with
      | None => InvalidArgument
      | Some cells =>
          if (w <=? 0) || (h <=? 0) then InvalidArgument else
          match for_each (clone_cell cells plate_age)
                         (cell_numbers w h) (heights, ages) with
          | None => InvalidRead
          | Some (heights, ages) =>
              Constructed (mkPlate rs mass bounds heights ages
                                   worldDimension movement segments)
          end
      end
  end.

(** *** [plate::getContinentArea] *)
Definition getContinentArea (p : plate) (wx wy : Z) : option Z :=
  '(i, _, _) ← getValidMapIndex (_bounds p) wx wy;
  s ← idAt (_segments p) i;
  _ ← guard (s < size (_segments p));
  d ← data (_segments p) s;
  Some (sd_area d).

(** *** [plate::flowRivers] *)

(** The lowest of the four neighbours and the index the water flows
    to, from the cell [index]: west unless one of east, north and south,
    tried in that order, is strictly lower than the lowest so far. *)
Definition lowest_neighbour (index width : Z) (w_crust e_crust n_crust s_crust : float)
  : float * Z :=
  let lowest_crust := w_crust in
  let dest := U32.sub index 1 in
  let '(lowest_crust, dest) :=
    if F32.ltb e_crust lowest_crust then (e_crust, U32.add index 1)
    else (lowest_crust, dest) in
  let '(lowest_crust, dest) :=
    if F32.ltb n_crust lowest_crust then (n_crust, U32.sub index width)
    else (lowest_crust, dest) in
  let '(lowest_crust, dest) :=
    if F32.ltb s_crust lowest_crust then (s_crust, U32.add index width)
    else (lowest_crust, dest) in
  (lowest_crust, dest).

(** [tmp[index] -= (tmp[index] - lower_bound) * 0.2], the product and the
    difference in double precision. *)
Definition eroded (t lower_bound : float) : float :=
  F64.to_float
    (F64.sub (F64.of_float t)
             (F64.mul (F64.of_float (F32.sub t lower_bound)) F64.fifth)).

(** The body of the inner loop for the cell [index] taken from the back
    of [sources]; the state is the vector [sinks], the flags [isDone] and
    the heights [tmp]. *)
Definition flow_cell (p : plate) (lower_bound : float)
    (st : list Z * list Z * list float) (index : Z)
  : option (list Z * list Z * list float) :=
  let '(sinks, isDone, tmp) := st in
  _ ← guard (width (_bounds p) ≠ 0);
  let y := index / width (_bounds p) in
  let x := U32.sub index (U32.mul y (width (_bounds p))) in
  m ← load (map p) index;
  if F32.ltb m lower_bound then Some st else
  '(w_crust, e_crust, n_crust, s_crust, _) ←
    calculateCrust (_worldDimension p) (map p)
                   (width (_bounds p)) (height (_bounds p)) x y index;
  (* If this is the lowest part of its neighbourhood, stop. *)
  if F32.eqb (F32.add (F32.add (F32.add w_crust e_crust) n_crust) s_crust)
             F32.zero
  then Some st else
  let w_crust := F32.add w_crust (F32.mul (F32.of_bool (F32.eqb w_crust F32.zero)) m) in
  let e_crust := F32.add e_crust (F32.mul (F32.of_bool (F32.eqb e_crust F32.zero)) m) in
  let n_crust := F32.add n_crust (F32.mul (F32.of_bool (F32.eqb n_crust F32.zero)) m) in
  let s_crust := F32.add s_crust (F32.mul (F32.of_bool (F32.eqb s_crust F32.zero)) m) in
  (* Find lowest neighbour. *)
  let '(_, dest) :=
    lowest_neighbour index (width (_bounds p)) w_crust e_crust n_crust s_crust in
  (* if it's not handled yet, add it as new sink. *)
  '(sinks, isDone) ←
    (if dest <? area (_bounds p) then
       done ← load isDone dest;
       if done =? 0 then
         isDone ← store isDone dest 1; Some (sinks ++ [dest], isDone)
       else Some (sinks, isDone)
     else Some (sinks, isDone));
  (* Erode this location with the water flow. *)
  t ← load tmp index;
  tmp ← store tmp index (eroded t lower_bound);
  Some (sinks, isDone, tmp).

(** The two nested [while] loops, the outer one run at most [fuel]
    times: the inner loop empties [sources] from its back and fills
    [sinks], which the outer loop takes as its next [sources]. *)
Fixpoint flow_rounds (fuel : nat) (p : plate) (lower_bound : float)
    (sources isDone : list Z) (tmp : list float) : outcome (list float) :=
  match sources with
  | [] => Finished tmp
  | _ :: _ =>
      match fuel with
      | O => Unfinished
      | S fuel =>
          match for_each (flow_cell p lower_bound) (reverse sources)
                         ([], isDone, tmp) with
          | None => Aborted
          | Some (sinks, isDone, tmp) =>
              flow_rounds fuel p lower_bound sinks isDone tmp
          end
      end
  end.

(** The heights [tmp] after the call; the vector [sources] is used up.
    One more turn than the plate has cells is all the outer loop can
    take. *)
Definition flowRivers (p : plate) (lower_bound : float) (sources : list Z)
    (tmp : list float) : option (list float) :=
  let isDone := replicate (Z.to_nat (area (_bounds p))) 0 in
  match flow_rounds (S (Z.to_nat (area (_bounds p)))) p lower_bound
                    sources isDone tmp with
  | Finished tmp => Some tmp
  | _ => None
  end.

(** *** [plate::erode] *)

(** The body of the noise loop at cell [i]:
    [alpha = 0.2 * (float)next_double()] and
    [tmpHm[i] += 0.1 * tmpHm[i] - alpha * tmpHm[i]]. *)
Definition noise_cell (st : list float * RandSource) (i : Z)
  : option (list float * RandSource) :=
  let '(tmpHm, rs) := st in
  let '(d, rs) := rs_next_double rs in
  let alpha := F64.to_float (F64.mul F64.fifth (F64.of_float (F32.of_double d))) in
  t ← load tmpHm i;
  tmpHm ← store tmpHm i
    (F64.to_float
       (F64.add (F64.of_float t)
                (F64.sub (F64.mul F64.tenth (F64.of_float t))
                         (F64.of_float (F32.mul alpha t)))));
  Some (tmpHm, rs).

(** [buf[i] += v] *)
Definition add_at (buf : list float) (i : Z) (v : float) : option (list float) :=
  t ← load buf i; store buf i (F32.add t v).

(** [buf[i] -= v] *)
Definition sub_at (buf : list float) (i : Z) (v : float) : option (list float) :=
  t ← load buf i; store buf i (F32.sub t v).

(** The body of the redistribution loop at cell [(x, y)] of the plate
    [p], whose heights are those after the noise; the state is the new
    heights [tmpHm] and the mass the builder has summed.  Modelled from
    the spec: [MassBuilder::addPoint] is missing; it adds the crust of
    the point to the sum. *)
Definition slope_cell (p : plate) (lower_bound : float)
    (st : list float * Mass) (c : Z * Z) : option (list float * Mass) :=
  let '(tmpHm, massBuilder) := st in
  let '(x, y) := c in
  let index := U32.add (U32.mul y (width (_bounds p))) x in
  m ← load (map p) index;
  let massBuilder := incMass massBuilder m in
  (* Careful not to overwrite earlier amounts. *)
  tmpHm ← add_at tmpHm index m;
  if F32.ltb m lower_bound then Some (tmpHm, massBuilder) else
  '(w_crust, e_crust, n_crust, s_crust, (w, e, n, s)) ←
    calculateCrust (_worldDimension p) (map p)
                   (width (_bounds p)) (height (_bounds p)) x y index;
  (* This location has no neighbours (ARTIFACT!) or it is the lowest
     part of its area. In either case the work here is done. *)
  if F32.eqb (F32.add (F32.add (F32.add w_crust e_crust) n_crust) s_crust)
             F32.zero
  then Some (tmpHm, massBuilder) else
  let lower (crust : float) : bool := F32.gtb crust F32.zero in
  (* Calculate the difference in height between this point and its
     nbours that are lower than this point. *)
  let w_diff := F32.sub m w_crust in
  let e_diff := F32.sub m e_crust in
  let n_diff := F32.sub m n_crust in
  let s_diff := F32.sub m s_crust in
  let min_diff := w_diff in
  let min_diff :=
    F32.sub min_diff (F32.mul (F32.sub min_diff e_diff)
                              (F32.of_bool (F32.ltb e_diff min_diff))) in
  let min_diff :=
    F32.sub min_diff (F32.mul (F32.sub min_diff n_diff)
                              (F32.of_bool (F32.ltb n_diff min_diff))) in
  let min_diff :=
    F32.sub min_diff (F32.mul (F32.sub min_diff s_diff)
                              (F32.of_bool (F32.ltb s_diff min_diff))) in
  (* Calculate the sum of difference between lower neighbours and
     the TALLEST lower neighbour. *)
  let diff_sum :=
    F32.add (F32.add (F32.add
      (F32.mul (F32.sub w_diff min_diff) (F32.of_bool (lower w_crust)))
      (F32.mul (F32.sub e_diff min_diff) (F32.of_bool (lower e_crust))))
      (F32.mul (F32.sub n_diff min_diff) (F32.of_bool (lower n_crust))))
      (F32.mul (F32.sub s_diff min_diff) (F32.of_bool (lower s_crust))) in
  (* Erosion difference sum is negative! *)
  _ ← guard (F32.leb F32.zero diff_sum = true);
  if F32.ltb diff_sum min_diff then
    (* There's NOT enough room in neighbours to contain all the crust
       from this peak so that it would be as tall as its tallest lower
       neighbour. Thus first step is make ALL lower neighbours and this
       point equally tall. *)
    tmpHm ← add_at tmpHm w (F32.mul (F32.sub w_diff min_diff) (F32.of_bool (lower w_crust)));
    tmpHm ← add_at tmpHm e (F32.mul (F32.sub e_diff min_diff) (F32.of_bool (lower e_crust)));
    tmpHm ← add_at tmpHm n (F32.mul (F32.sub n_diff min_diff) (F32.of_bool (lower n_crust)));
    tmpHm ← add_at tmpHm s (F32.mul (F32.sub s_diff min_diff) (F32.of_bool (lower s_crust)));
    tmpHm ← sub_at tmpHm index min_diff;
    let min_diff := F32.sub min_diff diff_sum in
    (* Spread the remaining crust equally among all lower nbours. *)
    let min_diff :=
      F32.div min_diff
              (F32.of_Z (1 + Z.b2z (lower w_crust) + Z.b2z (lower e_crust)
                         + Z.b2z (lower n_crust) + Z.b2z (lower s_crust))) in
    tmpHm ← add_at tmpHm w (F32.mul min_diff (F32.of_bool (lower w_crust)));
    tmpHm ← add_at tmpHm e (F32.mul min_diff (F32.of_bool (lower e_crust)));
    tmpHm ← add_at tmpHm n (F32.mul min_diff (F32.of_bool (lower n_crust)));
    tmpHm ← add_at tmpHm s (F32.mul min_diff (F32.of_bool (lower s_crust)));
    tmpHm ← add_at tmpHm index min_diff;
    Some (tmpHm, massBuilder)
  else
    let unit := F32.div min_diff diff_sum in
    (* Remove all crust from this location making it as tall as its
       tallest lower neighbour. *)
    tmpHm ← sub_at tmpHm index min_diff;
    (* Spread all removed crust among all other lower neighbours. *)
    tmpHm ← add_at tmpHm w (F32.mul (F32.mul unit (F32.sub w_diff min_diff)) (F32.of_bool (lower w_crust)));
    tmpHm ← add_at tmpHm e (F32.mul (F32.mul unit (F32.sub e_diff min_diff)) (F32.of_bool (lower e_crust)));
    tmpHm ← add_at tmpHm n (F32.mul (F32.mul unit (F32.sub n_diff min_diff)) (F32.of_bool (lower n_crust)));
    tmpHm ← add_at tmpHm s (F32.mul (F32.mul unit (F32.sub s_diff min_diff)) (F32.of_bool (lower s_crust)));
    Some (tmpHm, massBuilder).

Definition erode (p : plate) (lower_bound : float) : option plate :=
  let tmpHm := map p in
  sources ← findRiverSources p lower_bound [];
  tmpHm ← flowRivers p lower_bound sources tmpHm;
  (* Add random noise (10 %) to heightmap. *)
  '(tmpHm, rs) ← for_each noise_cell (range 0 (area (_bounds p) - 1))
                          (tmpHm, _randsource p);
  let p := with_randsource (with_map p tmpHm) rs in
  let tmpHm := replicate (length tmpHm) F32.zero in
  '(tmpHm, massBuilder) ←
    for_each (slope_cell p lower_bound) (plate_cells (_bounds p))
             (tmpHm, mkMass F32.zero);
  Some (with_mass (with_map p tmpHm) massBuilder).

End Plate.

Arguments plate : clear implicits.
Arguments construction : clear implicits.

(** ** Exact values and the properties the specification states *)

(** The rational number a finite single-precision value stands for (0
    for the others). *)
Definition value (x : float) : Q :=
  match x with
  | S754_finite s m e =>
      (inject_Z (if s then Zneg m else Zpos m) * Qpower (2 # 1) e)%Q
  | _ => 0%Q
  end.

(** [FLT_EPSILON] of [<cfloat>], [2^-23]. *)
Definition FLT_EPSILON : Q := (1 # 8388608)%Q.

(** The timestamp of the specification for crust [z] of age [t] put on
    crust [m] of age [a]: the mass-weighted average
    [(m * a + z * t) / (m + z)], in exact arithmetic. *)
Definition mass_weighted_average (m : float) (a : Z) (z : float) (t : Z) : Q :=
  ((value m * inject_Z a + value z * inject_Z t) / (value m + value z))%Q.

(** [std::max] on [float]. *)
Definition fmax (x y : float) : float := if F32.ltb x y then y else x.


(** Two values that are the same number: equal, or two zeros that differ
    in sign only. *)
Definition same_number (x y : float) : Prop := x = y \/ F32.eqb x y = true.

(** ** The single-precision format

    Magnitudes are counted in units of [2^emin], the smallest positive
    value, so that every finite value is an integer. *)

(** The magnitude of mantissa [m] at exponent [e]. *)
Definition mag (m e : Z) : Z := m * 2 ^ (e - F32.emin).

(** A mantissa at the exponent the format gives it. *)
Definition canonical (mb : positive) (eb : Z) : Prop :=
  F32.fexp (Zpos (digits2_pos mb) + eb) = eb.

(** The signed magnitude of a finite value (0 for the others). *)
Definition scaled (x : float) : Z :=
  match x with
  | S754_finite s m e => cond_Zopp s (Zpos m) * 2 ^ (e - F32.emin)
  | _ => 0
  end.

Definition finite_or_zero (x : float) : bool :=
  match x with
  | S754_finite _ _ _ | S754_zero _ => true
  | _ => false
  end.

(** A value of the format: its mantissa and exponent are those of a
    binary32 number. *)
Definition valid (x : float) : bool := valid_binary F32.prec F32.emax x.

Definition exponent_ok (x : float) : Prop :=
  match x with
  | S754_finite _ _ e => F32.emin <= e
  | _ => True
  end.

(** A finite value below [2^n] in absolute value: a zero, or a mantissa
    [m] of [d] binary digits at an exponent [e] with [d + e <= n]. *)
Definition small (n : Z) (x : float) : Prop :=
  match x with
  | S754_zero _ => True
  | S754_finite _ m e => Zpos (digits2_pos m) + e <= n
  | _ => False
  end.

Definition is_zero (x : float) : Prop :=
  match x with S754_zero _ => True | _ => False end.

Definition is_nan (x : float) : Prop :=
  match x with S754_nan => True | _ => False end.

(** A height the simulation works with: a value of the format that is
    finite and below [2^32] in absolute value. *)
Definition bounded_height (h : float) : Prop := valid h = true /\ small 32 h.

(** [r] is minus infinity or a finite value that is at most [B]. *)
Definition below (r B : float) : Prop :=
  r = S754_infinity true
  \/ (finite_or_zero r = true /\ exponent_ok r /\ scaled r <= scaled B).

(** [k] right shifts of the mantissa [m0]: the quotient, and no flag set
    when nothing was lost. *)
Definition shr_inv (m0 : Z) (k : Z) (mrs : shr_record) : Prop :=
  shr_m mrs = m0 / 2 ^ k
  /\ (m0 mod 2 ^ k = 0 -> shr_r mrs = false /\ shr_s mrs = false).

(** The last step of [binary_round_aux]. *)
Definition finish (s : bool) (M2 e2 : Z) : spec_float :=
  match M2 with
  | Z0 => S754_zero s
  | Zpos m => if e2 <=? 104 then S754_finite s m e2 else S754_infinity s
  | Zneg _ => S754_nan
  end.

Section Properties.

Context {RandSource Movement : Type}.

(** The mass transfer of the specification: the two mass counters add
    up to the same before ([a], [b]) and after ([a'], [b']) to within
    [FLT_EPSILON] times the number of cells of the two plates. *)
Definition mass_transfer_within_epsilon
    (a b a' b' : plate RandSource Movement) : Prop :=
  (Qabs ((value (getMass (_mass a)) + value (getMass (_mass b)))
         - (value (getMass (_mass a')) + value (getMass (_mass b'))))
   <= FLT_EPSILON * inject_Z (area (_bounds a') + area (_bounds b')))%Q.

(** A cell of the plate that is at least [lower_bound] high and whose
    four neighbours, to the west, east, north and south, are all
    strictly lower. *)
Definition strict_peak (p : plate RandSource Movement) (lower_bound : float)
    (x y : Z) : Prop :=
  let w := width (_bounds p) in
  let h := height (_bounds p) in
  0 <= x < w /\ 0 <= y < h /\
  exists m hw he hn hs,
    load (map p) (y * w + x) = Some m /\
    load (map p) (y * w + (x - 1) mod w) = Some hw /\
    load (map p) (y * w + (x + 1) mod w) = Some he /\
    load (map p) ((y - 1) mod h * w + x) = Some hn /\
    load (map p) ((y + 1) mod h * w + x) = Some hs /\
    F32.leb lower_bound m = true /\
    F32.ltb hw m = true /\ F32.ltb he m = true /\
    F32.ltb hn m = true /\ F32.ltb hs m = true.

(** A cell of the plate a river starts from: a cell at least
    [lower_bound] high whose four directions are on the plate (the cell
    is not on that edge of the plate, or the plate is as wide, or as
    high, as the world and wraps around), whose four neighbours are
    strictly lower, and for which the single-precision product of the
    four neighbour heights, taken west, east, north, south, is not
    zero. *)
Definition river_source (p : plate RandSource Movement) (lower_bound : float)
    (x y : Z) : Prop :=
  let w := width (_bounds p) in
  let h := height (_bounds p) in
  let W := getWidth (_worldDimension p) in
  let H := getHeight (_worldDimension p) in
  0 <= x < w /\ 0 <= y < h /\
  (0 < x \/ w = W) /\ (x < w - 1 \/ w = W) /\
  (0 < y \/ h = H) /\ (y < h - 1 \/ h = H) /\
  exists m hw he hn hs,
    load (map p) (y * w + x) = Some m /\
    load (map p) (y * w + (x - 1) mod w) = Some hw /\
    load (map p) (y * w + (x + 1) mod w) = Some he /\
    load (map p) ((y - 1) mod h * w + x) = Some hn /\
    load (map p) ((y + 1) mod h * w + x) = Some hs /\
    F32.leb lower_bound m = true /\
    F32.ltb hw m = true /\ F32.ltb he m = true /\
    F32.ltb hn m = true /\ F32.ltb hs m = true /\
    F32.eqb (F32.mul (F32.mul (F32.mul hw he) hn) hs) F32.zero = false.

(** The three buffers of a plate have one cell for every cell of its
    rectangle. *)
Definition well_formed (p : plate RandSource Movement) : Prop :=
  Z.of_nat (length (map p)) = area (_bounds p)
  /\ Z.of_nat (length (age_map p)) = area (_bounds p)
  /\ Z.of_nat (length (seg_id (_segments p))) = area (_bounds p).

(** The number of cells [flowRivers] has not marked yet. *)
Definition not_done (isDone : list Z) : nat :=
  length (filter (fun v => v = 0) isDone).

(** The source after [n] calls of [next_double]. *)
Definition draws `{!RandomSource RandSource} (n : nat) (rs : RandSource)
  : RandSource :=
  Nat.iter n (fun r => (rs_next_double r).2) rs.

End Properties.

(** ** Collaborators to run the plate with *)

(** A source that gives the same double and the same word at every
    draw. *)
Record ConstantSource : Type := mkConstantSource {
  cs_double : spec_float;
  cs_word : Z
}.

#[export] Instance constant_source : RandomSource ConstantSource := {|
  rs_seed := fun seed => mkConstantSource (S754_zero false) seed;
  rs_next := fun r => (cs_word r, r);
  rs_next_double := fun r => (cs_double r, r)
|}.

(** A motion of constant velocity [(vx, vy)]. *)
Record Velocity : Type := mkVelocity { vx : float; vy : float }.

#[export] Instance velocity_motion : Motion Velocity ConstantSource := {|
  mv_init := fun r _ => (mkVelocity F32.zero F32.zero, r);
  mv_dot := fun m dx dy => F32.add (F32.mul (vx m) dx) (F32.mul (vy m) dy);
  velocityOnX := fun m b => F32.mul (vx m) (F32.of_bool b);
  velocityOnY := fun m b => F32.mul (vy m) (F32.of_bool b)
|}.

Module Examples.

Definition world : WorldDimension := mkWorldDimension 10 10.

(** The double [0.5]. *)
Definition half_double : spec_float := S754_finite false 4503599627370496 (-53).

Definition at_rest : Velocity := mkVelocity F32.zero F32.zero.

(** A 3 x 3 plate at (2, 2) whose only crust, of height [c] and age
    [age], is in the middle; the middle cell is continent 0, whose
    record has area [n], and the random source draws [word]. *)
Definition island (c : float) (age : Z) (n : Z) (word : Z)
  : plate ConstantSource Velocity :=
  let o := F32.zero in
  let u := UNASSIGNED in
  mkPlate (mkConstantSource half_double word)
          (mkMass c)
          (mkRectangle world (F32.of_Z 2) (F32.of_Z 2) 3 3)
          [o; o; o; o; c; o; o; o; o]
          [0; 0; 0; 0; age; 0; 0; 0; 0]
          world at_rest
          (mkSegments [u; u; u; u; 0; u; u; u; u]
                      [mkSegmentData 1 1 1 1 n 0 true]).

(** Scenario S1 of the specification, with its land as continent 0. *)
Definition plate_S1 : plate ConstantSource Velocity := island F32.one 5 1 1.

(** The plate of all zeros of scenario S4. *)
Definition plate_empty : plate ConstantSource Velocity := island F32.zero 0 0 1.

(** A plate whose middle cell is [2^24] high. *)
Definition plate_high : plate ConstantSource Velocity :=
  island (F32.of_Z 16777216) 5 1 1.

(** [0.2f], the single-precision value nearest to one fifth. *)
Definition fifth : float := F32.div F32.one (F32.of_Z 5).

(** A plate whose middle cell holds crust [0.2f] of age 3. *)
Definition plate_thin : plate ConstantSource Velocity := island fifth 3 1 1.

(** A peak of height 5 surrounded by zeros (scenario S5). *)
Definition plate_peak : plate ConstantSource Velocity :=
  island (F32.of_Z 5) 5 1 1.

(** A cell of height [2^100] between a neighbour as high as it is, to
    the north, and lower ones: [2^70] to the west and to the east, [1.0]
    to the south. *)
Definition plate_steep : plate ConstantSource Velocity :=
  let o := F32.zero in
  let u := UNASSIGNED in
  let side := F32.of_Z (2 ^ 70) in
  let top := F32.of_Z (2 ^ 100) in
  mkPlate (mkConstantSource half_double 1)
          (mkMass F32.zero)
          (mkRectangle world (F32.of_Z 2) (F32.of_Z 2) 3 3)
          [o; top; o; side; top; side; o; F32.one; o]
          [0; 0; 0; 0; 0; 0; 0; 0; 0]
          world at_rest
          (mkSegments [u; u; u; u; u; u; u; u; u] []).

(** A world of 3 x 3 cells. *)
Definition small_world : WorldDimension := mkWorldDimension 3 3.

(** A plate that covers the small world: a hill of height 5 in the
    middle of a plain of height 1. *)
Definition plate_hill : plate ConstantSource Velocity :=
  let o := F32.one in
  let u := UNASSIGNED in
  mkPlate (mkConstantSource half_double 1)
          (mkMass (F32.of_Z 13))
          (mkRectangle small_world F32.zero F32.zero 3 3)
          [o; o; o; o; F32.of_Z 5; o; o; o; o]
          [0; 0; 0; 0; 0; 0; 0; 0; 0]
          small_world at_rest
          (mkSegments [u; u; u; u; u; u; u; u; u] []).

(** S1: the constructor on a 3 x 3 array with one cell of crust. *)
Definition built_S1 : construction ConstantSource Velocity :=
  let o := F32.zero in
  plate_ctor 1 (Some [o; o; o; o; F32.one; o; o; o; o]) 3 3 2 2 5 Examples.world.

(** S6: a 4 x 4 plate at (8, 8), with crust in its last cell, in the world
    of 10 x 10. *)
Definition built_S6 : construction ConstantSource Velocity :=
  let o := F32.zero in
  plate_ctor 1 (Some [o; o; o; o; o; o; o; o; o; o; o; o; o; o; o; F32.one])
             4 4 8 8 5 Examples.world.

(** The crust, the age and the mass a constructed plate is asked for. *)
Definition observe (c : construction ConstantSource Velocity) (x y : Z)
  : option (float * Z * float) :=
  match c with
  | Constructed p =>
      h ← getCrust p x y; t ← getCrustTimestamp p x y;
      Some (h, t, getMass (_mass p))
  | _ => None
  end.

End Examples.

(** * Properties *)

(** A step of a computation that can fail, when the whole succeeded:
    the step succeeded too, with result [pat]. *)
Tactic Notation "bind_inv" hyp(H) "as" simple_intropattern(pat) "eqn" ":" ident(E) :=
  match type of H with
  | mbind _ ?m = Some _ =>
      destruct m as [pat|] eqn:E;
      cbn [mbind option_bind] in H; [|discriminate H]
  end.

Tactic Notation "bind_inv" hyp(H) "as" simple_intropattern(pat) :=
  match type of H with
  | mbind _ ?m = Some _ =>
      destruct m as [pat|];
      cbn [mbind option_bind] in H; [|discriminate H]
  end.

(** ** Masks of [uint32_t] *)

Lemma mask_true : U32.mask true = Z.ones 32.
Proof. reflexivity. Qed.

Lemma mask_false : U32.mask false = 0.
Proof. reflexivity. Qed.

Lemma lnot_mask (c : bool) : U32.lnot (U32.mask c) = U32.mask (negb c).
Proof. destruct c; reflexivity. Qed.

Lemma land_mask (v : Z) (c : bool) :
  U32.in_range v -> Z.land v (U32.mask c) = if c then v else 0.
Proof.
  intros Hv. destruct c.
  - rewrite mask_true, Z.land_ones by lia. apply Z.mod_small. exact Hv.
  - rewrite mask_false. apply Z.land_0_r.
Qed.

(** [(a & ~mask) | (b & mask)] chooses [b] when the mask is set. *)
Lemma select_by_mask (a b : Z) (c : bool) :
  U32.in_range a -> U32.in_range b ->
  Z.lor (Z.land a (U32.lnot (U32.mask c))) (Z.land b (U32.mask c))
  = if c then b else a.
Proof.
  intros Ha Hb. rewrite lnot_mask, !land_mask by assumption.
  destruct c; simpl; [reflexivity | apply Z.lor_0_r].
Qed.

Lemma wrap_in_range (z : Z) : U32.in_range (U32.wrap z).
Proof. unfold U32.in_range, U32.wrap. apply Z.mod_pos_bound. reflexivity. Qed.

Lemma wrap_small (z : Z) : U32.in_range z -> U32.wrap z = z.
Proof. intros H. apply Z.mod_small. exact H. Qed.

(** The index of a cell of a rectangle that has at most [2^32] cells. *)
Lemma index_no_wrap (r : Rectangle) (i j : Z) :
  0 <= i < width r -> 0 <= j < height r ->
  width r * height r <= U32.modulus ->
  index r i j = j * width r + i.
Proof.
  intros Hi Hj Hb. unfold index, U32.add, U32.mul.
  rewrite (wrap_small (j * _)) by (unfold U32.in_range; nia).
  apply wrap_small. unfold U32.in_range. nia.
Qed.

(** ** Comparisons with zero *)

Lemma gtb_zero_not_ltb (z : float) :
  F32.gtb z F32.zero = true -> F32.ltb z F32.zero = false.
Proof. destruct z as [s|s| |s m e]; try destruct s; cbv; congruence. Qed.

Lemma leb_zero_not_gtb (z : float) :
  F32.leb z F32.zero = true -> F32.gtb z F32.zero = false.
Proof. destruct z as [s|s| |s m e]; try destruct s; cbv; congruence. Qed.

Lemma clamp_is_fmax (z : float) : clamp z = fmax z F32.zero.
Proof. reflexivity. Qed.

Lemma clamp_positive (z : float) : F32.gtb z F32.zero = true -> clamp z = z.
Proof. intros H. unfold clamp. now rewrite gtb_zero_not_ltb. Qed.

Lemma clamp_not_positive (z : float) :
  F32.leb z F32.zero = true -> F32.gtb (clamp z) F32.zero = false.
Proof. destruct z as [s|s| |s m e]; try destruct s; cbv; congruence. Qed.

(** ** Buffers *)

Section Buffers.

Context {A : Type}.
Implicit Types (buf src dst : list A) (i j n : Z).

Lemma load_Some buf i v :
  load buf i = Some v -> 0 <= i < Z.of_nat (length buf).
Proof.
  unfold load. destruct (Z.leb_spec 0 i); [|discriminate].
  intros Hl. apply lookup_lt_Some in Hl. lia.
Qed.

Lemma load_lookup buf i : 0 <= i -> load buf i = buf !! Z.to_nat i.
Proof. intros Hi. unfold load. destruct (Z.leb_spec 0 i); [reflexivity | lia]. Qed.

Lemma store_length buf i v buf' :
  store buf i v = Some buf' -> length buf' = length buf.
Proof.
  unfold store. destruct (_ && _); [|discriminate].
  intros [= <-]. apply length_insert.
Qed.

Lemma store_in_range buf i v buf' :
  store buf i v = Some buf' -> 0 <= i < Z.of_nat (length buf).
Proof.
  unfold store. destruct (Z.leb_spec 0 i), (Z.ltb_spec i (Z.of_nat (length buf)));
    simpl; try discriminate. lia.
Qed.

Lemma load_store_eq buf i v buf' :
  store buf i v = Some buf' -> load buf' i = Some v.
Proof.
  intros Hs. pose proof (store_in_range _ _ _ _ Hs) as Hi.
  unfold store in Hs. destruct (_ && _); [|discriminate].
  injection Hs as <-. rewrite load_lookup by lia.
  apply list_lookup_insert_eq. lia.
Qed.

Lemma load_store_ne buf i j v buf' :
  store buf i v = Some buf' -> i <> j -> load buf' j = load buf j.
Proof.
  intros Hs Hne. pose proof (store_in_range _ _ _ _ Hs) as Hi.
  unfold store in Hs. destruct (_ && _); [|discriminate].
  injection Hs as <-. unfold load. destruct (Z.leb_spec 0 j); [|reflexivity].
  apply list_lookup_insert_ne. lia.
Qed.

Lemma store_same buf i v :
  load buf i = Some v -> store buf i v = Some buf.
Proof.
  intros Hl. pose proof (load_Some _ _ _ Hl) as Hi.
  unfold store. destruct (Z.leb_spec 0 i), (Z.ltb_spec i (Z.of_nat (length buf)));
    try lia. simpl. f_equal. apply list_insert_id.
  rewrite <- load_lookup by lia. exact Hl.
Qed.

Lemma store_total buf i v :
  0 <= i < Z.of_nat (length buf) -> exists buf', store buf i v = Some buf'.
Proof.
  intros Hi. unfold store.
  destruct (Z.leb_spec 0 i), (Z.ltb_spec i (Z.of_nat (length buf))); try lia.
  simpl. eauto.
Qed.

End Buffers.

(** ** [memcpy] *)

Section Memcpy.

Context {A : Type}.
Implicit Types (src dst r : list A) (di si n k c : Z).

Lemma memcpy_Some dst di src si n r :
  memcpy dst di src si n = Some r ->
  0 <= n /\ 0 <= si /\ 0 <= di
  /\ si + n <= Z.of_nat (length src) /\ di + n <= Z.of_nat (length dst)
  /\ r = take (Z.to_nat di) dst
         ++ take (Z.to_nat n) (drop (Z.to_nat si) src)
         ++ drop (Z.to_nat (di + n)) dst.
Proof.
  unfold memcpy.
  destruct (Z.leb_spec 0 n), (Z.leb_spec 0 si), (Z.leb_spec 0 di),
    (Z.leb_spec (si + n) (Z.of_nat (length src))),
    (Z.leb_spec (di + n) (Z.of_nat (length dst))); simpl; try discriminate.
  intros [= <-]. repeat split; assumption.
Qed.

Lemma memcpy_total dst di src si n :
  0 <= n -> 0 <= si -> 0 <= di ->
  si + n <= Z.of_nat (length src) -> di + n <= Z.of_nat (length dst) ->
  exists r, memcpy dst di src si n = Some r.
Proof.
  intros. unfold memcpy.
  destruct (Z.leb_spec 0 n), (Z.leb_spec 0 si), (Z.leb_spec 0 di),
    (Z.leb_spec (si + n) (Z.of_nat (length src))),
    (Z.leb_spec (di + n) (Z.of_nat (length dst))); try lia.
  simpl. eauto.
Qed.

Lemma memcpy_length dst di src si n r :
  memcpy dst di src si n = Some r -> length r = length dst.
Proof.
  intros H. apply memcpy_Some in H as (Hn & Hsi & Hdi & Hs & Hd & ->).
  rewrite !length_app, !length_take, !length_drop. lia.
Qed.

(** The cells the copy writes hold what the source held. *)
Lemma memcpy_copied dst di src si n r c :
  memcpy dst di src si n = Some r -> 0 <= c < n ->
  load r (di + c) = load src (si + c).
Proof.
  intros H Hc. apply memcpy_Some in H as (Hn & Hsi & Hdi & Hs & Hd & ->).
  rewrite !load_lookup by lia.
  rewrite lookup_app_r by (rewrite length_take; lia).
  rewrite length_take_le by lia.
  rewrite lookup_app_l by (rewrite length_take, length_drop; lia).
  rewrite lookup_take_lt by lia.
  rewrite lookup_drop. f_equal. lia.
Qed.

(** The other cells keep what the destination held. *)
Lemma memcpy_other dst di src si n r k :
  memcpy dst di src si n = Some r -> k < di \/ di + n <= k ->
  load r k = load dst k.
Proof.
  intros H Hk. apply memcpy_Some in H as (Hn & Hsi & Hdi & Hs & Hd & ->).
  unfold load. destruct (Z.leb_spec 0 k) as [Hk0|]; [|reflexivity].
  destruct Hk as [Hk|Hk].
  - rewrite lookup_app_l by (rewrite length_take; lia).
    apply lookup_take_lt. lia.
  - rewrite lookup_app_r by (rewrite length_take; lia).
    rewrite length_take_le by lia.
    rewrite lookup_app_r by (rewrite length_take, length_drop; lia).
    rewrite length_take_le by (rewrite length_drop; lia).
    rewrite lookup_drop. f_equal. lia.
Qed.

Lemma memcpy_Forall (P : A -> Prop) dst di src si n r :
  memcpy dst di src si n = Some r -> Forall P dst -> Forall P src -> Forall P r.
Proof.
  intros H Hd Hs. apply memcpy_Some in H as (_ & _ & _ & _ & _ & ->).
  rewrite !Forall_app. repeat split.
  - now apply Forall_take.
  - now apply Forall_take, Forall_drop.
  - now apply Forall_drop.
Qed.

End Memcpy.

(** ** The copy loop of the reframe *)

Section CopyRows.

Context {A : Type}.
Variables d_top d_lft new_width old_width : Z.
Hypothesis d_top_nonneg : 0 <= d_top.
Hypothesis d_lft_nonneg : 0 <= d_lft.
Hypothesis old_width_nonneg : 0 <= old_width.
Hypothesis row_fits : d_lft + old_width <= new_width.

(** Where row [j] of the old plate starts in the new buffer. *)
Let dest (j : Z) : Z := (d_top + j) * new_width + d_lft.

Lemma copy_rows_lookup (n : nat) : forall (j0 : Z) (old tmp r : list A),
  0 <= j0 ->
  d_top + j0 + Z.of_nat n < U32.modulus ->
  (d_top + j0 + Z.of_nat n) * new_width < U32.modulus ->
  copy_rows n j0 d_top d_lft new_width old_width old tmp = Some r ->
  length r = length tmp
  /\ (forall j c, j0 <= j < j0 + Z.of_nat n -> 0 <= c < old_width ->
        load r (dest j + c) = load old (j * old_width + c))
  /\ (forall k,
        (forall j, j0 <= j < j0 + Z.of_nat n ->
                   k < dest j \/ dest j + old_width <= k) ->
        load r k = load tmp k).
Proof using d_top_nonneg d_lft_nonneg old_width_nonneg row_fits.
  induction n as [|n IH]; intros j0 old tmp r Hj0 Hj Hbound Hcopy.
  - injection Hcopy as <-.
    split; [reflexivity | split; [intros; lia | reflexivity]].
  - cbn [copy_rows] in Hcopy.
    destruct (memcpy _ _ _ _ _) as [tmp'|] eqn:Hrow; [|discriminate].
    cbn in Hcopy.
    assert (Hnw : 0 <= new_width) by lia.
    assert (Hdest : U32.add (U32.mul (U32.add d_top j0) new_width) d_lft = dest j0).
    { unfold U32.add, U32.mul, dest.
      rewrite (wrap_small (d_top + j0)) by (unfold U32.in_range, U32.modulus in *; nia).
      rewrite (wrap_small ((d_top + j0) * new_width))
        by (unfold U32.in_range, U32.modulus in *; nia).
      apply wrap_small. unfold U32.in_range, U32.modulus in *. nia. }
    assert (Hsrc : U32.mul j0 old_width = j0 * old_width).
    { apply wrap_small. unfold U32.in_range, U32.modulus in *. nia. }
    assert (Hnext : U32.add j0 1 = j0 + 1).
    { apply wrap_small. unfold U32.in_range, U32.modulus in *. lia. }
    rewrite Hdest, Hsrc in Hrow. rewrite Hnext in Hcopy.
    assert (Hbound' : (d_top + (j0 + 1) + Z.of_nat n) * new_width < U32.modulus).
    { replace (d_top + (j0 + 1) + Z.of_nat n)
        with (d_top + j0 + Z.of_nat (S n)) by lia. exact Hbound. }
    destruct (IH (j0 + 1) old tmp' r ltac:(lia) ltac:(lia) Hbound' Hcopy)
      as (Hlen & Hcopied & Hother).
    split; [|split].
    + rewrite Hlen. eapply memcpy_length; eassumption.
    + intros j c Hjr Hc.
      destruct (Z.eq_dec j j0) as [->|Hne].
      * rewrite Hother.
        -- eapply memcpy_copied; eassumption.
        -- intros j Hjr'. left. unfold dest. nia.
      * apply Hcopied; lia.
    + intros k Hk. rewrite Hother.
      * eapply memcpy_other; [eassumption|]. apply Hk. lia.
      * intros j Hjr. apply Hk. lia.
Qed.

Lemma copy_rows_Forall (P : A -> Prop) (n : nat) : forall j0 (old tmp r : list A),
  copy_rows n j0 d_top d_lft new_width old_width old tmp = Some r ->
  Forall P old -> Forall P tmp -> Forall P r.
Proof using Type.
  induction n as [|n IH]; intros j0 old tmp r Hcopy Hold Htmp.
  - injection Hcopy as <-. exact Htmp.
  - cbn [copy_rows] in Hcopy.
    destruct (memcpy _ _ _ _ _) as [tmp'|] eqn:Hrow; [|discriminate].
    cbn in Hcopy. eapply IH; [eassumption | assumption |].
    eapply memcpy_Forall; eassumption.
Qed.

End CopyRows.

(** ** The reframe of [setCrust] *)

Section Reframe.

Context {RandSource Movement : Type}.
Implicit Types (p : plate RandSource Movement).

Lemma shl_in_range (a n : Z) : U32.in_range (U32.shl a n).
Proof. apply wrap_in_range. Qed.

Lemma sub_in_range (a b : Z) : U32.in_range (U32.sub a b).
Proof. apply wrap_in_range. Qed.

Lemma zero_in_range : U32.in_range 0.
Proof. unfold U32.in_range, U32.modulus. lia. Qed.

(** Every growth is an [uint32_t]. *)
Lemma growth_in_range p x y d_lft d_rgt d_top d_btm :
  growth p x y = (d_lft, d_rgt, d_top, d_btm) ->
  U32.in_range d_lft /\ U32.in_range d_rgt
  /\ U32.in_range d_top /\ U32.in_range d_btm.
Proof.
  unfold growth. cbv zeta.
  destruct (_ <? U32.add (U32.add (width _) _) _);
    destruct (_ <? U32.add (U32.add (height _) _) _);
    intros [= <- <- <- <-];
    auto using shl_in_range, sub_in_range, zero_in_range.
Qed.

(** The loop on the three buffers is the loop on each of them. *)
Lemma copy_old_plate_rows (n : nat) :
  forall j d_top d_lft new_width old_width old_h old_a old_s tmph tmpa tmps h a s,
  copy_old_plate n j d_top d_lft new_width old_width
                 old_h old_a old_s tmph tmpa tmps = Some (h, a, s) ->
  copy_rows n j d_top d_lft new_width old_width old_h tmph = Some h
  /\ copy_rows n j d_top d_lft new_width old_width old_a tmpa = Some a
  /\ copy_rows n j d_top d_lft new_width old_width old_s tmps = Some s.
Proof.
  induction n as [|n IH]; intros j d_top d_lft new_width old_width
    old_h old_a old_s tmph tmpa tmps h a s Hcopy.
  - injection Hcopy as <- <- <-. auto.
  - cbn [copy_old_plate copy_rows] in *.
    destruct (memcpy tmph _ _ _ _) as [tmph'|]; [|discriminate].
    destruct (memcpy tmpa _ _ _ _) as [tmpa'|]; [|discriminate].
    destruct (memcpy tmps _ _ _ _) as [tmps'|]; [|discriminate].
    cbn in *. now apply IH.
Qed.

(** What the reframe is made of: the growth, the new rectangle and the
    three buffers the loop fills. *)
Lemma reframe_Some p x y z p1 i :
  reframe p x y z = Some (p1, i) ->
  let xy := normalize (_worldDimension p) x y in
  let '(d_lft, d_rgt, d_top, d_btm) := growth p xy.1 xy.2 in
  let bounds :=
    grow (shift (_bounds p) (F32.of_Z (- d_lft)) (F32.of_Z (- d_top)))
         (U32.add d_lft d_rgt) (U32.add d_top d_btm) in
  F32.gtb z F32.zero = true
  /\ _bounds p1 = bounds
  /\ copy_old_plate (Z.to_nat (height (_bounds p))) 0 d_top d_lft
       (width bounds) (width (_bounds p))
       (map p) (age_map p) (seg_id (_segments p))
       (replicate (Z.to_nat (area bounds)) F32.zero)
       (replicate (Z.to_nat (area bounds)) 0)
       (replicate (Z.to_nat (area bounds)) UNASSIGNED)
     = Some (map p1, age_map p1, seg_id (_segments p1))
  /\ seg_data (_segments p1) = shift_data d_lft d_top <$> seg_data (_segments p)
  /\ _mass p1 = _mass p
  /\ _worldDimension p1 = _worldDimension p
  /\ (exists lx ly, getValidMapIndex bounds xy.1 xy.2 = Some (i, lx, ly))
  /\ i < area bounds.
Proof.
  unfold reframe. intros H.
  destruct (normalize _ x y) as [nx ny] eqn:Hn. cbn [fst snd].
  destruct (growth p nx ny) as [[[d_lft d_rgt] d_top] d_btm] eqn:Hg.
  cbv zeta.
  bind_inv H as Hz. bind_inv H as Hd.
  bind_inv H as [[h a] s] eqn:Hc. bind_inv H as [[i' lx] ly] eqn:Hv.
  bind_inv H as Hi.
  injection H as <- <-. cbn.
  repeat split; try assumption; try reflexivity. eauto.
Qed.

Lemma load_replicate {A : Type} (n : Z) (v : A) (k : Z) :
  0 <= k < n -> load (replicate (Z.to_nat n) v) k = Some v.
Proof.
  intros Hk. rewrite load_lookup by lia. apply lookup_replicate_2. lia.
Qed.

(** C4.  When [setCrust] reframes the plate for a cell outside it, every
    cell of the old rectangle is found, with its crust, its age and its
    continent id, [d_lft] columns to the right and [d_top] rows down in
    the enlarged buffers; every continent record has its bounding box
    shifted by [(d_lft, d_top)]; and every cell of the new rectangle
    outside the old one has height 0, age 0 and the unassigned id. *)
Theorem reframe_preserves_content p x y z p1 i d_lft d_rgt d_top d_btm :
  let ow := width (_bounds p) in
  let oh := height (_bounds p) in
  let nw := ow + d_lft + d_rgt in
  let nh := oh + d_top + d_btm in
  reframe p x y z = Some (p1, i) ->
  growth p (x mod getWidth (_worldDimension p))
           (y mod getHeight (_worldDimension p))
    = (d_lft, d_rgt, d_top, d_btm) ->
  0 <= ow -> 0 <= oh ->
  nw < U32.modulus -> nh < U32.modulus -> nw * nh < U32.modulus ->
  width (_bounds p1) = nw /\ height (_bounds p1) = nh
  /\ (forall cx cy, 0 <= cx < ow -> 0 <= cy < oh ->
        load (map p1) ((d_top + cy) * nw + (d_lft + cx))
          = load (map p) (cy * ow + cx)
        /\ load (age_map p1) ((d_top + cy) * nw + (d_lft + cx))
          = load (age_map p) (cy * ow + cx)
        /\ load (seg_id (_segments p1)) ((d_top + cy) * nw + (d_lft + cx))
          = load (seg_id (_segments p)) (cy * ow + cx))
  /\ (forall c d, data (_segments p) c = Some d ->
        data (_segments p1) c = Some (shift_data d_lft d_top d))
  /\ (forall cx cy, 0 <= cx < nw -> 0 <= cy < nh ->
        ~ (d_lft <= cx < d_lft + ow /\ d_top <= cy < d_top + oh) ->
        load (map p1) (cy * nw + cx) = Some F32.zero
        /\ load (age_map p1) (cy * nw + cx) = Some 0
        /\ load (seg_id (_segments p1)) (cy * nw + cx) = Some UNASSIGNED).
Proof.
  intros ow oh nw nh Hre Hg How Hoh Hnw Hnh Harea.
  pose proof (growth_in_range _ _ _ _ _ _ _ Hg) as (Hl & Hr & Ht & Hb).
  unfold U32.in_range in Hl, Hr, Ht, Hb.
  apply reframe_Some in Hre. cbn [normalize fst snd] in Hre.
  rewrite Hg in Hre.
  destruct Hre as (_ & Hbounds & Hcopy & Hdata & _).
  assert (Hw1 : width (_bounds p1) = nw).
  { rewrite Hbounds. cbn. unfold U32.add.
    rewrite (wrap_small (d_lft + d_rgt)) by (unfold U32.in_range; lia).
    rewrite wrap_small by (unfold U32.in_range; fold ow; lia).
    reflexivity || (unfold nw, ow; lia). }
  assert (Hh1 : height (_bounds p1) = nh).
  { rewrite Hbounds. cbn. unfold U32.add.
    rewrite (wrap_small (d_top + d_btm)) by (unfold U32.in_range; lia).
    rewrite wrap_small by (unfold U32.in_range; fold oh; lia).
    reflexivity || (unfold nh, oh; lia). }
  assert (Ha1 : area (_bounds p1) = nw * nh).
  { unfold area. rewrite Hw1, Hh1. apply wrap_small.
    unfold U32.in_range. nia. }
  rewrite <- Hbounds, Hw1, Ha1 in Hcopy. fold ow oh in Hcopy.
  apply copy_old_plate_rows in Hcopy as (Hch & Hca & Hcs).
  assert (Hfit : d_lft + ow <= nw) by lia.
  assert (Hrows : d_top + 0 + Z.of_nat (Z.to_nat oh) < U32.modulus) by lia.
  assert (Hlast : (d_top + 0 + Z.of_nat (Z.to_nat oh)) * nw < U32.modulus) by nia.
  pose proof (copy_rows_lookup d_top d_lft nw ow ltac:(lia) ltac:(lia) How Hfit
                _ _ _ _ _ (Z.le_refl 0) Hrows Hlast Hch) as (_ & Hh_in & Hh_out).
  pose proof (copy_rows_lookup d_top d_lft nw ow ltac:(lia) ltac:(lia) How Hfit
                _ _ _ _ _ (Z.le_refl 0) Hrows Hlast Hca) as (_ & Ha_in & Ha_out).
  pose proof (copy_rows_lookup d_top d_lft nw ow ltac:(lia) ltac:(lia) How Hfit
                _ _ _ _ _ (Z.le_refl 0) Hrows Hlast Hcs) as (_ & Hs_in & Hs_out).
  split; [exact Hw1 | split; [exact Hh1 | split; [| split]]].
  - intros cx cy Hcx Hcy.
    replace ((d_top + cy) * nw + (d_lft + cx))
      with ((d_top + cy) * nw + d_lft + cx) by lia.
    repeat split; [apply Hh_in | apply Ha_in | apply Hs_in]; lia.
  - intros c d Hc. unfold data in *. rewrite Hdata, list_lookup_fmap, Hc.
    reflexivity.
  - intros cx cy Hcx Hcy Hnew.
    assert (Hout : forall j, 0 <= j < 0 + Z.of_nat (Z.to_nat oh) ->
              cy * nw + cx < (d_top + j) * nw + d_lft
              \/ (d_top + j) * nw + d_lft + ow <= cy * nw + cx).
    { intros j Hj.
      destruct (Z.lt_trichotomy cy (d_top + j)) as [Hlt|[Heq|Hgt]].
      - left. nia.
      - subst cy.
        destruct (Z.lt_ge_cases cx d_lft); [left; lia|].
        destruct (Z.lt_ge_cases cx (d_lft + ow)); [|right; lia].
        exfalso. apply Hnew. lia.
      - right. nia. }
    rewrite (Hh_out _ Hout), (Ha_out _ Hout), (Hs_out _ Hout).
    assert (Hk : 0 <= cy * nw + cx < nw * nh) by nia.
    repeat split; apply load_replicate; exact Hk.
Qed.

End Reframe.

(** Scenario S2: [setCrust(6, 3, 2.0, 9)] on the plate of scenario S1
    widens it to the ten columns of the world, and the crust of the
    middle cell is found again in row 1, column 1. *)
Lemma reframe_preserves_content_witness :
  exists p1 i,
    reframe Examples.plate_S1 6 3 (F32.of_Z 2) = Some (p1, i)
    /\ width (_bounds p1) = 10
    /\ load (map p1) 11 = Some F32.one
    /\ load (map p1) 14 = Some F32.zero.
Proof.
  edestruct (reframe_preserves_content Examples.plate_S1 6 3 (F32.of_Z 2))
    as (Hw & _ & Hold & _ & Hnew);
    [vm_compute; reflexivity | vm_compute; reflexivity
    | vm_compute; congruence | vm_compute; congruence
    | reflexivity | reflexivity | reflexivity |].
  eexists _, _. split; [vm_compute; reflexivity|].
  split; [exact Hw|]. split.
  - destruct (Hold 1 1) as (Hm & _); [cbn; lia ..|]. exact Hm.
  - destruct (Hnew 4 1) as (Hm & _); [cbn; lia ..|]. exact Hm.
Defined.

(** ** [setCrust] *)

Section SetCrust.

Context {RandSource Movement : Type}.
Implicit Types (p : plate RandSource Movement).

(** The two masks of the age update read as two conditionals. *)
Lemma new_age_cases (m : float) (a : Z) (z : float) (t : Z) :
  U32.in_range a -> U32.in_range t ->
  new_age m a z t =
    if F32.gtb z F32.zero
    then if F32.gtb m F32.zero then subduction_age m a z t else t
    else a.
Proof.
  intros Ha Ht. unfold new_age.
  rewrite select_by_mask by (assumption || apply wrap_in_range).
  rewrite Z.lor_comm, select_by_mask.
  - reflexivity.
  - exact Ha.
  - destruct (F32.gtb m F32.zero); [apply wrap_in_range | exact Ht].
Qed.

(** What [update] reads and writes. *)
Lemma update_Some p i z t p' :
  update p i z t = Some p' ->
  exists m a,
    load (map p) i = Some m /\ load (age_map p) i = Some a
    /\ store (age_map p) i (new_age m a z t) = Some (age_map p')
    /\ store (map p) i z = Some (map p')
    /\ _mass p' = incMass (incMass (_mass p) (F32.mul (F32.of_Z (-1)) m)) z
    /\ _bounds p' = _bounds p /\ _segments p' = _segments p
    /\ _worldDimension p' = _worldDimension p
    /\ _randsource p' = _randsource p /\ _movement p' = _movement p.
Proof.
  unfold update. intros H.
  bind_inv H as m eqn:Hm. bind_inv H as a eqn:Ha.
  bind_inv H as ages eqn:Hages. bind_inv H as heights eqn:Hheights.
  injection H as <-. exists m, a. cbn. repeat split; assumption || reflexivity.
Qed.

(** The ages of a reframed plate are [uint32_t] values as those of the
    plate were. *)
Lemma reframe_ages_in_range p x y z p1 i :
  reframe p x y z = Some (p1, i) ->
  Forall U32.in_range (age_map p) -> Forall U32.in_range (age_map p1).
Proof.
  intros Hre Hages. apply reframe_Some in Hre.
  destruct (growth p _ _) as [[[d_lft d_rgt] d_top] d_btm].
  destruct Hre as (_ & _ & Hcopy & _).
  apply copy_old_plate_rows in Hcopy as (_ & Hca & _).
  eapply copy_rows_Forall; [exact Hca | exact Hages |].
  apply Forall_replicate, zero_in_range.
Qed.

Lemma locate_ages_in_range p x y z p1 i :
  locate p x y z = Some (p1, i) ->
  Forall U32.in_range (age_map p) -> Forall U32.in_range (age_map p1).
Proof.
  unfold locate. destruct (getMapIndex _ x y) as [[i0 lx] ly].
  destruct (i0 =? BAD_INDEX).
  - apply reframe_ages_in_range.
  - intros [= <- <-]. trivial.
Qed.

Lemma load_Forall {A : Type} (P : A -> Prop) (buf : list A) (i : Z) (v : A) :
  Forall P buf -> load buf i = Some v -> P v.
Proof.
  intros HP Hl. pose proof (load_Some _ _ _ Hl).
  rewrite load_lookup in Hl by lia.
  eapply Forall_lookup_1; eassumption.
Qed.

(** C2, amended.  [setCrust(x, y, z, t)] on the cell of index [i] (in
    the reframed plate [p1] when the cell was outside), which held crust
    [m] of age [a]: with [z > 0] the new timestamp is, when the cell had
    crust, the quotient [(m * a + z * t) / (m + z)] computed in single
    precision, each operation rounded, and cut to its integer part as an
    [uint32_t], and [t] when the cell had none; with [z <= 0] the
    timestamp is unchanged; the crust of the cell becomes [max(z, 0)]
    and the mass counter receives [-m] and then [max(z, 0)]. *)
Theorem setCrust_cell p x y z t p' :
  U32.in_range t ->
  Forall U32.in_range (age_map p) ->
  setCrust p x y z t = Some p' ->
  exists p1 i m a,
    locate p x y (fmax z F32.zero) = Some (p1, i)
    /\ load (map p1) i = Some m
    /\ load (age_map p1) i = Some a
    /\ (F32.gtb z F32.zero = true -> F32.gtb m F32.zero = true ->
        load (age_map p') i
        = Some (F32.to_u32
                  (F32.div (F32.add (F32.mul m (F32.of_Z a))
                                    (F32.mul z (F32.of_Z t)))
                           (F32.add m z))))
    /\ (F32.gtb z F32.zero = true -> F32.gtb m F32.zero = false ->
        load (age_map p') i = Some t)
    /\ (F32.leb z F32.zero = true -> load (age_map p') i = Some a)
    /\ load (map p') i = Some (fmax z F32.zero)
    /\ _mass p'
       = incMass (incMass (_mass p1) (F32.mul (F32.of_Z (-1)) m))
                 (fmax z F32.zero).
Proof.
  intros Ht Hages Hset. unfold setCrust in Hset.
  rewrite clamp_is_fmax in Hset.
  bind_inv Hset as [p1 i] eqn:Hloc.
  apply update_Some in Hset
    as (m & a & Hm & Ha & Hsa & Hsm & Hmass & _).
  exists p1, i, m, a.
  assert (Hain : U32.in_range a).
  { eapply load_Forall; [|exact Ha].
    eapply locate_ages_in_range; eassumption. }
  apply load_store_eq in Hsa, Hsm.
  rewrite new_age_cases in Hsa by assumption.
  repeat split; try assumption.
  - intros Hz Hmpos. rewrite <- clamp_is_fmax, (clamp_positive _ Hz) in Hsa.
    rewrite Hz, Hmpos in Hsa. exact Hsa.
  - intros Hz Hmzero. rewrite <- clamp_is_fmax, (clamp_positive _ Hz) in Hsa.
    rewrite Hz, Hmzero in Hsa. exact Hsa.
  - intros Hz. rewrite <- clamp_is_fmax, (clamp_not_positive _ Hz) in Hsa.
    exact Hsa.
Qed.

End SetCrust.

(** Crust [3.0] of age 9 put on the land of scenario S1, of height
    [1.0] and age 5: the age becomes [(1 * 5 + 3 * 9) / 4 = 8].  Scenario
    S2 again: the cell (6, 3) is outside the plate, has no crust after
    the reframe, and receives [2.0] of age 9. *)
Lemma setCrust_cell_witness :
  (exists p',
     setCrust Examples.plate_S1 3 3 (F32.of_Z 3) 9 = Some p'
     /\ load (age_map Examples.plate_S1) 4 = Some 5
     /\ load (age_map p') 4 = Some 8
     /\ load (map p') 4 = Some (F32.of_Z 3))
  /\ (exists p' i,
        setCrust Examples.plate_S1 6 3 (F32.of_Z 2) 9 = Some p'
        /\ load (age_map p') i = Some 9
        /\ load (map p') i = Some (F32.of_Z 2)).
Proof.
  split.
  - edestruct (setCrust_cell Examples.plate_S1 3 3 (F32.of_Z 3) 9)
      as (p1 & i & m & a & Hloc & Hm & Ha & Hmean & _ & _ & Hmap & _);
      [ unfold U32.in_range, U32.modulus; lia
      | repeat constructor; unfold U32.in_range, U32.modulus; lia
      | vm_compute; reflexivity |].
    eexists. split; [vm_compute; reflexivity|]. split; [vm_compute; reflexivity|].
    revert Hm Ha Hmean Hmap. vm_compute in Hloc. injection Hloc as <- <-.
    intros Hm Ha Hmean Hmap. split; [|exact Hmap].
    vm_compute in Hm. injection Hm as <-. vm_compute in Ha. injection Ha as <-.
    rewrite Hmean by (vm_compute; reflexivity). vm_compute. reflexivity.
  - edestruct (setCrust_cell Examples.plate_S1 6 3 (F32.of_Z 2) 9)
      as (p1 & i & m & a & Hloc & Hm & Ha & _ & Hnew & _ & Hmap & _);
      [ unfold U32.in_range, U32.modulus; lia
      | repeat constructor; unfold U32.in_range, U32.modulus; lia
      | vm_compute; reflexivity |].
    eexists _, i. split; [reflexivity|].
    revert Hm Hnew Hmap. vm_compute in Hloc. injection Hloc as <- <-.
    intros Hm Hnew Hmap. split; [|exact Hmap].
    apply Hnew; [reflexivity|]. vm_compute in Hm. injection Hm as <-. reflexivity.
Defined.

(** C2 as stated fails: crust [1.0] of age 3 put on a cell that holds
    crust [0.2f] of age 3 leaves age 2 there, while the mass-weighted
    average of 3 and 3 is 3: [0.2f * 3 + 3] rounds to [3.5999999], the
    quotient by [1.2] to [2.9999998], and the conversion cuts it to 2. *)
Lemma setCrust_age_is_not_the_average :
  exists p' age,
    setCrust Examples.plate_thin 3 3 F32.one 3 = Some p'
    /\ load (map Examples.plate_thin) 4 = Some Examples.fifth
    /\ F32.gtb Examples.fifth F32.zero = true
    /\ F32.gtb F32.one F32.zero = true
    /\ load (age_map Examples.plate_thin) 4 = Some 3
    /\ load (age_map p') 4 = Some age
    /\ getCrustTimestamp p' 3 3 = Some age
    /\ (mass_weighted_average Examples.fifth 3 F32.one 3 == 3)%Q
    /\ ~ (inject_Z age == mass_weighted_average Examples.fifth 3 F32.one 3)%Q
    /\ ~ (Z.min 3 3 <= age <= Z.max 3 3).
Proof.
  eexists _, 2. split; [vm_compute; reflexivity|].
  do 7 (split; [vm_compute; reflexivity|]).
  split; [|lia]. intros H. vm_compute in H. discriminate H.
Qed.

(** ** [addCrustBySubduction] *)

Section Subduction.

Context {RandSource Movement : Type}.
Context `{!RandomSource RandSource} `{!Motion Movement RandSource}.
Implicit Types (p : plate RandSource Movement).


(** The call unfolded along its two tests. *)
Lemma addCrustBySubduction_unfold p x y z t dx dy fx fy :
  subduction_target p x y dx dy = Some (fx, fy) ->
  addCrustBySubduction p x y z t dx dy =
    let p0 := with_randsource p (displacement p dx dy).2 in
    if isInLimits (_bounds p) fx fy then
      m ← load (map p) (deposit_cell p fx fy);
      if F32.gtb m F32.zero then
        a ← load (age_map p) (deposit_cell p fx fy);
        ages ← store (age_map p) (deposit_cell p fx fy)
                     (U32.mul (subduction_age m a z t)
                              (Z.b2z (F32.gtb z F32.zero)));
        heights ← store (map p) (deposit_cell p fx fy) (F32.add m z);
        Some (mkPlate (_randsource p0) (incMass (_mass p) z) (_bounds p)
                      heights ages (_worldDimension p) (_movement p)
                      (_segments p))
      else Some p0
    else Some p0.
Proof.
  intros Htarget. unfold addCrustBySubduction. rewrite Htarget.
  cbn [mbind option_bind]. destruct (displacement p dx dy) as [[dx' dy'] rs].
  reflexivity.
Qed.

(** C8.  When the displaced target is outside the plate, or on a cell
    whose height is not above 0, the call returns without an error and
    leaves the crust, the ages and the mass counter as they were. *)
Theorem subduction_dropped p x y z t dx dy fx fy :
  subduction_target p x y dx dy = Some (fx, fy) ->
  isInLimits (_bounds p) fx fy = false
  \/ (exists m, load (map p) (deposit_cell p fx fy) = Some m
                /\ F32.gtb m F32.zero = false) ->
  exists p', addCrustBySubduction p x y z t dx dy = Some p'
             /\ map p' = map p /\ age_map p' = age_map p
             /\ _mass p' = _mass p.
Proof.
  intros Htarget Hdrop.
  rewrite (addCrustBySubduction_unfold _ _ _ _ _ _ _ _ _ Htarget). cbv zeta.
  destruct Hdrop as [Hout | (m & Hm & Hocean)].
  - rewrite Hout. eexists. split; [reflexivity|]. cbn. auto.
  - destruct (isInLimits _ fx fy).
    + rewrite Hm. cbn [mbind option_bind]. rewrite Hocean.
      eexists. split; [reflexivity|]. cbn. auto.
    + eexists. split; [reflexivity|]. cbn. auto.
Qed.

(** What a deposit on a cell with crust does. *)
Lemma subduction_deposit p x y z t dx dy fx fy m p' :
  subduction_target p x y dx dy = Some (fx, fy) ->
  isInLimits (_bounds p) fx fy = true ->
  load (map p) (deposit_cell p fx fy) = Some m ->
  F32.gtb m F32.zero = true ->
  addCrustBySubduction p x y z t dx dy = Some p' ->
  exists a,
    load (age_map p) (deposit_cell p fx fy) = Some a
    /\ store (age_map p) (deposit_cell p fx fy)
             (U32.mul (subduction_age m a z t) (Z.b2z (F32.gtb z F32.zero)))
       = Some (age_map p')
    /\ store (map p) (deposit_cell p fx fy) (F32.add m z) = Some (map p')
    /\ _mass p' = incMass (_mass p) z.
Proof.
  intros Htarget Hin Hm Hland Hcall.
  rewrite (addCrustBySubduction_unfold _ _ _ _ _ _ _ _ _ Htarget) in Hcall.
  cbv zeta in Hcall. rewrite Hin, Hm in Hcall.
  cbn [mbind option_bind] in Hcall. rewrite Hland in Hcall.
  bind_inv Hcall as a eqn:Ha. bind_inv Hcall as ages eqn:Hages.
  bind_inv Hcall as heights eqn:Hheights.
  injection Hcall as <-. exists a. cbn. auto.
Qed.

Lemma mul_one_r (t : Z) : U32.mul (U32.wrap t) 1 = U32.wrap t.
Proof.
  unfold U32.mul. rewrite Z.mul_1_r. apply wrap_small, wrap_in_range.
Qed.

(** C9, amended.  A deposit of [z > 0] on a cell with crust [m] and age
    [a] leaves there the single-precision mean
    [(m * a + z * t) / (m + z)] cut to its integer part. *)
Theorem subduction_age_is_truncated_mean p x y z t dx dy fx fy m a p' :
  subduction_target p x y dx dy = Some (fx, fy) ->
  isInLimits (_bounds p) fx fy = true ->
  load (map p) (deposit_cell p fx fy) = Some m ->
  load (age_map p) (deposit_cell p fx fy) = Some a ->
  F32.gtb m F32.zero = true ->
  F32.gtb z F32.zero = true ->
  addCrustBySubduction p x y z t dx dy = Some p' ->
  load (age_map p') (deposit_cell p fx fy)
  = Some (F32.to_u32
            (F32.div (F32.add (F32.mul m (F32.of_Z a)) (F32.mul z (F32.of_Z t)))
                     (F32.add m z))).
Proof.
  intros Htarget Hin Hm Ha Hland Hz Hcall.
  destruct (subduction_deposit _ _ _ _ _ _ _ _ _ _ _ Htarget Hin Hm Hland Hcall)
    as (a' & Ha' & Hages & _).
  rewrite Ha in Ha'. injection Ha' as <-.
  apply load_store_eq in Hages. rewrite Hages, Hz. cbn [Z.b2z].
  unfold subduction_age, F32.to_u32. now rewrite mul_one_r.
Qed.

Lemma add_zero_r (m z : float) :
  F32.gtb m F32.zero = true -> F32.eqb z F32.zero = true -> F32.add m z = m.
Proof.
  destruct m as [s|s| |s m e], z as [s'|s'| |s' m' e'];
    try destruct s; try destruct s'; cbv; congruence.
Qed.

Lemma add_zero_same_number (x z : float) :
  F32.eqb z F32.zero = true -> same_number (F32.add x z) x.
Proof.
  unfold same_number.
  destruct x as [s|s| |s m e], z as [s'|s'| |s' m' e'];
    try destruct s; try destruct s'; cbv; intuition congruence.
Qed.

Lemma eqb_zero_not_gtb (z : float) :
  F32.eqb z F32.zero = true -> F32.gtb z F32.zero = false.
Proof. destruct z as [s|s| |s m e]; try destruct s; cbv; congruence. Qed.

(** C10.  A deposit of [z == 0] on a cell with crust leaves the crust of
    every cell and the mass counter as they were and sets the age of the
    cell to 0. *)
Theorem subduction_of_nothing_resets_age p x y z t dx dy fx fy m p' :
  subduction_target p x y dx dy = Some (fx, fy) ->
  isInLimits (_bounds p) fx fy = true ->
  load (map p) (deposit_cell p fx fy) = Some m ->
  F32.gtb m F32.zero = true ->
  F32.eqb z F32.zero = true ->
  addCrustBySubduction p x y z t dx dy = Some p' ->
  load (age_map p') (deposit_cell p fx fy) = Some 0
  /\ map p' = map p
  /\ same_number (getMass (_mass p')) (getMass (_mass p)).
Proof.
  intros Htarget Hin Hm Hland Hz Hcall.
  destruct (subduction_deposit _ _ _ _ _ _ _ _ _ _ _ Htarget Hin Hm Hland Hcall)
    as (a & Ha & Hages & Hheights & Hmass).
  rewrite (eqb_zero_not_gtb _ Hz) in Hages. cbn [Z.b2z] in Hages.
  unfold U32.mul in Hages. rewrite Z.mul_0_r in Hages.
  apply load_store_eq in Hages.
  rewrite (add_zero_r _ _ Hland Hz), (store_same _ _ _ Hm) in Hheights.
  injection Hheights as <-.
  split; [exact Hages | split; [reflexivity|]].
  rewrite Hmass. cbn. now apply add_zero_same_number.
Qed.


End Subduction.

(** The position a plate at rest sends crust from [(x, y)] to, handed to
    the tactic [k]. *)
Ltac at_subduction_target p x y k :=
  match eval vm_compute in (subduction_target p x y F32.zero F32.zero) with
  | Some (?fx, ?fy) => k fx fy
  end.

(** Scenario S3: the crust sent from (3, 4) on the plate of scenario S1
    lands on the empty cell below the land and is dropped. *)
Lemma subduction_dropped_witness :
  exists p',
    addCrustBySubduction Examples.plate_S1 3 4 (F32.of_Z 5) 9 F32.zero F32.zero
    = Some p'
    /\ map p' = map Examples.plate_S1
    /\ age_map p' = age_map Examples.plate_S1
    /\ _mass p' = _mass Examples.plate_S1.
Proof.
  eapply (subduction_dropped Examples.plate_S1 3 4 (F32.of_Z 5) 9 F32.zero F32.zero).
  - vm_compute. reflexivity.
  - right. eexists. split; vm_compute; reflexivity.
Defined.

(** Crust of age 9 sent onto the land of scenario S1, of age 5 and of the
    same height: the age becomes 7. *)
Lemma subduction_age_is_truncated_mean_witness :
  exists p',
    addCrustBySubduction Examples.plate_S1 3 3 F32.one 9 F32.zero F32.zero = Some p'
    /\ load (age_map p') 4 = Some 7.
Proof.
  eexists. split; [vm_compute; reflexivity|].
  etransitivity.
  - at_subduction_target Examples.plate_S1 3 3 ltac:(fun fx fy =>
      eapply (subduction_age_is_truncated_mean
                Examples.plate_S1 3 3 F32.one 9 F32.zero F32.zero fx fy));
      vm_compute; reflexivity.
  - vm_compute. reflexivity.
Defined.

(** C9 as stated fails: crust of height [1.0] and age 3 sent onto a cell
    of height [0.2f] and age 3 leaves age 2 there, below both ages. *)
Lemma subduction_age_below_both :
  exists p' age,
    addCrustBySubduction Examples.plate_thin 3 3 F32.one 3 F32.zero F32.zero
    = Some p'
    /\ load (map Examples.plate_thin) 4 = Some Examples.fifth
    /\ F32.gtb Examples.fifth F32.zero = true
    /\ load (age_map Examples.plate_thin) 4 = Some 3
    /\ load (age_map p') 4 = Some age
    /\ ~ (Z.min 3 3 <= age <= Z.max 3 3).
Proof.
  eexists _, 2. split; [vm_compute; reflexivity|].
  repeat split; try (vm_compute; reflexivity). lia.
Qed.

(** Nothing sent onto the land of scenario S1: its age, 5, becomes 0. *)
Lemma subduction_of_nothing_resets_age_witness :
  exists p',
    addCrustBySubduction Examples.plate_S1 3 3 F32.zero 9 F32.zero F32.zero = Some p'
    /\ load (age_map Examples.plate_S1) 4 = Some 5
    /\ load (age_map p') 4 = Some 0
    /\ map p' = map Examples.plate_S1
    /\ same_number (getMass (_mass p')) (getMass (_mass Examples.plate_S1)).
Proof.
  eexists. split; [vm_compute; reflexivity|]. split; [reflexivity|].
  at_subduction_target Examples.plate_S1 3 3 ltac:(fun fx fy =>
    eapply (subduction_of_nothing_resets_age
              Examples.plate_S1 3 3 F32.zero 9 F32.zero F32.zero fx fy));
    vm_compute; reflexivity.
Defined.


(** ** Rounding of single-precision sums

    The sum or difference of two finite values is computed exactly on
    aligned mantissas and rounded to nearest by [binary_round].  Rounding
    is monotone with respect to the values of the format: what is at
    most (at least) a value of the format stays so.  Hence taking
    positive amounts from a mass counter never increases it. *)

Lemma pow2_succ (k : Z) : 0 <= k -> 2 ^ (k + 1) = 2 * 2 ^ k.
Proof. intros. rewrite Z.pow_add_r by lia. lia. Qed.

Lemma pow2_pos (k : Z) : 0 <= k -> 0 < 2 ^ k.
Proof. intros. apply Z.pow_pos_nonneg; lia. Qed.

Lemma digits2_pos_bounds (p : positive) :
  2 ^ (Zpos (digits2_pos p) - 1) <= Zpos p < 2 ^ Zpos (digits2_pos p).
Proof.
  induction p as [p IH|p IH|]; cbn [digits2_pos]; [| |cbn; lia];
    rewrite Pos2Z.inj_succ;
    set (d := Zpos (digits2_pos p)) in *;
    assert (Hd : 1 <= d) by (subst d; lia);
    assert (E1 : 2 ^ d = 2 * 2 ^ (d - 1))
      by (replace d with (d - 1 + 1) at 1 by lia; apply pow2_succ; lia);
    assert (E2 : 2 ^ Z.succ d = 2 * 2 ^ d) by (apply pow2_succ; lia);
    replace (Z.succ d - 1) with d by lia; clearbody d; lia.
Qed.

(** An invariant of [iter_pos]. *)
Lemma iter_pos_invariant {A : Type} (f : A -> A) (P : Z -> A -> Prop) :
  (forall k x, 0 <= k -> P k x -> P (k + 1) (f x)) ->
  forall n k x, 0 <= k -> P k x -> P (k + Zpos n) (SpecFloat.iter_pos f n x).
Proof.
  intros Hstep. induction n as [n IH|n IH|]; intros k x Hk HP; cbn [SpecFloat.iter_pos].
  - replace (k + Zpos n~1) with (k + 1 + Zpos n + Zpos n) by lia.
    apply IH; [lia|]. apply IH; [lia|]. now apply Hstep.
  - replace (k + Zpos n~0) with (k + Zpos n + Zpos n) by lia.
    apply IH; [lia|]. now apply IH.
  - now apply Hstep.
Qed.

Lemma shr_1_inv (m0 k : Z) (mrs : shr_record) :
  0 <= m0 -> 0 <= k -> shr_inv m0 k mrs -> shr_inv m0 (k + 1) (shr_1 mrs).
Proof.
  intros Hm0 Hk [Hq Hz]. destruct mrs as [q r s]. cbn [shr_m shr_r shr_s] in *.
  assert (Hp : 0 < 2 ^ k) by (apply pow2_pos; lia).
  assert (Hq0 : 0 <= q) by (subst q; apply Z.div_pos; lia).
  assert (Hdiv : m0 / 2 ^ (k + 1) = q / 2).
  { rewrite pow2_succ by lia. rewrite Z.mul_comm, <- Z.div_div by lia. now subst q. }
  assert (Hmod : m0 mod 2 ^ (k + 1) = 0 -> m0 mod 2 ^ k = 0 /\ q mod 2 = 0).
  { intros H0. rewrite pow2_succ in H0 by lia.
    apply Z.mod_divide in H0 as [c Hc]; [|lia].
    assert (Hm : m0 = c * 2 * 2 ^ k) by lia.
    split.
    - rewrite Hm. apply Z.mod_mul. lia.
    - rewrite Hq, Hm, Z.div_mul by lia. apply Z.mod_mul. lia. }
  unfold shr_inv. rewrite Hdiv.
  destruct q as [|[p|p|]|p]; cbn [shr_1 shr_m shr_r shr_s]; try lia.
  - split; [reflexivity|]. intros H0. apply Hmod in H0 as [H0 _].
    apply Hz in H0 as [-> ->]. auto.
  - split; [apply Z.div_unique with 1; lia|].
    intros H0. apply Hmod in H0 as [_ H0].
    replace (Zpos p~1) with (1 + Zpos p * 2) in H0 by lia.
    rewrite Z.mod_add in H0 by lia. discriminate.
  - split; [apply Z.div_unique with 0; lia|].
    intros H0. apply Hmod in H0 as [H0 _]. apply Hz in H0 as [-> ->]. auto.
  - split; [reflexivity|]. intros H0. apply Hmod in H0 as [_ H0]. discriminate.
Qed.

Lemma shr_iter (m0 : Z) (n : positive) :
  0 <= m0 ->
  shr_inv m0 (Zpos n) (SpecFloat.iter_pos shr_1 n (Build_shr_record m0 false false)).
Proof.
  intros Hm0.
  apply (iter_pos_invariant shr_1 (shr_inv m0) (fun k x Hk => shr_1_inv m0 k x Hm0 Hk) n 0).
  - lia.
  - split; cbn; [now rewrite Z.div_1_r | auto].
Qed.

Lemma pow2_add (a b : Z) : 0 <= a -> 0 <= b -> 2 ^ (a + b) = 2 ^ a * 2 ^ b.
Proof. intros. apply Z.pow_add_r; lia. Qed.

Lemma pow2_le (a b : Z) : 0 <= a <= b -> 2 ^ a <= 2 ^ b.
Proof. intros. apply Z.pow_le_mono_r; lia. Qed.

Lemma pow2_lt_inv (a b : Z) : 0 <= a -> 0 <= b -> 2 ^ a < 2 ^ b -> a < b.
Proof. intros Ha Hb H. apply (Z.pow_lt_mono_r_iff 2); lia. Qed.

Lemma mag_lt_pow (m : positive) (e : Z) :
  F32.emin <= e -> mag (Zpos m) e < 2 ^ (Zpos (digits2_pos m) + e - F32.emin).
Proof.
  intros He. unfold mag. pose proof (digits2_pos_bounds m) as [_ Hm].
  replace (Zpos (digits2_pos m) + e - F32.emin) with (Zpos (digits2_pos m) + (e - F32.emin)) by lia.
  rewrite pow2_add by lia.
  apply Z.mul_lt_mono_pos_r; [apply pow2_pos; lia | exact Hm].
Qed.

Lemma mag_ge_pow (m : positive) (e : Z) :
  F32.emin <= e -> 2 ^ (Zpos (digits2_pos m) - 1 + e - F32.emin) <= mag (Zpos m) e.
Proof.
  intros He. unfold mag. pose proof (digits2_pos_bounds m) as [Hm _].
  replace (Zpos (digits2_pos m) - 1 + e - F32.emin) with (Zpos (digits2_pos m) - 1 + (e - F32.emin)) by lia.
  rewrite pow2_add by lia.
  apply Z.mul_le_mono_nonneg_r; [apply Z.lt_le_incl, pow2_pos; lia | exact Hm].
Qed.

(** The order of two magnitudes is the order of their binades. *)
Lemma mag_le_digits (m1 mb : positive) (e1 eb : Z) :
  F32.emin <= e1 -> F32.emin <= eb -> mag (Zpos m1) e1 <= mag (Zpos mb) eb ->
  Zpos (digits2_pos m1) + e1 <= Zpos (digits2_pos mb) + eb.
Proof.
  intros H1 Hb Hle.
  pose proof (mag_ge_pow m1 e1 H1). pose proof (mag_lt_pow mb eb Hb).
  assert (Hlt : 2 ^ (Zpos (digits2_pos m1) - 1 + e1 - F32.emin) < 2 ^ (Zpos (digits2_pos mb) + eb - F32.emin)) by lia.
  apply pow2_lt_inv in Hlt; lia.
Qed.

Lemma fexp32_mono (a b : Z) : a <= b -> F32.fexp a <= F32.fexp b.
Proof. unfold F32.fexp. lia. Qed.

(** Rounding a magnitude that is at most a canonical bound, on the grid
    of its own exponent, leaves it at most the bound. *)
Lemma ceil_stage (m1 mb : positive) (e1 eb M : Z) :
  F32.emin <= e1 -> canonical mb eb ->
  mag (Zpos m1) e1 <= mag (Zpos mb) eb ->
  let k := Z.max (F32.fexp (Zpos (digits2_pos m1) + e1) - e1) 0 in
  0 <= M -> M * 2 ^ k < Zpos m1 + 2 ^ k ->
  mag M (e1 + k) <= mag (Zpos mb) eb.
Proof.
  intros He1 Hcan Hle k HM Hceil.
  assert (Heb : F32.emin <= eb) by (unfold canonical, F32.fexp in Hcan; lia).
  destruct (Z.max_spec (F32.fexp (Zpos (digits2_pos m1) + e1) - e1) 0) as [[Hk Hk0]|[Hk Hk0]];
    fold k in Hk0.
  - (* no shift *)
    rewrite Hk0 in *. cbn in Hceil. rewrite Z.add_0_r.
    etransitivity; [|exact Hle]. unfold mag.
    apply Z.mul_le_mono_nonneg_r; [apply Z.lt_le_incl, pow2_pos; lia | lia].
  - (* shift by k > 0, to the grid of E *)
    set (E := F32.fexp (Zpos (digits2_pos m1) + e1)) in *.
    assert (HkE : e1 + k = E) by lia.
    assert (HEb : E <= eb).
    { unfold canonical in Hcan. rewrite <- Hcan. apply fexp32_mono.
      now apply mag_le_digits. }
    assert (HEmin : F32.emin <= E) by (unfold E, F32.fexp; lia).
    rewrite HkE. unfold mag in *.
    set (Nb := Zpos mb * 2 ^ (eb - E)).
    assert (HB : Zpos mb * 2 ^ (eb - F32.emin) = Nb * 2 ^ (E - F32.emin)).
    { unfold Nb. rewrite <- Z.mul_assoc, <- pow2_add by lia.
      f_equal. f_equal. lia. }
    assert (HG : 2 ^ (E - F32.emin) = 2 ^ k * 2 ^ (e1 - F32.emin)).
    { rewrite <- pow2_add by lia. f_equal. lia. }
    rewrite HB. apply Z.mul_le_mono_nonneg_r; [apply Z.lt_le_incl, pow2_pos; lia|].
    assert (Hm1 : Zpos m1 <= Nb * 2 ^ k).
    { rewrite HB, HG in Hle.
      assert (0 < 2 ^ (e1 - F32.emin)) by (apply pow2_pos; lia).
      nia. }
    assert (0 < 2 ^ k) by (apply pow2_pos; lia).
    nia.
Qed.

(** Cutting a magnitude that is at least a canonical bound, on the grid
    of its own exponent, leaves it at least the bound. *)
Lemma floor_stage (m1 mb : positive) (e1 eb : Z) :
  F32.emin <= e1 -> canonical mb eb ->
  mag (Zpos mb) eb <= mag (Zpos m1) e1 ->
  let k := Z.max (F32.fexp (Zpos (digits2_pos m1) + e1) - e1) 0 in
  mag (Zpos mb) eb <= mag (Zpos m1 / 2 ^ k) (e1 + k).
Proof.
  intros He1 Hcan Hle k.
  assert (Heb : F32.emin <= eb) by (unfold canonical, F32.fexp in Hcan; lia).
  destruct (Z.max_spec (F32.fexp (Zpos (digits2_pos m1) + e1) - e1) 0) as [[Hk Hk0]|[Hk Hk0]];
    fold k in Hk0.
  - rewrite Hk0. cbn. rewrite Z.div_1_r, Z.add_0_r. exact Hle.
  - set (E := F32.fexp (Zpos (digits2_pos m1) + e1)) in *.
    assert (HkE : e1 + k = E) by lia.
    assert (HEmin : F32.emin <= E) by (unfold E, F32.fexp; lia).
    assert (H2k : 0 < 2 ^ k) by (apply pow2_pos; lia).
    assert (HG : 2 ^ (E - F32.emin) = 2 ^ k * 2 ^ (e1 - F32.emin)).
    { rewrite <- pow2_add by lia. f_equal. lia. }
    assert (Hg1 : 0 < 2 ^ (e1 - F32.emin)) by (apply pow2_pos; lia).
    rewrite HkE. unfold mag in *.
    destruct (Z.le_gt_cases E eb) as [HEb|HEb].
    + set (Nb := Zpos mb * 2 ^ (eb - E)).
      assert (HB : Zpos mb * 2 ^ (eb - F32.emin) = Nb * 2 ^ (E - F32.emin)).
      { unfold Nb. rewrite <- Z.mul_assoc, <- pow2_add by lia. f_equal. f_equal. lia. }
      rewrite HB. apply Z.mul_le_mono_nonneg_r; [apply Z.lt_le_incl, pow2_pos; lia|].
      apply Z.div_le_lower_bound; [lia|].
      rewrite HB, HG in Hle. nia.
    + (* the bound is below the binade of m1 *)
      assert (HEd : E = Zpos (digits2_pos m1) + e1 - 24) by (unfold E, F32.fexp in *; lia).
      assert (Hd : Zpos (digits2_pos mb) + eb < Zpos (digits2_pos m1) + e1).
      { unfold canonical in Hcan. unfold E in HEb. unfold F32.fexp in *. lia. }
      pose proof (mag_lt_pow mb eb Heb) as HBlt. unfold mag in HBlt.
      pose proof (digits2_pos_bounds m1) as [Hm1 _].
      assert (Hkd : k = Zpos (digits2_pos m1) - 24) by lia.
      assert (Hq : 2 ^ 23 <= Zpos m1 / 2 ^ k).
      { apply Z.div_le_lower_bound; [lia|].
        rewrite Z.mul_comm, <- pow2_add by lia.
        replace (23 + k) with (Zpos (digits2_pos m1) - 1) by lia. exact Hm1. }
      assert (Hpow : 2 ^ (Zpos (digits2_pos mb) + eb - F32.emin) <= 2 ^ 23 * 2 ^ (E - F32.emin)).
      { rewrite <- pow2_add by lia. apply pow2_le. lia. }
      assert (0 < 2 ^ (E - F32.emin)) by (apply pow2_pos; lia).
      nia.
Qed.

Abbreviation fexpF := (fexp F32.prec F32.emax).

Lemma fexpF_eq (e : Z) : fexpF e = F32.fexp e.
Proof. reflexivity. Qed.

(** The digits of a number between two consecutive powers of two. *)
Lemma digits2_pos_unique (p : positive) (d : Z) :
  2 ^ (d - 1) <= Zpos p < 2 ^ d -> 1 <= d -> Zpos (digits2_pos p) = d.
Proof.
  intros [Hlo Hhi] Hd. pose proof (digits2_pos_bounds p) as [Hlo' Hhi'].
  assert (H1 : 2 ^ (d - 1) < 2 ^ Zpos (digits2_pos p)) by lia.
  assert (H2 : 2 ^ (Zpos (digits2_pos p) - 1) < 2 ^ d) by lia.
  apply pow2_lt_inv in H1; [|lia|lia]. apply pow2_lt_inv in H2; lia.
Qed.

Lemma digits2_pos_shift (p q : positive) (j : Z) :
  0 <= j -> Zpos q = Zpos p * 2 ^ j ->
  Zpos (digits2_pos q) = Zpos (digits2_pos p) + j.
Proof.
  intros Hj Hq. pose proof (digits2_pos_bounds p) as [Hlo Hhi].
  apply digits2_pos_unique; [|lia]. rewrite Hq.
  replace (Zpos (digits2_pos p) + j - 1) with (Zpos (digits2_pos p) - 1 + j) by lia.
  rewrite !pow2_add by lia.
  assert (0 < 2 ^ j) by (apply pow2_pos; lia). nia.
Qed.

(** [shr_fexp] on an exact mantissa that is not negative. *)
Lemma shr_fexp_exact (m e : Z) :
  0 <= m ->
  let k := Z.max (fexpF (Zdigits2 m + e) - e) 0 in
  exists mrs, shr_fexp F32.prec F32.emax m e loc_Exact = (mrs, e + k) /\ shr_inv m k mrs.
Proof.
  intros Hm k. unfold shr_fexp, shr. cbn [shr_record_of_loc].
  subst k. destruct (fexpF (Zdigits2 m + e) - e) as [|p|p] eqn:Hn.
  - eexists. split; [rewrite Z.add_0_r; reflexivity|]. split; cbn; [now rewrite Z.div_1_r | auto].
  - eexists. split; [reflexivity|]. rewrite Z.max_l by lia. now apply shr_iter.
  - eexists. split; [rewrite Z.max_r by lia; rewrite Z.add_0_r; reflexivity|].
    rewrite Z.max_r by lia. split; cbn; [now rewrite Z.div_1_r | auto].
Qed.

(** Rounding to nearest lies between the floor and the ceiling. *)
Lemma round_nearest_even_bounds (m k : Z) (mrs : shr_record) :
  0 <= m -> 0 <= k -> shr_inv m k mrs ->
  let M := round_nearest_even (shr_m mrs) (loc_of_shr_record mrs) in
  m / 2 ^ k <= M /\ M * 2 ^ k < m + 2 ^ k.
Proof.
  intros Hm Hk [Hq Hz] M. destruct mrs as [q r s]. cbn [shr_m shr_r shr_s] in *.
  assert (Hp : 0 < 2 ^ k) by (apply pow2_pos; lia).
  pose proof (Z.div_mod m (2 ^ k) ltac:(lia)) as Hdm.
  pose proof (Z.mod_pos_bound m (2 ^ k) Hp) as Hmod.
  rewrite <- Hq in *.
  assert (Hrem : r = true \/ s = true -> 0 < m mod 2 ^ k).
  { intros Hrs. destruct (Z.eq_dec (m mod 2 ^ k) 0) as [H0|H0]; [|lia].
    apply Hz in H0 as [-> ->]. destruct Hrs; discriminate. }
  subst M. destruct r, s; cbn [loc_of_shr_record round_nearest_even].
  - specialize (Hrem (or_introl eq_refl)). nia.
  - specialize (Hrem (or_introl eq_refl)). destruct (Z.even q); nia.
  - specialize (Hrem (or_intror eq_refl)). nia.
  - nia.
Qed.

Lemma binary_round_aux_exact (s : bool) (m1 : positive) (e1 : Z) :
  let k := Z.max (fexpF (Zpos (digits2_pos m1) + e1) - e1) 0 in
  exists M,
    Zpos m1 / 2 ^ k <= M /\ M * 2 ^ k < Zpos m1 + 2 ^ k
    /\ binary_round_aux F32.prec F32.emax s (Zpos m1) e1 loc_Exact
       = let k2 := Z.max (fexpF (Zdigits2 M + (e1 + k)) - (e1 + k)) 0 in
         finish s (M / 2 ^ k2) (e1 + k + k2).
Proof.
  intros k. unfold binary_round_aux.
  destruct (shr_fexp_exact (Zpos m1) e1 ltac:(lia)) as (mrs & Hshr & Hinv).
  cbn [Zdigits2] in Hshr. fold k in Hshr, Hinv. rewrite Hshr.
  assert (Hk : 0 <= k) by apply Z.le_max_r.
  pose proof (round_nearest_even_bounds (Zpos m1) k mrs ltac:(lia) Hk Hinv) as [Hlo Hhi].
  set (M := round_nearest_even (shr_m mrs) (loc_of_shr_record mrs)) in *.
  exists M. split; [exact Hlo | split; [exact Hhi|]].
  assert (HM : 0 <= M).
  { etransitivity; [|exact Hlo]. apply Z.div_pos; [lia | apply pow2_pos; lia]. }
  destruct (shr_fexp_exact M (e1 + k) HM) as (mrs2 & Hshr2 & [Hq2 _]).
  rewrite Hshr2. cbv zeta. rewrite Hq2. reflexivity.
Qed.

Lemma mag_div_le (M k e : Z) :
  0 <= M -> 0 <= k -> F32.emin <= e -> mag (M / 2 ^ k) (e + k) <= mag M e.
Proof.
  intros HM Hk He. unfold mag.
  replace (e + k - F32.emin) with (k + (e - F32.emin)) by lia.
  rewrite pow2_add by lia.
  assert (0 < 2 ^ k) by (apply pow2_pos; lia).
  assert (0 < 2 ^ (e - F32.emin)) by (apply pow2_pos; lia).
  pose proof (Z.mul_div_le M (2 ^ k) ltac:(lia)). nia.
Qed.

Lemma mag_pos (m : positive) (e : Z) : F32.emin <= e -> 0 < mag (Zpos m) e.
Proof. intros. unfold mag. apply Z.mul_pos_pos; [lia | apply pow2_pos; lia]. Qed.

Lemma mag_mono (M N e : Z) : F32.emin <= e -> M <= N -> mag M e <= mag N e.
Proof.
  intros He H. unfold mag. apply Z.mul_le_mono_nonneg_r; [|exact H].
  apply Z.lt_le_incl, pow2_pos. lia.
Qed.

Lemma round_aux_le (s : bool) (m1 mb : positive) (e1 eb : Z) :
  F32.emin <= e1 -> e1 <= F32.fexp (Zpos (digits2_pos m1) + e1) ->
  canonical mb eb -> eb <= 104 ->
  mag (Zpos m1) e1 <= mag (Zpos mb) eb ->
  let r := binary_round_aux F32.prec F32.emax s (Zpos m1) e1 loc_Exact in
  r = S754_zero s
  \/ exists m e, r = S754_finite s m e /\ F32.emin <= e
                 /\ mag (Zpos m) e <= mag (Zpos mb) eb.
Proof.
  intros He1 Hal Hcan Heb Hle r. subst r.
  destruct (binary_round_aux_exact s m1 e1) as (M & Hlo & Hhi & ->).
  cbv zeta. change (fexp F32.prec F32.emax) with F32.fexp in *.
  set (k := Z.max (F32.fexp (Zpos (digits2_pos m1) + e1) - e1) 0) in *.
  assert (Hk : 0 <= k) by apply Z.le_max_r.
  assert (HM : 0 <= M).
  { etransitivity; [|exact Hlo]. apply Z.div_pos; [lia | apply pow2_pos; lia]. }
  pose proof (ceil_stage m1 mb e1 eb M He1 Hcan Hle HM Hhi) as Hc. cbv zeta in Hc. fold k in Hc.
  assert (Hemin_b : F32.emin <= eb) by (unfold canonical, F32.fexp in Hcan; lia).
  assert (HE : e1 + k = F32.fexp (Zpos (digits2_pos m1) + e1)) by lia.
  assert (HEb : e1 + k <= eb).
  { rewrite HE. unfold canonical in Hcan. rewrite <- Hcan.
    apply fexp32_mono. now apply mag_le_digits. }
  destruct M as [|pM|pM]; [left; reflexivity | | lia].
  cbn [Zdigits2].
  set (k2 := Z.max (F32.fexp (Zpos (digits2_pos pM) + (e1 + k)) - (e1 + k)) 0).
  assert (Hk2 : 0 <= k2) by apply Z.le_max_r.
  assert (He2 : e1 + k + k2 <= eb).
  { assert (F32.fexp (Zpos (digits2_pos pM) + (e1 + k)) <= eb).
    { unfold canonical in Hcan. rewrite <- Hcan. apply fexp32_mono.
      apply mag_le_digits; [lia | lia | exact Hc]. }
    lia. }
  pose proof (mag_div_le (Zpos pM) k2 (e1 + k) ltac:(lia) Hk2 ltac:(lia)) as Hdiv.
  assert (Hq : 0 <= Zpos pM / 2 ^ k2) by (apply Z.div_pos; [lia | apply pow2_pos; lia]).
  destruct (Zpos pM / 2 ^ k2) as [|m2|m2] eqn:Hm2; [left; reflexivity | | lia].
  right. exists m2, (e1 + k + k2). cbn [finish].
  destruct (Z.leb_spec (e1 + k + k2) 104); [|lia].
  split; [reflexivity|]. split; [lia|]. lia.
Qed.

Lemma round_aux_ge (s : bool) (m1 mb : positive) (e1 eb : Z) :
  F32.emin <= e1 -> canonical mb eb ->
  mag (Zpos mb) eb <= mag (Zpos m1) e1 ->
  let r := binary_round_aux F32.prec F32.emax s (Zpos m1) e1 loc_Exact in
  r = S754_infinity s
  \/ exists m e, r = S754_finite s m e /\ F32.emin <= e
                 /\ mag (Zpos mb) eb <= mag (Zpos m) e.
Proof.
  intros He1 Hcan Hle r. subst r.
  destruct (binary_round_aux_exact s m1 e1) as (M & Hlo & Hhi & ->).
  cbv zeta. change (fexp F32.prec F32.emax) with F32.fexp in *.
  set (k := Z.max (F32.fexp (Zpos (digits2_pos m1) + e1) - e1) 0) in *.
  assert (Hk : 0 <= k) by apply Z.le_max_r.
  assert (Hemin_b : F32.emin <= eb) by (unfold canonical, F32.fexp in Hcan; lia).
  pose proof (floor_stage m1 mb e1 eb He1 Hcan Hle) as Hf. cbv zeta in Hf. fold k in Hf.
  pose proof (mag_pos mb eb Hemin_b) as HB.
  assert (HfM : mag (Zpos mb) eb <= mag M (e1 + k)).
  { etransitivity; [exact Hf|]. apply mag_mono; lia. }
  destruct M as [|pM|pM].
  - unfold mag in HfM at 2. lia.
  - cbn [Zdigits2].
    pose proof (floor_stage pM mb (e1 + k) eb ltac:(lia) Hcan HfM) as Hf2.
    cbv zeta in Hf2.
    set (k2 := Z.max (F32.fexp (Zpos (digits2_pos pM) + (e1 + k)) - (e1 + k)) 0) in *.
    assert (Hk2 : 0 <= k2) by apply Z.le_max_r.
    destruct (Zpos pM / 2 ^ k2) as [|m2|m2] eqn:Hm2.
    + unfold mag in Hf2 at 2. lia.
    + cbn [finish]. destruct (e1 + k + k2 <=? 104); [right | left; reflexivity].
      exists m2, (e1 + k + k2). split; [reflexivity|]. split; [lia | exact Hf2].
    + assert (0 <= Zpos pM / 2 ^ k2) by (apply Z.div_pos; [lia | apply pow2_pos; lia]).
      lia.
  - assert (0 < 2 ^ (e1 + k - F32.emin)) by (apply pow2_pos; lia).
    unfold mag in HfM at 2. nia.
Qed.

Lemma round_aux_shape (s : bool) (m1 : positive) (e1 : Z) :
  F32.emin <= e1 ->
  let r := binary_round_aux F32.prec F32.emax s (Zpos m1) e1 loc_Exact in
  r = S754_zero s \/ r = S754_infinity s
  \/ exists m e, r = S754_finite s m e /\ F32.emin <= e.
Proof.
  intros He1 r. subst r.
  destruct (binary_round_aux_exact s m1 e1) as (M & Hlo & Hhi & ->).
  cbv zeta.
  set (k := Z.max (fexpF (Zpos (digits2_pos m1) + e1) - e1) 0) in *.
  assert (Hk : 0 <= k) by apply Z.le_max_r.
  assert (HM : 0 <= M).
  { etransitivity; [|exact Hlo]. apply Z.div_pos; [lia | apply pow2_pos; lia]. }
  set (k2 := Z.max (fexpF (Zdigits2 M + (e1 + k)) - (e1 + k)) 0).
  assert (Hk2 : 0 <= k2) by apply Z.le_max_r.
  assert (Hq : 0 <= M / 2 ^ k2) by (apply Z.div_pos; [lia | apply pow2_pos; lia]).
  destruct (M / 2 ^ k2) as [|m2|m2]; [left; reflexivity | | lia].
  cbn [finish]. destruct (e1 + k + k2 <=? 104); [|right; left; reflexivity].
  right. right. exists m2, (e1 + k + k2). split; [reflexivity | lia].
Qed.

(** [shl_align] *)
Lemma iter_xO (m d : positive) : Zpos (Pos.iter xO m d) = Zpos m * 2 ^ Zpos d.
Proof.
  induction d as [|d IH] using Pos.peano_ind.
  - cbn. lia.
  - rewrite Pos.iter_succ, Pos2Z.inj_succ.
    replace (Z.succ (Zpos d)) with (Zpos d + 1) by lia.
    rewrite pow2_succ by lia.
    change (Zpos (Pos.iter xO m d)~0) with (2 * Zpos (Pos.iter xO m d)).
    rewrite IH. lia.
Qed.

Lemma shl_align_spec (m : positive) (e e' : Z) :
  (e' < e /\ snd (shl_align m e e') = e'
   /\ Zpos (fst (shl_align m e e')) = Zpos m * 2 ^ (e - e'))
  \/ (e <= e' /\ shl_align m e e' = (m, e)).
Proof.
  unfold shl_align. destruct (e' - e) as [|d|d] eqn:Hd.
  - right. split; [lia | reflexivity].
  - right. split; [lia | reflexivity].
  - left. cbn [fst snd]. split; [lia|]. split; [reflexivity|].
    rewrite iter_xO. f_equal. f_equal. lia.
Qed.

(** After the alignment of [binary_round] the mantissa is not coarser
    than its format asks for, and stands for the same magnitude. *)
Lemma binary_round_aligned (m : positive) (e : Z) :
  F32.emin <= e ->
  let mz := fst (shl_align m e (fexpF (Zpos (digits2_pos m) + e))) in
  let ez := snd (shl_align m e (fexpF (Zpos (digits2_pos m) + e))) in
  F32.emin <= ez /\ ez <= F32.fexp (Zpos (digits2_pos mz) + ez)
  /\ mag (Zpos mz) ez = mag (Zpos m) e.
Proof.
  intros He mz ez. subst mz ez. rewrite fexpF_eq.
  set (E := F32.fexp (Zpos (digits2_pos m) + e)).
  assert (HE : F32.emin <= E) by (unfold E, F32.fexp; lia).
  destruct (shl_align_spec m e E) as [(Hlt & -> & Hm)|(Hle & ->)]; cbn [fst snd].
  - pose proof (digits2_pos_shift m _ (e - E) ltac:(lia) Hm) as Hdig.
    split; [exact HE|]. split.
    + rewrite Hdig. replace (Zpos (digits2_pos m) + (e - E) + E)
        with (Zpos (digits2_pos m) + e) by lia. fold E. lia.
    + unfold mag. rewrite Hm, <- Z.mul_assoc, <- pow2_add by lia.
      f_equal. f_equal. lia.
  - split; [exact He|]. split; [exact Hle | reflexivity].
Qed.

Lemma binary_round_unfold (s : bool) (m : positive) (e : Z) :
  binary_round F32.prec F32.emax s m e
  = binary_round_aux F32.prec F32.emax s
      (Zpos (fst (shl_align m e (fexpF (Zpos (digits2_pos m) + e)))))
      (snd (shl_align m e (fexpF (Zpos (digits2_pos m) + e)))) loc_Exact.
Proof.
  unfold binary_round. destruct (shl_align _ _ _). reflexivity.
Qed.

Lemma binary_round_le (s : bool) (m mb : positive) (e eb : Z) :
  F32.emin <= e -> canonical mb eb -> eb <= 104 ->
  mag (Zpos m) e <= mag (Zpos mb) eb ->
  let r := binary_round F32.prec F32.emax s m e in
  r = S754_zero s
  \/ exists m' e', r = S754_finite s m' e' /\ F32.emin <= e'
                   /\ mag (Zpos m') e' <= mag (Zpos mb) eb.
Proof.
  intros He Hcan Heb Hle r. subst r. rewrite binary_round_unfold.
  destruct (binary_round_aligned m e He) as (Hez & Hal & Hmag).
  apply round_aux_le; try assumption. now rewrite Hmag.
Qed.

Lemma binary_round_ge (s : bool) (m mb : positive) (e eb : Z) :
  F32.emin <= e -> canonical mb eb ->
  mag (Zpos mb) eb <= mag (Zpos m) e ->
  let r := binary_round F32.prec F32.emax s m e in
  r = S754_infinity s
  \/ exists m' e', r = S754_finite s m' e' /\ F32.emin <= e'
                   /\ mag (Zpos mb) eb <= mag (Zpos m') e'.
Proof.
  intros He Hcan Hle r. subst r. rewrite binary_round_unfold.
  destruct (binary_round_aligned m e He) as (Hez & Hal & Hmag).
  apply round_aux_ge; try assumption. now rewrite Hmag.
Qed.

Lemma binary_round_shape (s : bool) (m : positive) (e : Z) :
  F32.emin <= e ->
  let r := binary_round F32.prec F32.emax s m e in
  r = S754_zero s \/ r = S754_infinity s
  \/ exists m' e', r = S754_finite s m' e' /\ F32.emin <= e'.
Proof.
  intros He r. subst r. rewrite binary_round_unfold.
  destruct (binary_round_aligned m e He) as (Hez & _).
  now apply round_aux_shape.
Qed.

Lemma valid_finite (s : bool) (m : positive) (e : Z) :
  valid (S754_finite s m e) = true -> canonical m e /\ e <= 104 /\ F32.emin <= e.
Proof.
  unfold valid, valid_binary, bounded, canonical_mantissa.
  intros H. apply andb_true_iff in H as [Hc He].
  apply Z.eqb_eq in Hc. apply Z.leb_le in He.
  change (fexp F32.prec F32.emax) with F32.fexp in Hc.
  change (F32.emax - F32.prec) with 104 in He.
  unfold canonical. split; [exact Hc|]. split; [exact He|].
  unfold F32.fexp in Hc. lia.
Qed.

Lemma scaled_finite (s : bool) (m : positive) (e : Z) :
  scaled (S754_finite s m e) = cond_Zopp s (mag (Zpos m) e).
Proof. unfold scaled, mag. destruct s; cbn [cond_Zopp]; lia. Qed.

Lemma normalize_below (S e : Z) (B : float) :
  F32.emin <= e -> finite_or_zero B = true -> valid B = true ->
  S * 2 ^ (e - F32.emin) <= scaled B ->
  below (binary_normalize F32.prec F32.emax S e false) B.
Proof.
  intros He HfB HvB Hle. unfold binary_normalize.
  destruct S as [|m|m].
  - right. cbn in *. repeat split; try exact I; lia.
  - (* a positive sum: the bound is positive too *)
    assert (Hpos : 0 < scaled B).
    { eapply Z.lt_le_trans; [|exact Hle].
      apply Z.mul_pos_pos; [lia | apply pow2_pos; lia]. }
    destruct B as [sb|sb| |sb mb eb]; try discriminate; try (cbn in Hpos; lia).
    rewrite scaled_finite in *. destruct sb.
    { cbn [cond_Zopp] in Hpos. pose proof (valid_finite _ _ _ HvB) as (_ & _ & Hb).
      pose proof (mag_pos mb eb Hb). lia. }
    cbn [cond_Zopp] in *.
    destruct (valid_finite _ _ _ HvB) as (Hcan & Heb & Hemb).
    destruct (binary_round_le false m mb e eb He Hcan Heb Hle)
      as [-> | (m' & e' & -> & He' & Hm')].
    + right. cbn. split; [reflexivity|]. split; [exact I|].
      pose proof (mag_pos mb eb Hemb). lia.
    + right. split; [reflexivity|]. split; [exact He'|].
      rewrite scaled_finite. exact Hm'.
  - (* a negative sum *)
    destruct B as [sb|sb| |sb mb eb]; try discriminate.
    + (* bound zero *)
      destruct (binary_round_shape true m e He) as [-> | [-> | (m' & e' & -> & He')]].
      * right. cbn. repeat split; try exact I; lia.
      * left. reflexivity.
      * right. split; [reflexivity|]. split; [exact He'|].
        rewrite scaled_finite. cbn [cond_Zopp scaled].
        pose proof (mag_pos m' e' He'). lia.
    + destruct (valid_finite _ _ _ HvB) as (Hcan & Heb & Hemb).
      rewrite scaled_finite in Hle. destruct sb; cbn [cond_Zopp] in Hle.
      * (* negative bound *)
        assert (Hge : mag (Zpos mb) eb <= mag (Zpos m) e) by (unfold mag in *; lia).
        destruct (binary_round_ge true m mb e eb He Hcan Hge)
          as [-> | (m' & e' & -> & He' & Hm')].
        -- left. reflexivity.
        -- right. split; [reflexivity|]. split; [exact He'|].
           rewrite !scaled_finite. cbn [cond_Zopp]. lia.
      * (* positive bound *)
        destruct (binary_round_shape true m e He) as [-> | [-> | (m' & e' & -> & He')]].
        -- right. split; [reflexivity|]. split; [exact I|].
           rewrite scaled_finite. cbn [cond_Zopp scaled].
           pose proof (mag_pos mb eb Hemb). lia.
        -- left. reflexivity.
        -- right. split; [reflexivity|]. split; [exact He'|].
           rewrite !scaled_finite. cbn [cond_Zopp].
           pose proof (mag_pos m' e' He'). pose proof (mag_pos mb eb Hemb). lia.
Qed.

(** The aligned mantissas of an addition stand for the operands. *)
Lemma aligned_scaled (s : bool) (m : positive) (e ez : Z) :
  ez <= e -> F32.emin <= ez ->
  cond_Zopp s (Zpos (fst (shl_align m e ez))) * 2 ^ (ez - F32.emin)
  = scaled (S754_finite s m e).
Proof.
  intros Hez Hemin. unfold scaled.
  destruct (shl_align_spec m e ez) as [(Hlt & _ & Hm)|(Hle & ->)]; cbn [fst].
  - rewrite Hm. replace (e - F32.emin) with (e - ez + (ez - F32.emin)) by lia.
    rewrite pow2_add by lia. destruct s; cbn [cond_Zopp]; lia.
  - replace ez with e by lia. reflexivity.
Qed.

(** [-1.0f * m] is [-m] for a positive [m]. *)
Lemma mul_minus_one (m : float) :
  valid m = true -> F32.gtb m F32.zero = true ->
  F32.mul (F32.of_Z (-1)) m = SFopp m.
Proof.
  intros Hv Hpos.
  destruct m as [s|s| |s mm em]; [discriminate Hpos | | discriminate Hpos |].
  - destruct s; [discriminate | reflexivity].
  - destruct s; [discriminate|].
    destruct (valid_finite _ _ _ Hv) as (Hcan & Heb & Hemin).
    change (F32.of_Z (-1)) with (S754_finite true 8388608 (-23)).
    unfold F32.mul, SFmul. cbn [xorb SFopp negb].
    destruct (binary_round_aux_exact true (8388608 * mm) (-23 + em))
      as (M & Hlo & Hhi & ->).
    cbv zeta. change (fexp F32.prec F32.emax) with F32.fexp in *.
    assert (Hdig : Zpos (digits2_pos (8388608 * mm)) = Zpos (digits2_pos mm) + 23).
    { apply digits2_pos_shift; [lia|]. rewrite Pos2Z.inj_mul. change (2 ^ 23) with 8388608. lia. }
    rewrite Hdig in *.
    replace (Zpos (digits2_pos mm) + 23 + (-23 + em)) with (Zpos (digits2_pos mm) + em) in * by lia.
    unfold canonical in Hcan. rewrite Hcan in *.
    replace (Z.max (em - (-23 + em)) 0) with 23 in * by lia.
    assert (HM : M = Zpos mm).
    { change (2 ^ 23) with 8388608 in *. rewrite Pos2Z.inj_mul in *.
      rewrite Z.mul_comm, Z.div_mul in Hlo by lia. lia. }
    subst M. cbn [Zdigits2].
    replace (-23 + em + 23) with em by lia. rewrite Hcan.
    replace (Z.max (em - em) 0) with 0 by lia.
    rewrite Z.div_1_r, Z.add_0_r. cbn [finish].
    destruct (Z.leb_spec em 104); [reflexivity | lia].
Qed.

Lemma below_refl (B : float) :
  finite_or_zero B = true -> valid B = true -> below B B.
Proof.
  intros Hf Hv. right. split; [exact Hf|]. split; [|lia].
  destruct B; try exact I. now destruct (valid_finite _ _ _ Hv) as (_ & _ & H).
Qed.

(** Taking a positive amount from a number below the bound leaves a
    number below the bound. *)
Lemma take_below (cur m B : float) :
  finite_or_zero B = true -> valid B = true ->
  valid m = true -> F32.gtb m F32.zero = true ->
  below cur B ->
  below (F32.add cur (F32.mul (F32.of_Z (-1)) m)) B.
Proof.
  intros HfB HvB Hvm Hpos Hcur. rewrite (mul_minus_one _ Hvm Hpos).
  destruct m as [s|s| |s mm em]; [discriminate Hpos | | discriminate Hpos |].
  - (* m = +inf *)
    destruct s; [discriminate|]. cbn [SFopp negb].
    destruct Hcur as [-> | (Hf & _)]; [left; reflexivity|].
    destruct cur; try discriminate; left; reflexivity.
  - destruct s; [discriminate|]. cbn [SFopp negb].
    destruct (valid_finite _ _ _ Hvm) as (_ & _ & Hem).
    destruct Hcur as [-> | (Hf & Hexp & Hle)]; [left; reflexivity|].
    destruct cur as [sc|sc| |sc mc ec]; try discriminate.
    + (* cur = 0 *)
      right. cbn [F32.add SFadd]. split; [reflexivity|]. split; [exact Hem|].
      rewrite scaled_finite. cbn [cond_Zopp]. cbn [scaled] in Hle.
      pose proof (mag_pos mm em Hem). lia.
    + cbn [exponent_ok] in Hexp. unfold F32.add, SFadd.
      apply normalize_below; try assumption; [lia|].
      rewrite Z.mul_add_distr_r.
      rewrite (aligned_scaled sc mc ec) by lia.
      rewrite (aligned_scaled true mm em) by lia.
      rewrite (scaled_finite true). cbn [cond_Zopp].
      pose proof (mag_pos mm em Hem). lia.
Qed.

(** The difference of a number and a number below it is not negative. *)
Lemma sub_below_nonneg (old new : float) :
  finite_or_zero old = true -> valid old = true -> below new old ->
  F32.leb F32.zero (F32.sub old new) = true.
Proof.
  intros Hf Hv [-> | (Hfn & Hexp & Hle)].
  - destruct old; try discriminate; reflexivity.
  - destruct old as [so|so| |so mo eo]; try discriminate;
      destruct new as [sn|sn| |sn mn en]; try discriminate.
    + destruct so, sn; reflexivity.
    + (* 0 - new, new <= 0 *)
      cbn [exponent_ok] in Hexp. rewrite scaled_finite in Hle. cbn [scaled] in Hle.
      pose proof (mag_pos mn en Hexp). destruct sn; cbn [cond_Zopp] in Hle; [|lia].
      reflexivity.
    + (* old - 0, 0 <= old *)
      destruct (valid_finite _ _ _ Hv) as (_ & _ & Heo).
      rewrite scaled_finite in Hle. cbn [scaled] in Hle.
      pose proof (mag_pos mo eo Heo). destruct so; cbn [cond_Zopp] in Hle; [lia|].
      reflexivity.
    + destruct (valid_finite _ _ _ Hv) as (_ & _ & Heo).
      cbn [exponent_ok] in Hexp. unfold F32.sub, SFsub.
      set (ez := Z.min eo en).
      set (S := cond_Zopp so (Zpos (fst (shl_align mo eo ez)))
                - cond_Zopp sn (Zpos (fst (shl_align mn en ez)))).
      assert (Hez : F32.emin <= ez) by (subst ez; lia).
      assert (HS : 0 <= S).
      { assert (Hp : 0 < 2 ^ (ez - F32.emin)) by (apply pow2_pos; lia).
        pose proof (aligned_scaled so mo eo ez ltac:(subst ez; lia) Hez) as Ho.
        pose proof (aligned_scaled sn mn en ez ltac:(subst ez; lia) Hez) as Hn.
        subst S. nia. }
      unfold binary_normalize. destruct S as [|m|m]; [reflexivity | | lia].
      destruct (binary_round_shape false m ez Hez) as [-> | [-> | (m' & e' & -> & _)]];
        reflexivity.
Qed.

(** ** Products of single-precision values

    The product of two finite values is their exact product rounded by
    [binary_round_aux]: it is finite as long as the magnitudes of the
    factors leave room below the largest value of the format, and a
    product with a zero is a zero. *)

Lemma digits2_pos_mul (p q : positive) :
  Zpos (digits2_pos (p * q)) <= Zpos (digits2_pos p) + Zpos (digits2_pos q).
Proof.
  pose proof (digits2_pos_bounds p) as [_ Hp].
  pose proof (digits2_pos_bounds q) as [_ Hq].
  pose proof (digits2_pos_bounds (p * q)) as [Hlo _].
  assert (H : 2 ^ (Zpos (digits2_pos (p * q)) - 1)
              < 2 ^ (Zpos (digits2_pos p) + Zpos (digits2_pos q))).
  { rewrite pow2_add by lia. rewrite Pos2Z.inj_mul in Hlo. nia. }
  apply pow2_lt_inv in H; lia.
Qed.

(** The product of a value below [2^a] and a value below [2^b] is
    finite and at most [2^(a + b)]. *)
Lemma mul_small (a b : Z) (x y : float) :
  small a x -> small b y -> -149 <= a + b <= 105 ->
  small (a + b + 1) (F32.mul x y).
Proof.
  intros Hx Hy Hab.
  destruct x as [sx|sx| |sx mx ex]; try contradiction;
    destruct y as [sy|sy| |sy my ey]; try contradiction; try exact I.
  cbn [small] in Hx, Hy. unfold F32.mul, SFmul.
  destruct (binary_round_aux_exact (xorb sx sy) (mx * my) (ex + ey))
    as (M & Hlo & Hhi & ->).
  cbv zeta. change (fexp F32.prec F32.emax) with F32.fexp in *.
  set (m1 := (mx * my)%positive) in *. set (e1 := ex + ey) in *.
  set (d1 := Zpos (digits2_pos m1)) in *.
  assert (Hd1 : 1 <= d1) by (subst d1; lia).
  assert (Hde : d1 + e1 <= a + b).
  { pose proof (digits2_pos_mul mx my). subst d1 m1 e1. lia. }
  set (k := Z.max (F32.fexp (d1 + e1) - e1) 0) in *.
  assert (Hk : 0 <= k) by apply Z.le_max_r.
  assert (Hpk : 0 < 2 ^ k) by (apply pow2_pos; lia).
  assert (HM : 0 <= M).
  { etransitivity; [|exact Hlo]. apply Z.div_pos; lia. }
  destruct M as [|pM|pM]; [exact I | | lia].
  cbn [Zdigits2]. set (dM := Zpos (digits2_pos pM)).
  (* the rounded mantissa has at most one digit more than the exact one *)
  assert (HdM : dM + (e1 + k) <= Z.max (d1 + e1 + 1) (-148)).
  { pose proof (digits2_pos_bounds pM) as [HMlo _]. fold dM in HMlo.
    pose proof (digits2_pos_bounds m1) as [_ Hm1]. fold d1 in Hm1.
    assert (Hdk : dM + k <= Z.max d1 k + 1).
    { assert (Hpw : 2 ^ (dM - 1 + k) < 2 ^ (Z.max d1 k + 1)).
      { rewrite pow2_add by (subst dM; lia).
        rewrite pow2_succ by lia.
        assert (2 ^ d1 <= 2 ^ Z.max d1 k) by (apply pow2_le; lia).
        assert (2 ^ k <= 2 ^ Z.max d1 k) by (apply pow2_le; lia).
        nia. }
      apply pow2_lt_inv in Hpw; subst dM; lia. }
    unfold F32.fexp, F32.emin in *. lia. }
  set (k2 := Z.max (F32.fexp (dM + (e1 + k)) - (e1 + k)) 0).
  assert (Hk2 : 0 <= k2) by apply Z.le_max_r.
  assert (Hpk2 : 0 < 2 ^ k2) by (apply pow2_pos; lia).
  assert (Hq : 0 <= Zpos pM / 2 ^ k2) by (apply Z.div_pos; lia).
  destruct (Zpos pM / 2 ^ k2) as [|m2|m2] eqn:Hm2; [exact I | | lia].
  cbn [finish].
  (* the exponent stays in the format: no overflow *)
  assert (He : e1 + k + k2 <= 104).
  { assert (e1 <= a + b - 2).
    { pose proof (digits2_pos_bounds mx). pose proof (digits2_pos_bounds my).
      assert (1 <= Zpos (digits2_pos mx)) by lia.
      assert (1 <= Zpos (digits2_pos my)) by lia. subst e1. lia. }
    unfold F32.fexp, F32.emin in *. lia. }
  destruct (Z.leb_spec (e1 + k + k2) 104); [|lia].
  cbn [small].
  assert (Hd2 : Zpos (digits2_pos m2) + k2 <= dM).
  { pose proof (digits2_pos_bounds m2) as [H2lo _].
    pose proof (digits2_pos_bounds pM) as [_ HMhi]. fold dM in HMhi.
    pose proof (Z.mul_div_le (Zpos pM) (2 ^ k2) Hpk2) as Hdiv.
    rewrite Hm2 in Hdiv.
    assert (Hpw : 2 ^ (Zpos (digits2_pos m2) - 1 + k2) < 2 ^ dM).
    { rewrite pow2_add by lia. nia. }
    apply pow2_lt_inv in Hpw; subst dM; lia. }
  lia.
Qed.

Lemma mul_zero_l (n : Z) (x y : float) :
  is_zero x -> small n y -> is_zero (F32.mul x y).
Proof. destruct x, y; cbn; tauto. Qed.

Lemma mul_zero_r (n : Z) (x y : float) :
  small n x -> is_zero y -> is_zero (F32.mul x y).
Proof. destruct x, y; cbn; tauto. Qed.

Lemma is_zero_eqb (x : float) : is_zero x <-> F32.eqb x F32.zero = true.
Proof.
  destruct x as [s|s| |s m e]; cbn; try tauto; split; try tauto;
    try destruct s; cbv; congruence.
Qed.

(** [h * 1.0f] is [h]. *)
Lemma mul_one (h : float) : valid h = true -> F32.mul h F32.one = h.
Proof.
  intros Hv. change F32.one with (S754_finite false 8388608 (-23)).
  destruct h as [s|s| |s mm em]; try (destruct s; reflexivity); [reflexivity|].
  destruct (valid_finite _ _ _ Hv) as (Hcan & Heb & Hemin).
  unfold F32.mul, SFmul. rewrite xorb_false_r.
  destruct (binary_round_aux_exact s (mm * 8388608) (em + -23))
    as (M & Hlo & Hhi & ->).
  cbv zeta. change (fexp F32.prec F32.emax) with F32.fexp in *.
  assert (Hdig : Zpos (digits2_pos (mm * 8388608)) = Zpos (digits2_pos mm) + 23).
  { apply digits2_pos_shift; [lia|]. rewrite Pos2Z.inj_mul.
    change (2 ^ 23) with 8388608. lia. }
  rewrite Hdig in *.
  replace (Zpos (digits2_pos mm) + 23 + (em + -23))
    with (Zpos (digits2_pos mm) + em) in * by lia.
  unfold canonical in Hcan. rewrite Hcan in *.
  replace (Z.max (em - (em + -23)) 0) with 23 in * by lia.
  assert (HM : M = Zpos mm).
  { change (2 ^ 23) with 8388608 in *. rewrite Pos2Z.inj_mul in *.
    rewrite Z.div_mul in Hlo by lia. lia. }
  subst M. cbn [Zdigits2].
  replace (em + -23 + 23) with em by lia. rewrite Hcan.
  replace (Z.max (em - em) 0) with 0 by lia.
  rewrite Z.div_1_r, Z.add_0_r. cbn [finish].
  destruct (Z.leb_spec em 104); [reflexivity | lia].
Qed.

(** The product [((a * b) * c) * d] of four values below [2^32] is zero
    as soon as one of them is: no partial product overflows. *)
Lemma product_zero (a b c d : float) :
  small 32 a -> small 32 b -> small 32 c -> small 32 d ->
  is_zero a \/ is_zero b \/ is_zero c \/ is_zero d ->
  F32.eqb (F32.mul (F32.mul (F32.mul a b) c) d) F32.zero = true.
Proof.
  intros Ha Hb Hc Hd Hz. apply is_zero_eqb.
  pose proof (mul_small 32 32 a b Ha Hb ltac:(lia)) as Hab.
  pose proof (mul_small _ 32 _ c Hab Hc ltac:(lia)) as Habc.
  destruct Hz as [Hz | [Hz | [Hz | Hz]]].
  - apply (mul_zero_l 32); [|exact Hd]. apply (mul_zero_l 32); [|exact Hc].
    now apply (mul_zero_l 32).
  - apply (mul_zero_l 32); [|exact Hd]. apply (mul_zero_l 32); [|exact Hc].
    now apply (mul_zero_r 32).
  - apply (mul_zero_l 32); [|exact Hd]. eapply mul_zero_r; eassumption.
  - eapply mul_zero_r; eassumption.
Qed.

(** ** Comparisons read the other way round *)

Lemma SFcompare_antisym (x y : float) :
  SFcompare y x = CompOpp <$> SFcompare x y.
Proof.
  destruct x as [sx|sx| |sx mx ex], y as [sy|sy| |sy my ey];
    try destruct sx; try destruct sy; try reflexivity; cbn;
    rewrite (Z.compare_antisym ex ey);
    destruct (ex ?= ey) eqn:He; cbn; try reflexivity;
    change Eq with (CompOpp Eq) at 1;
    rewrite <- (Pos.compare_cont_antisym mx my Eq);
    destruct (Pos.compare_cont Eq mx my); reflexivity.
Qed.

(** [!(x < y)] is [y <= x] when neither is a NaN. *)
Lemma not_ltb_leb (x y : float) :
  ~ is_nan x -> ~ is_nan y -> F32.ltb x y = false -> F32.leb y x = true.
Proof.
  intros Hx Hy. unfold F32.ltb, F32.leb, SFltb, SFleb.
  rewrite (SFcompare_antisym x y).
  destruct (SFcompare x y) as [[]|] eqn:Hc; cbn; try congruence.
  destruct x, y; cbn in *; try tauto; try discriminate.
Qed.

Lemma leb_not_ltb (x y : float) : F32.leb y x = true -> F32.ltb x y = false.
Proof.
  unfold F32.ltb, F32.leb, SFltb, SFleb. rewrite (SFcompare_antisym x y).
  destruct (SFcompare x y) as [[]|]; cbn; congruence.
Qed.

(** ** [aggregateCrust] *)

Section Aggregation.

Context {RandSource Movement : Type}.
Implicit Types (a p : plate RandSource Movement).

Lemma elem_of_box_cells (d : SegmentData) (x y : Z) :
  (x, y) ∈ box_cells d
  <-> (getTop d <= y <= getBottom d) /\ (getLeft d <= x <= getRight d).
Proof.
  unfold box_cells, range. rewrite list_elem_of_bind. split.
  - intros (y' & Hx & Hy). apply elem_of_seqZ in Hy.
    apply list_elem_of_bind in Hx as (x' & Hxy & Hx).
    apply elem_of_seqZ in Hx. apply list_elem_of_singleton in Hxy.
    injection Hxy as -> ->. lia.
  - intros [Hy Hx]. exists y. split; [|apply elem_of_seqZ; lia].
    apply list_elem_of_bind. exists x. split; [|apply elem_of_seqZ; lia].
    apply list_elem_of_singleton. reflexivity.
Qed.

Lemma NoDup_box_cells (d : SegmentData) : NoDup (box_cells d).
Proof.
  unfold box_cells, range. apply NoDup_bind.
  - intros y1 y2 c _ _ H1 H2.
    apply list_elem_of_bind in H1 as (x1 & H1 & _).
    apply list_elem_of_bind in H2 as (x2 & H2 & _).
    apply list_elem_of_singleton in H1, H2. congruence.
  - intros y _. apply NoDup_bind.
    + intros x1 x2 c _ _ H1 H2.
      apply list_elem_of_singleton in H1, H2. congruence.
    + intros x _. apply NoDup_singleton.
    + apply NoDup_seqZ.
  - apply NoDup_seqZ.
Qed.

(** On a box that lies on the plate the index of a cell is computed
    without wrap-around. *)
Lemma cell_index_in_box a d x y :
  box_in_plate a d -> (x, y) ∈ box_cells d ->
  cell_index a (x, y) = y * width (_bounds a) + x.
Proof.
  intros (Hl & Hr & Ht & Hb) Hc. apply elem_of_box_cells in Hc.
  unfold cell_index, U32.add, U32.mul. cbn [fst snd].
  rewrite (wrap_small (y * _)) by (unfold U32.in_range; nia).
  apply wrap_small. unfold U32.in_range. nia.
Qed.

(** The cells of such a box have different indices. *)
Lemma NoDup_box_indices a d :
  box_in_plate a d -> NoDup (cell_index a <$> box_cells d).
Proof.
  intros Hbox. apply NoDup_fmap_2_strong; [|apply NoDup_box_cells].
  intros [x1 y1] [x2 y2] H1 H2 Heq.
  rewrite (cell_index_in_box _ _ _ _ Hbox H1),
          (cell_index_in_box _ _ _ _ Hbox H2) in Heq.
  apply elem_of_box_cells in H1, H2.
  destruct Hbox as (Hl & Hr & Ht & Hb).
  assert (y1 = y2) by nia. subst y2. f_equal. lia.
Qed.

(** One turn of the inner loop: either the cell stays, or its crust goes
    to the destination plate, is taken from the mass counter and is
    zeroed. *)
Lemma aggregate_cell_Some seg wx wy lx ly active a p c a' p' :
  aggregate_cell seg wx wy lx ly active (a, p) c = Some (a', p') ->
  _bounds a' = _bounds a /\ _segments a' = _segments a
  /\ age_map a' = age_map a /\ _worldDimension a' = _worldDimension a
  /\ ((transferred a seg (cell_index a c) = Some false /\ a' = a /\ p' = p)
      \/ (transferred a seg (cell_index a c) = Some true
          /\ store (map a) (cell_index a c) F32.zero = Some (map a')
          /\ _mass a' = take_away a (_mass a) c
          /\ deposit a wx wy lx ly active p c = Some p')).
Proof.
  unfold aggregate_cell. destruct c as [x y]. intros H.
  bind_inv H as b eqn:Hb. destruct b.
  - bind_inv H as m eqn:Hm. bind_inv H as t eqn:Ht.
    bind_inv H as p2 eqn:Hp. bind_inv H as heights eqn:Hh.
    injection H as <- <-. cbn. repeat split; try reflexivity.
    right. repeat split; try assumption.
    + unfold take_away, crust_at. now rewrite Hm.
    + unfold deposit, crust_at, age_at. rewrite Hm, Ht. exact Hp.
  - injection H as <- <-. repeat split; try reflexivity. left. auto.
Qed.

Lemma cell_index_frame a a0 c :
  _bounds a = _bounds a0 -> cell_index a c = cell_index a0 c.
Proof. unfold cell_index. now intros ->. Qed.

Lemma transferred_frame a a0 seg i :
  _segments a = _segments a0 -> load (map a) i = load (map a0) i ->
  transferred a seg i = transferred a0 seg i.
Proof. unfold transferred. now intros -> ->. Qed.

(** The loop of [aggregateCrust] over the cells [l], from the plates
    [(a, p)] on, when [a] still holds on [l] what the plate [a0] the
    call started with held: the moved cells of [l] are zeroed, the
    others are left alone, the mass counter loses the crust of each
    moved cell and the destination plate receives them one by one. *)
Lemma aggregate_loop a0 seg wx wy lx ly active (l : list (Z * Z)) :
  forall a p a' p',
  NoDup (cell_index a0 <$> l) ->
  _bounds a = _bounds a0 -> _segments a = _segments a0 ->
  age_map a = age_map a0 ->
  (forall c, c ∈ l ->
     load (map a) (cell_index a0 c) = load (map a0) (cell_index a0 c)) ->
  for_each (aggregate_cell seg wx wy lx ly active) l (a, p) = Some (a', p') ->
  let moved := filter (fun c => transferred a0 seg (cell_index a0 c) = Some true) l in
  _bounds a' = _bounds a0 /\ _segments a' = _segments a0
  /\ age_map a' = age_map a0
  /\ (forall c, c ∈ moved -> load (map a') (cell_index a0 c) = Some F32.zero)
  /\ (forall j, j ∉ cell_index a0 <$> moved -> load (map a') j = load (map a) j)
  /\ _mass a' = fold_left (take_away a0) moved (_mass a)
  /\ for_each (deposit a0 wx wy lx ly active) moved p = Some p'.
Proof.
  induction l as [|c l IH]; intros a p a' p' Hnd Hb Hs Hag Hmap Hloop moved.
  - injection Hloop as <- <-. subst moved. cbn.
    repeat split; try assumption; try reflexivity. intros c Hc. inv Hc.
  - cbn [for_each] in Hloop. bind_inv Hloop as [a2 p2] eqn:Hstep.
    apply aggregate_cell_Some in Hstep as (Hb2 & Hs2 & Hag2 & _ & Hcase).
    rewrite fmap_cons in Hnd. apply NoDup_cons in Hnd as [Hnotin Hnd].
    pose proof (cell_index_frame a a0 c Hb) as Hidx.
    assert (Hhere : load (map a) (cell_index a0 c) = load (map a0) (cell_index a0 c))
      by (apply Hmap; left).
    assert (Htr : transferred a seg (cell_index a c)
                  = transferred a0 seg (cell_index a0 c)).
    { rewrite Hidx. now apply transferred_frame. }
    destruct Hcase as [(Hf & -> & ->) | (Ht & Hstore & Hmass & Hdep)].
    + subst moved. rewrite filter_cons_False by congruence.
      apply IH; try assumption. intros c' Hc'. apply Hmap. now right.
    + subst moved. rewrite filter_cons_True by congruence.
      rewrite Hidx in Hstore.
      assert (Hmap2 : forall c', c' ∈ l ->
                load (map a2) (cell_index a0 c') = load (map a0) (cell_index a0 c')).
      { intros c' Hc'. rewrite (load_store_ne _ _ _ _ _ Hstore).
        - apply Hmap. now right.
        - intros Heq. apply Hnotin. rewrite Heq.
          now apply list_elem_of_fmap_2. }
      destruct (IH a2 p2 a' p' Hnd ltac:(congruence) ltac:(congruence)
                   ltac:(congruence) Hmap2 Hloop)
        as (Hb' & Hs' & Hag' & Hzero & Hother & Hmass' & Hdep').
      assert (Hcrust : crust_at a c = crust_at a0 c).
      { unfold crust_at. now rewrite Hidx, Hhere. }
      assert (Hage : age_at a c = age_at a0 c).
      { unfold age_at. now rewrite Hidx, Hag. }
      split; [exact Hb' | split; [exact Hs' | split; [exact Hag' |]]].
      split; [|split; [|split]].
      * intros c' Hc'. apply elem_of_cons in Hc' as [-> | Hc'].
        -- rewrite Hother.
           ++ eapply load_store_eq. exact Hstore.
           ++ intros Hin. apply Hnotin.
              apply list_elem_of_fmap in Hin as (c2 & Heq & Hc2).
              apply list_elem_of_filter in Hc2 as [_ Hc2].
              rewrite Heq. now apply list_elem_of_fmap_2.
        -- now apply Hzero.
      * intros j Hj. rewrite fmap_cons in Hj.
        rewrite Hother by (intros Hin; apply Hj, elem_of_cons; now right).
        apply (load_store_ne _ _ _ _ _ Hstore).
        intros Heq. apply Hj, elem_of_cons. left. congruence.
      * cbn [fold_left]. rewrite Hmass'. f_equal.
        rewrite Hmass. unfold take_away. now rewrite Hcrust.
      * cbn [for_each]. unfold deposit in Hdep |- *.
        rewrite Hcrust, Hage in Hdep. rewrite Hdep. exact Hdep'.
Qed.

(** The loop leaves the rectangle and the continents of the source plate
    as they were. *)
Lemma aggregate_loop_frame seg wx wy lx ly active (l : list (Z * Z)) :
  forall a p a' p',
  for_each (aggregate_cell seg wx wy lx ly active) l (a, p) = Some (a', p') ->
  _bounds a' = _bounds a /\ _segments a' = _segments a.
Proof.
  induction l as [|c l IH]; intros a p a' p' Hloop.
  - injection Hloop as <- <-. auto.
  - cbn [for_each] in Hloop. bind_inv Hloop as [a2 p2] eqn:Hstep.
    apply aggregate_cell_Some in Hstep as (Hb & Hs & _).
    apply IH in Hloop as [Hb' Hs']. split; congruence.
Qed.

(** The call unfolded: the continent is found, and either it is empty and
    nothing happens, or the loop runs and the continent is marked. *)
Lemma aggregateCrust_Some a b wx wy a' b' delta :
  aggregateCrust a b wx wy = Some (a', b', delta) ->
  exists i lx ly seg d,
    getValidMapIndex (_bounds a) wx wy = Some (i, lx, ly)
    /\ idAt (_segments a) i = Some seg
    /\ data (_segments a) seg = Some d
    /\ ((isEmpty d = true /\ a' = a /\ b' = b /\ delta = F32.zero)
        \/ (isEmpty d = false
            /\ exists active a2 d2,
                selectCollisionSegment b wx wy = Some active
                /\ for_each (aggregate_cell seg
                               (U32.add wx (getWidth (_worldDimension a)))
                               (U32.add wy (getHeight (_worldDimension a)))
                               lx ly active)
                            (box_cells d) (a, b) = Some (a2, b')
                /\ data (_segments a2) seg = Some d2
                /\ a' = with_segments a2
                          (setData (_segments a2) seg (markNonExistent d2))
                /\ delta = F32.sub (getMass (_mass a)) (getMass (_mass a2)))).
Proof.
  unfold aggregateCrust. intros H.
  bind_inv H as [[i lx] ly] eqn:Hi. bind_inv H as seg eqn:Hseg.
  bind_inv H as d eqn:Hd. exists i, lx, ly, seg, d.
  split; [first [assumption | reflexivity]|].
  split; [first [assumption | reflexivity]|].
  split; [first [assumption | reflexivity]|].
  destruct (isEmpty d).
  - left. injection H as <- <- <-. auto.
  - right. split; [reflexivity|].
    bind_inv H as active eqn:Hactive. bind_inv H as [a2 p2] eqn:Hloop.
    bind_inv H as d2 eqn:Hd2. injection H as <- <- <-.
    exists active, a2, d2. auto.
Qed.

(** C5.  After a call of [aggregateCrust] a second call with the same
    arguments returns exactly 0 and leaves both plates as they are. *)
Theorem aggregateCrust_twice a b wx wy a' b' delta :
  aggregateCrust a b wx wy = Some (a', b', delta) ->
  aggregateCrust a' b' wx wy = Some (a', b', F32.zero).
Proof.
  intros Hfirst.
  destruct (aggregateCrust_Some _ _ _ _ _ _ _ Hfirst)
    as (i & lx & ly & seg & d & Hi & Hseg & Hd & Hcase).
  destruct Hcase as [(Hempty & -> & -> & ->)
                    | (_ & active & a2 & d2 & _ & Hloop & Hd2 & -> & _)].
  - exact Hfirst.
  - apply aggregate_loop_frame in Hloop as [Hb Hs].
    unfold aggregateCrust. cbn [with_segments _bounds _segments].
    rewrite Hb, Hi. cbn [mbind option_bind].
    unfold idAt, setData in *. cbn [seg_id]. rewrite Hs, Hseg.
    cbn [mbind option_bind]. unfold data in *. cbn [seg_data].
    rewrite list_lookup_insert_eq by (eapply lookup_lt_Some; rewrite <- Hs; exact Hd2).
    cbn [mbind option_bind]. reflexivity.
Qed.

(** A cell the loop moves has crust. *)
Lemma moved_cell_has_crust a seg d c :
  c ∈ moved_cells a seg d -> F32.gtb (crust_at a c) F32.zero = true.
Proof.
  unfold moved_cells. intros Hc. apply list_elem_of_filter in Hc as [Hc _].
  unfold transferred in Hc. bind_inv Hc as s.
  destruct (s =? seg); [|discriminate].
  unfold crust_at. bind_inv Hc as m. injection Hc as Hc. exact Hc.
Qed.

(** The mass counter stays below a bound it was below while the loop
    takes positive amounts from it. *)
Lemma take_away_below a (B : float) (cells : list (Z * Z)) :
  forall mass : Mass,
  (forall c, c ∈ cells -> valid (crust_at a c) = true
                          /\ F32.gtb (crust_at a c) F32.zero = true) ->
  finite_or_zero B = true -> valid B = true ->
  below (getMass mass) B ->
  below (getMass (fold_left (take_away a) cells mass)) B.
Proof.
  induction cells as [|c cells IH]; intros mass Hcells HfB HvB Hbelow.
  - exact Hbelow.
  - cbn [fold_left]. apply IH; try assumption.
    + intros c' Hc'. apply Hcells. now right.
    + destruct (Hcells c ltac:(left)) as [Hv Hpos].
      unfold take_away, incMass. cbn [getMass]. now apply take_below.
Qed.

(** C1, amended.  A call of [aggregateCrust] on a continent that is not
    empty and whose bounding box lies on the plate returns the mass
    counter of the source plate before the call minus the counter after
    it, which is not negative when the counter and the crust moved are
    finite single-precision values; every cell of the box that belongs
    to the continent and has crust is zeroed on the source plate, the
    other cells keep their crust; the mass counter of the source loses
    the crust of each moved cell in turn; and the destination plate
    receives each moved cell, with its crust and its age, through
    [addCrustByCollision], in the order of the loop. *)
Theorem aggregateCrust_moves_continent a b wx wy i lx ly seg d a' b' delta :
  getValidMapIndex (_bounds a) wx wy = Some (i, lx, ly) ->
  idAt (_segments a) i = Some seg ->
  data (_segments a) seg = Some d ->
  isEmpty d = false ->
  box_in_plate a d ->
  aggregateCrust a b wx wy = Some (a', b', delta) ->
  exists active,
    selectCollisionSegment b wx wy = Some active
    /\ delta = F32.sub (getMass (_mass a)) (getMass (_mass a'))
    /\ (finite_or_zero (getMass (_mass a)) = true ->
        valid (getMass (_mass a)) = true ->
        (forall c, c ∈ moved_cells a seg d -> valid (crust_at a c) = true) ->
        F32.leb F32.zero delta = true)
    /\ _mass a' = fold_left (take_away a) (moved_cells a seg d) (_mass a)
    /\ (forall c, c ∈ moved_cells a seg d ->
          load (map a') (cell_index a c) = Some F32.zero)
    /\ (forall j, j ∉ cell_index a <$> moved_cells a seg d ->
          load (map a') j = load (map a) j)
    /\ for_each (deposit a (U32.add wx (getWidth (_worldDimension a)))
                           (U32.add wy (getHeight (_worldDimension a)))
                           lx ly active)
                (moved_cells a seg d) b = Some b'.
Proof.
  intros Hi Hseg Hd Hfull Hbox Hcall.
  destruct (aggregateCrust_Some _ _ _ _ _ _ _ Hcall)
    as (i' & lx' & ly' & seg' & d' & Hi' & Hseg' & Hd' & Hcase).
  rewrite Hi in Hi'. injection Hi' as <- <- <-.
  rewrite Hseg in Hseg'. injection Hseg' as <-.
  rewrite Hd in Hd'. injection Hd' as <-.
  destruct Hcase as [(Hempty & _) | (_ & active & a2 & d2 & Hactive & Hloop & _ & -> & ->)];
    [congruence|].
  exists active. split; [exact Hactive|].
  destruct (aggregate_loop a _ _ _ _ _ _ _ a b a2 b'
              (NoDup_box_indices _ _ Hbox) eq_refl eq_refl eq_refl
              (fun _ _ => eq_refl) Hloop)
    as (_ & _ & _ & Hzero & Hother & Hmass & Hdep).
  cbn [with_segments _mass map]. fold (moved_cells a seg d) in *.
  split; [reflexivity|]. split; [|auto].
  intros Hfinite Hvalid Hcrust. apply sub_below_nonneg; try assumption.
  rewrite Hmass. apply take_away_below; try assumption.
  - intros c Hc. split; [now apply Hcrust | now apply (moved_cell_has_crust a seg d)].
  - now apply below_refl.
Qed.

End Aggregation.

(** Scenario S4: the land of scenario S1 is moved onto the plate of all
    zeros; a second call returns 0 and changes nothing. *)
Lemma aggregateCrust_twice_witness :
  exists a' b' delta,
    aggregateCrust Examples.plate_S1 Examples.plate_empty 3 3 = Some (a', b', delta)
    /\ delta = F32.one
    /\ aggregateCrust a' b' 3 3 = Some (a', b', F32.zero).
Proof.
  eexists _, _, _. split; [vm_compute; reflexivity|]. split; [reflexivity|].
  eapply (aggregateCrust_twice Examples.plate_S1 Examples.plate_empty 3 3).
  vm_compute. reflexivity.
Defined.

(** Scenario S4 again: the one cell of the continent is zeroed, the mass
    counter of the source loses its crust, and the destination plate is
    the one a single call of [addCrustByCollision] gives. *)
Lemma aggregateCrust_moves_continent_witness :
  exists a' b' delta active,
    aggregateCrust Examples.plate_S1 Examples.plate_empty 3 3 = Some (a', b', delta)
    /\ moved_cells Examples.plate_S1 0 (mkSegmentData 1 1 1 1 1 0 true) = [(1, 1)]
    /\ F32.leb F32.zero delta = true
    /\ load (map a') 4 = Some F32.zero
    /\ _mass a' = take_away Examples.plate_S1 (_mass Examples.plate_S1) (1, 1)
    /\ for_each (deposit Examples.plate_S1 13 13 1 1 active)
                (moved_cells Examples.plate_S1 0 (mkSegmentData 1 1 1 1 1 0 true))
                Examples.plate_empty
       = Some b'.
Proof.
  eexists _, _, _.
  edestruct (aggregateCrust_moves_continent
               Examples.plate_S1 Examples.plate_empty 3 3)
    as (active & _ & _ & Hdelta & Hmass & Hzero & _ & Hdep);
    [ vm_compute; reflexivity | vm_compute; reflexivity | vm_compute; reflexivity
    | reflexivity | unfold box_in_plate, U32.modulus; cbn; lia
    | vm_compute; reflexivity |].
  exists active. split; [reflexivity|]. split; [vm_compute; reflexivity|].
  split; [|split; [|split]].
  - apply Hdelta; [reflexivity | reflexivity |].
    intros c Hc. vm_compute in Hc. apply list_elem_of_singleton in Hc as ->.
    reflexivity.
  - apply (Hzero (1, 1)). vm_compute. left.
  - exact Hmass.
  - exact Hdep.
Defined.

(** C1 as stated fails: the land of scenario S1, of crust [1.0], is moved
    onto a cell of crust [2^24]; the sum there, [2^24 + 1], is not a
    single-precision value and is stored as [2^24], so that the two mass
    counters, which added up to [2^24 + 1], add up to [2^24] after the
    call, while [FLT_EPSILON] times the 18 cells of the two plates is
    less than [0.000003]. *)
Lemma mass_transfer_beyond_epsilon :
  exists a' b' delta,
    getValidMapIndex (_bounds Examples.plate_S1) 3 3 = Some (4, 1, 1)
    /\ transferred Examples.plate_S1 0 4 = Some true
    /\ aggregateCrust Examples.plate_S1 Examples.plate_high 3 3
       = Some (a', b', delta)
    /\ ~ mass_transfer_within_epsilon Examples.plate_S1 Examples.plate_high a' b'.
Proof.
  eexists _, _, _. split; [vm_compute; reflexivity|].
  split; [vm_compute; reflexivity|]. split; [vm_compute; reflexivity|].
  intros H. vm_compute in H. exact (H eq_refl).
Qed.

(** ** [findRiverSources] *)

Section RiverSources.

Context {RandSource Movement : Type}.
Implicit Types (p : plate RandSource Movement).

Lemma elem_of_plate_cells (r : Rectangle) (x y : Z) :
  (x, y) ∈ plate_cells r <-> (0 <= x < width r) /\ (0 <= y < height r).
Proof.
  unfold plate_cells, range. rewrite list_elem_of_bind. split.
  - intros (y' & Hx & Hy). apply elem_of_seqZ in Hy.
    apply list_elem_of_bind in Hx as (x' & Hxy & Hx).
    apply elem_of_seqZ in Hx. apply list_elem_of_singleton in Hxy.
    injection Hxy as -> ->. lia.
  - intros [Hx Hy]. exists y. split; [|apply elem_of_seqZ; lia].
    apply list_elem_of_bind. exists x. split; [|apply elem_of_seqZ; lia].
    apply list_elem_of_singleton. reflexivity.
Qed.

(** The loop pushes, in order, the cells that pass the test. *)
Lemma river_source_loop p lower_bound (l : list (Z * Z)) :
  forall sources out,
  for_each (river_source_cell p lower_bound) l sources = Some out ->
  out = sources
        ++ ((fun c => index (_bounds p) c.1 c.2)
              <$> filter (fun c => is_source p lower_bound c = Some true) l).
Proof.
  induction l as [|c l IH]; intros sources out Hloop.
  - injection Hloop as <-. cbn. now rewrite app_nil_r.
  - cbn [for_each] in Hloop. bind_inv Hloop as acc eqn:Hstep.
    unfold river_source_cell in Hstep. bind_inv Hstep as b eqn:Hb.
    injection Hstep as <-. apply IH in Hloop as ->. destruct b.
    + rewrite filter_cons_True by assumption.
      rewrite fmap_cons, <- app_assoc. reflexivity.
    + rewrite filter_cons_False by congruence. reflexivity.
Qed.

(** The test spelled out. *)
Lemma is_source_true p lower_bound x y :
  is_source p lower_bound (x, y) = Some true <->
  exists m w_crust e_crust n_crust s_crust neighbours,
    load (map p) (index (_bounds p) x y) = Some m
    /\ F32.ltb m lower_bound = false
    /\ calculateCrust (_worldDimension p) (map p) (width (_bounds p))
                      (height (_bounds p)) x y (index (_bounds p) x y)
       = Some (w_crust, e_crust, n_crust, s_crust, neighbours)
    /\ F32.eqb (F32.mul (F32.mul (F32.mul w_crust e_crust) n_crust) s_crust)
               F32.zero = false.
Proof.
  unfold is_source. split.
  - intros H. bind_inv H as m eqn:Hm. exists m.
    destruct (F32.ltb m lower_bound) eqn:Hlow; [discriminate|].
    bind_inv H as [[[[w e] n] s] nb] eqn:Hc. injection H as H.
    exists w, e, n, s, nb. repeat split; try reflexivity.
    now apply negb_true_iff.
  - intros (m & w & e & n & s & nb & Hm & Hlow & Hc & Hprod).
    rewrite Hm. cbn [mbind option_bind]. rewrite Hlow, Hc.
    cbn [mbind option_bind]. now rewrite Hprod.
Qed.

(** The neighbour to the west (or north) of a cell, in a direction
    that is on the plate. *)
Lemma before_coordinate (W w x : Z) :
  0 <= x < w -> w <= W -> (0 <? x) || (w =? W) = true ->
  (W + x - 1) mod W = (x - 1) mod w.
Proof.
  intros Hx Hw Hmask. destruct (Z.eqb_spec w W) as [->|Hne].
  - replace (W + x - 1) with (x - 1 + 1 * W) by lia. apply Z_mod_plus_full.
  - rewrite orb_false_r in Hmask. apply Z.ltb_lt in Hmask.
    rewrite (Z.mod_small (x - 1)) by lia.
    replace (W + x - 1) with (x - 1 + 1 * W) by lia.
    rewrite Z_mod_plus_full. apply Z.mod_small. lia.
Qed.

(** The neighbour to the east (or south). *)
Lemma after_coordinate (W w x : Z) :
  0 <= x < w -> w <= W -> (x <? w - 1) || (w =? W) = true ->
  (x + 1) mod W = (x + 1) mod w.
Proof.
  intros Hx Hw Hmask. destruct (Z.eqb_spec w W) as [->|Hne]; [reflexivity|].
  rewrite orb_false_r in Hmask. apply Z.ltb_lt in Hmask.
  rewrite !Z.mod_small by lia. reflexivity.
Qed.

Lemma mask_before (W w x : Z) :
  (0 <? x) || (w =? W) = true <-> 0 < x \/ w = W.
Proof. rewrite orb_true_iff, Z.ltb_lt, Z.eqb_eq. reflexivity. Qed.

Lemma mask_after (W w x : Z) :
  (x <? w - 1) || (w =? W) = true <-> x < w - 1 \/ w = W.
Proof. rewrite orb_true_iff, Z.ltb_lt, Z.eqb_eq. reflexivity. Qed.

(** What [calculateCrust] gives for a neighbour of height [h] of a cell
    of height [here]: [h] when the direction is on the plate and the
    neighbour is lower than the cell, and a zero otherwise. *)
Lemma crust_cases (h here : float) (mask : bool) :
  bounded_height h ->
  let c := F32.mul h (F32.of_bool (mask && F32.ltb h here)) in
  small 32 c
  /\ (mask && F32.ltb h here = true -> c = h)
  /\ (mask && F32.ltb h here = false -> is_zero c).
Proof.
  intros [Hv Hs] c. subst c. destruct (mask && F32.ltb h here).
  - change (F32.of_bool true) with F32.one. rewrite (mul_one _ Hv).
    split; [exact Hs|]. split; [reflexivity | discriminate].
  - assert (Hz : is_zero (F32.mul h (F32.of_bool false)))
      by (apply (mul_zero_r 32); [exact Hs | exact I]).
    split; [|split; [discriminate | intros _; exact Hz]].
    destruct (F32.mul h (F32.of_bool false)); try contradiction. exact I.
Qed.

(** The cells [calculateCrust] reads and the four values it gives. *)
Lemma calculateCrust_Some wd heights w h x y i cw ce cn cs nb :
  calculateCrust wd heights w h x y i = Some (cw, ce, cn, cs, nb) ->
  let W := getWidth wd in
  let H := getHeight wd in
  let w_mask := (0 <? x) || (w =? W) in
  let e_mask := (x <? w - 1) || (w =? W) in
  let n_mask := (0 <? y) || (h =? H) in
  let s_mask := (y <? h - 1) || (h =? H) in
  exists here hw he hn hs,
    load heights i = Some here
    /\ load heights (U32.add (U32.mul y w) (if w_mask then (W + x - 1) mod W else 0))
       = Some hw
    /\ load heights (U32.add (U32.mul y w) (if e_mask then (x + 1) mod W else 0))
       = Some he
    /\ load heights (U32.add (U32.mul (if n_mask then (H + y - 1) mod H else 0) w) x)
       = Some hn
    /\ load heights (U32.add (U32.mul (if s_mask then (y + 1) mod H else 0) w) x)
       = Some hs
    /\ cw = F32.mul hw (F32.of_bool (w_mask && F32.ltb hw here))
    /\ ce = F32.mul he (F32.of_bool (e_mask && F32.ltb he here))
    /\ cn = F32.mul hn (F32.of_bool (n_mask && F32.ltb hn here))
    /\ cs = F32.mul hs (F32.of_bool (s_mask && F32.ltb hs here)).
Proof.
  unfold calculateCrust. intros Hc.
  bind_inv Hc as here eqn:Hhere. bind_inv Hc as hw eqn:Hhw.
  bind_inv Hc as he eqn:Hhe. bind_inv Hc as hn eqn:Hhn.
  bind_inv Hc as hs eqn:Hhs. injection Hc as <- <- <- <- <-.
  cbv zeta. exists here, hw, he, hn, hs. auto 10.
Qed.

Lemma river_source_strict_peak p lower_bound x y :
  river_source p lower_bound x y -> strict_peak p lower_bound x y.
Proof.
  intros (Hx & Hy & _ & _ & _ & _ & m & hw & he & hn & hs & H).
  split; [exact Hx|]. split; [exact Hy|].
  exists m, hw, he, hn, hs. intuition.
Qed.

(** The test of the loop on a plate of bounded heights: a neighbour that
    is off the plate or not lower contributes a zero, and a zero factor
    makes the product zero, so the cells that pass are the cells a river
    starts from. *)
Lemma is_source_river p lower_bound x y :
  width (_bounds p) <= getWidth (_worldDimension p) ->
  height (_bounds p) <= getHeight (_worldDimension p) ->
  width (_bounds p) * height (_bounds p) <= U32.modulus ->
  Forall bounded_height (map p) ->
  ~ is_nan lower_bound ->
  0 <= x < width (_bounds p) -> 0 <= y < height (_bounds p) ->
  is_source p lower_bound (x, y) = Some true <-> river_source p lower_bound x y.
Proof.
  intros HwW HhH Harea Hmap Hlb Hx Hy.
  set (w := width (_bounds p)) in *. set (h := height (_bounds p)) in *.
  set (W := getWidth (_worldDimension p)) in *.
  set (H := getHeight (_worldDimension p)) in *.
  assert (Hi : index (_bounds p) x y = y * w + x)
    by (apply index_no_wrap; assumption).
  assert (Hrow : forall x', 0 <= x' < w ->
            U32.add (U32.mul y w) x' = y * w + x')
    by (intros x' Hx'; apply (index_no_wrap (_bounds p)); assumption).
  assert (Hcol : forall y', 0 <= y' < h ->
            U32.add (U32.mul y' w) x = y' * w + x)
    by (intros y' Hy'; apply (index_no_wrap (_bounds p)); assumption).
  rewrite is_source_true. fold w h W H. rewrite Hi. split.
  - intros (m & cw & ce & cn & cs & nb & Hm & Hlow & Hcc & Hprod).
    apply calculateCrust_Some in Hcc
      as (here & hw & he & hn & hs & Hhere & Hhw & Hhe & Hhn & Hhs
          & -> & -> & -> & ->).
    cbv zeta in *. fold W H in Hhw, Hhe, Hhn, Hhs, Hprod.
    rewrite Hm in Hhere. injection Hhere as <-.
    pose proof (load_Forall _ _ _ _ Hmap Hm) as Bm.
    pose proof (load_Forall _ _ _ _ Hmap Hhw) as Bw.
    pose proof (load_Forall _ _ _ _ Hmap Hhe) as Be.
    pose proof (load_Forall _ _ _ _ Hmap Hhn) as Bn.
    pose proof (load_Forall _ _ _ _ Hmap Hhs) as Bs.
    destruct (crust_cases hw m ((0 <? x) || (w =? W)) Bw) as (Sw & Kw & Zw).
    destruct (crust_cases he m ((x <? w - 1) || (w =? W)) Be) as (Se & Ke & Ze).
    destruct (crust_cases hn m ((0 <? y) || (h =? H)) Bn) as (Sn & Kn & Zn).
    destruct (crust_cases hs m ((y <? h - 1) || (h =? H)) Bs) as (Ss & Ks & Zs).
    cbv zeta in *.
    (* a direction that contributes a zero would make the product zero *)
    destruct (((0 <? x) || (w =? W)) && F32.ltb hw m) eqn:Ew;
      [|rewrite product_zero in Hprod by auto; discriminate].
    destruct (((x <? w - 1) || (w =? W)) && F32.ltb he m) eqn:Ee;
      [|rewrite product_zero in Hprod by auto; discriminate].
    destruct (((0 <? y) || (h =? H)) && F32.ltb hn m) eqn:En;
      [|rewrite product_zero in Hprod by auto; discriminate].
    destruct (((y <? h - 1) || (h =? H)) && F32.ltb hs m) eqn:Es;
      [|rewrite product_zero in Hprod by auto 6; discriminate].
    rewrite Kw, Ke, Kn, Ks in Hprod by reflexivity.
    apply andb_true_iff in Ew as [Mw Lw], Ee as [Me Le], En as [Mn Ln],
      Es as [Ms Ls].
    rewrite Mw in Hhw. rewrite Me in Hhe. rewrite Mn in Hhn. rewrite Ms in Hhs.
    rewrite (before_coordinate W w x) in Hhw by assumption.
    rewrite (after_coordinate W w x) in Hhe by assumption.
    rewrite (before_coordinate H h y) in Hhn by assumption.
    rewrite (after_coordinate H h y) in Hhs by assumption.
    rewrite Hrow in Hhw, Hhe by (apply Z.mod_pos_bound; lia).
    rewrite Hcol in Hhn, Hhs by (apply Z.mod_pos_bound; lia).
    split; [exact Hx|]. split; [exact Hy|].
    split; [now apply mask_before|]. split; [now apply mask_after|].
    split; [now apply mask_before|]. split; [now apply mask_after|].
    exists m, hw, he, hn, hs.
    assert (Hnan : ~ is_nan m).
    { destruct Bm as [_ Hs]. destruct m; cbn in *; tauto. }
    pose proof (not_ltb_leb m lower_bound Hnan Hlb Hlow).
    auto 12.
  - intros (_ & _ & Mw & Me & Mn & Ms & m & hw & he & hn & hs & Hm & Hhw & Hhe
            & Hhn & Hhs & Hlow & Lw & Le & Ln & Ls & Hprod).
    subst w h W H.
    apply mask_before in Mw, Mn. apply mask_after in Me, Ms.
    pose proof (load_Forall _ _ _ _ Hmap Hhw) as [Vw _].
    pose proof (load_Forall _ _ _ _ Hmap Hhe) as [Ve _].
    pose proof (load_Forall _ _ _ _ Hmap Hhn) as [Vn _].
    pose proof (load_Forall _ _ _ _ Hmap Hhs) as [Vs _].
    eexists m, hw, he, hn, hs, _.
    split; [exact Hm|]. split; [now apply leb_not_ltb|]. split; [|exact Hprod].
    unfold calculateCrust. rewrite Mw, Me, Mn, Ms.
    rewrite (before_coordinate _ _ x Hx HwW Mw), (after_coordinate _ _ x Hx HwW Me),
      (before_coordinate _ _ y Hy HhH Mn), (after_coordinate _ _ y Hy HhH Ms).
    rewrite !Hrow, !Hcol by (apply Z.mod_pos_bound; lia).
    rewrite Hm, Hhw, Hhe, Hhn, Hhs. cbn [mbind option_bind].
    rewrite Lw, Le, Ln, Ls. cbn [andb].
    change (F32.of_bool true) with F32.one. now rewrite !mul_one.
Qed.

(** C6, amended.  On a plate that lies in its world, with at most [2^32]
    cells and heights that are finite single-precision values below
    [2^32], [findRiverSources] appends to [sources], in loop order, the
    indices of exactly the cells a river starts from ([river_source]):
    the cells at least [lower_bound] high whose four directions are on
    the plate, whose four neighbours are strictly lower, and whose four
    neighbour heights have a single-precision product that is not zero.
    Every pushed cell is thus at least [lower_bound] high with four
    strictly lower neighbours; the converse fails. *)
Theorem findRiverSources_pushes p lower_bound sources out :
  width (_bounds p) <= getWidth (_worldDimension p) ->
  height (_bounds p) <= getHeight (_worldDimension p) ->
  width (_bounds p) * height (_bounds p) <= U32.modulus ->
  Forall bounded_height (map p) ->
  ~ is_nan lower_bound ->
  findRiverSources p lower_bound sources = Some out ->
  exists pushed,
    out = sources ++ pushed
    /\ (forall i, i ∈ pushed <->
          exists x y, i = y * width (_bounds p) + x
                      /\ river_source p lower_bound x y)
    /\ (forall i, i ∈ pushed ->
          exists x y, i = y * width (_bounds p) + x
                      /\ strict_peak p lower_bound x y).
Proof.
  intros HwW HhH Harea Hmap Hlb Hfind. apply river_source_loop in Hfind.
  eexists. split; [exact Hfind|].
  assert (Hiff : forall i,
    i ∈ (fun c => index (_bounds p) c.1 c.2)
          <$> filter (fun c => is_source p lower_bound c = Some true)
                     (plate_cells (_bounds p))
    <-> exists x y, i = y * width (_bounds p) + x
                    /\ river_source p lower_bound x y).
  { intros i. rewrite list_elem_of_fmap. split.
    - intros ([x y] & -> & Hc). apply list_elem_of_filter in Hc as [Hsrc Hc].
      apply elem_of_plate_cells in Hc as [Hx Hy]. exists x, y. cbn [fst snd].
      split; [now apply index_no_wrap|].
      now apply is_source_river.
    - intros (x & y & -> & Hsrc). pose proof Hsrc as (Hx & Hy & _).
      exists (x, y). cbn [fst snd]. split; [symmetry; now apply index_no_wrap|].
      apply list_elem_of_filter. split.
      + now apply is_source_river.
      + now apply elem_of_plate_cells. }
  split; [exact Hiff|].
  intros i Hi. apply Hiff in Hi as (x & y & -> & Hsrc).
  exists x, y. split; [reflexivity|]. now apply river_source_strict_peak.
Qed.

End RiverSources.

(** C6 as stated fails: the peak of scenario S5 is higher than the bound
    [0.5] and than its four neighbours, which are 0, and it is not
    pushed. *)
Lemma peak_is_not_pushed :
  let lower_bound := F32.div F32.one (F32.of_Z 2) in
  strict_peak Examples.plate_peak lower_bound 1 1
  /\ index (_bounds Examples.plate_peak) 1 1 = 4
  /\ findRiverSources Examples.plate_peak lower_bound [] = Some [].
Proof.
  split; [|split; vm_compute; reflexivity].
  unfold strict_peak. split; [cbn; lia|]. split; [cbn; lia|].
  exists (F32.of_Z 5), F32.zero, F32.zero, F32.zero, F32.zero.
  repeat split; vm_compute; reflexivity.
Qed.

(** The bound on the heights matters: with heights whose product
    overflows the test passes on a cell that is no peak.  The cell in
    the middle of this plate has a northern neighbour as high as it is,
    which counts as 0; the product of its western and eastern
    neighbours, [2^70 * 2^70], is infinite, infinity times 0 is a NaN,
    and a NaN is not equal to 0: the cell is pushed. *)
Lemma overflow_pushes_no_peak :
  let lower_bound := F32.div F32.one (F32.of_Z 2) in
  findRiverSources Examples.plate_steep lower_bound [] = Some [4]
  /\ index (_bounds Examples.plate_steep) 1 1 = 4
  /\ ~ strict_peak Examples.plate_steep lower_bound 1 1.
Proof.
  split; [vm_compute; reflexivity|]. split; [vm_compute; reflexivity|].
  intros (_ & _ & m & hw & he & hn & hs & Hm & _ & _ & Hn & _ & _ & _ & _
          & Hln & _).
  vm_compute in Hm, Hn. injection Hm as <-. injection Hn as <-.
  vm_compute in Hln. discriminate Hln.
Qed.

(** ** The constructor *)

Section Constructor.

Context {RandSource Movement : Type}.
Context `{!RandomSource RandSource} `{!Motion Movement RandSource}.

Lemma bind_nothing {A B : Type} (l : list A) : l ≫= (fun _ => @nil B) = [].
Proof. induction l as [|x l IH]; [reflexivity | exact IH]. Qed.

Lemma cell_numbers_zero_width (h : Z) : cell_numbers 0 h = [].
Proof. unfold cell_numbers. apply bind_nothing. Qed.

Lemma cell_numbers_zero_height (w : Z) : cell_numbers w 0 = [].
Proof. reflexivity. Qed.

(** The loops of a plate that has cells start with cell 0. *)
Lemma cell_numbers_first (w h : Z) :
  0 < w -> 0 < h -> exists ks, cell_numbers w h = 0 :: ks.
Proof.
  intros Hw Hh. unfold cell_numbers, range.
  rewrite (seqZ_cons 0 (h - 1 + 1 - 0)) by lia. cbn [mbind list_bind].
  rewrite (seqZ_cons 0 (w - 1 + 1 - 0)) by lia. cbn [mbind list_bind app].
  eexists. reflexivity.
Qed.

(** C3.  With a null array and a plate that has cells, the constructor
    reads the array, when it builds the mass in its member initializers,
    before its body tests the pointer: no [std::invalid_argument] is
    thrown. *)
Theorem null_heightmap_is_read (seed w h _x _y plate_age : Z) (wd : WorldDimension) :
  0 < w -> 0 < h ->
  plate_ctor (RandSource := RandSource) (Movement := Movement)
             seed None w h _x _y plate_age wd = InvalidRead.
Proof.
  intros Hw Hh. unfold plate_ctor, MassBuilder_build.
  destruct (cell_numbers_first w h Hw Hh) as [ks ->]. reflexivity.
Qed.

(** A zero width is reported as an invalid argument. *)
Lemma zero_width_is_invalid (seed h _x _y plate_age : Z) (wd : WorldDimension)
    (m : option (list float)) :
  plate_ctor (RandSource := RandSource) (Movement := Movement)
             seed m 0 h _x _y plate_age wd = InvalidArgument.
Proof.
  unfold plate_ctor, MassBuilder_build. rewrite cell_numbers_zero_width.
  cbn [for_each]. destruct (mv_init _ _). destruct m; reflexivity.
Qed.

(** A zero height is reported as an invalid argument. *)
Lemma zero_height_is_invalid (seed w _x _y plate_age : Z) (wd : WorldDimension)
    (m : option (list float)) :
  plate_ctor (RandSource := RandSource) (Movement := Movement)
             seed m w 0 _x _y plate_age wd = InvalidArgument.
Proof.
  unfold plate_ctor, MassBuilder_build. rewrite cell_numbers_zero_height.
  cbn [for_each]. destruct (mv_init _ _). destruct m; [|reflexivity].
  rewrite orb_true_r. reflexivity.
Qed.

End Constructor.

(** The hill in the middle of the small world, which its plate covers:
    the loop pushes its index, 4, and the cell is a strict peak. *)
Lemma findRiverSources_pushes_witness :
  let lower_bound := F32.div F32.one (F32.of_Z 2) in
  exists pushed,
    findRiverSources Examples.plate_hill lower_bound [] = Some ([] ++ pushed)
    /\ 4 ∈ pushed
    /\ exists x y,
         4 = y * 3 + x /\ strict_peak Examples.plate_hill lower_bound x y.
Proof.
  intros lower_bound.
  destruct (findRiverSources_pushes Examples.plate_hill lower_bound [] [4])
    as (pushed & Hout & Hiff & Hpeak);
    [ cbn; lia | cbn; lia | cbn; unfold U32.modulus; lia
    | let l := eval vm_compute in (map Examples.plate_hill) in
      change (map Examples.plate_hill) with l;
      repeat (apply Forall_cons_2; [split; [vm_compute; reflexivity | cbn; lia]|]);
      apply Forall_nil_2
    | intros []
    | vm_compute; reflexivity |].
  assert (Hin : 4 ∈ pushed).
  { apply Hiff. exists 1, 1. split; [reflexivity|].
    unfold river_source. cbn.
    do 2 (split; [lia|]). do 4 (split; [right; reflexivity|]).
    exists (F32.of_Z 5), F32.one, F32.one, F32.one, F32.one.
    repeat split; vm_compute; reflexivity. }
  exists pushed. split; [now rewrite <- Hout|]. split; [exact Hin|].
  exact (Hpeak 4 Hin).
Defined.

(** A null array for a 1 x 1 plate. *)
Lemma null_heightmap_is_read_witness :
  plate_ctor (RandSource := ConstantSource) (Movement := Velocity)
             1 None 1 1 2 2 5 Examples.world = InvalidRead.
Proof. apply null_heightmap_is_read; lia. Defined.

(** * Further properties of the plate *)

(** ** Loops over the cells of a rectangle *)

Section Loops.

Context {S A : Type}.
Implicit Types (body : S -> A -> option S) (l : list A) (s : S).

Lemma for_each_app body l1 l2 s :
  for_each body (l1 ++ l2) s = s' ← for_each body l1 s; for_each body l2 s'.
Proof.
  revert s. induction l1 as [|c l1 IH]; intros s; [reflexivity|].
  cbn [for_each app]. destruct (body s c) as [s1|]; [apply IH | reflexivity].
Qed.

(** A loop one of whose turns fails whatever the state fails. *)
Lemma for_each_fails body l s (c : A) :
  c ∈ l -> (forall s', body s' c = None) -> for_each body l s = None.
Proof.
  intros Hc Hfail. revert s. induction l as [|c' l IH]; intros s; [inv Hc|].
  cbn [for_each]. apply elem_of_cons in Hc as [<- | Hc].
  - now rewrite Hfail.
  - destruct (body s c'); [now apply IH | reflexivity].
Qed.

(** A property every turn keeps holds when the loop is over. *)
Lemma for_each_invariant (P : S -> Prop) body l s s' :
  (forall s1 c s2, c ∈ l -> P s1 -> body s1 c = Some s2 -> P s2) ->
  P s -> for_each body l s = Some s' -> P s'.
Proof.
  revert s. induction l as [|c l IH]; intros s Hstep Hs Hloop.
  - injection Hloop as <-. exact Hs.
  - cbn [for_each] in Hloop. destruct (body s c) as [s1|] eqn:Hb; [|discriminate].
    apply (IH s1); [| |exact Hloop].
    + intros s2 c' s3 Hc'. apply Hstep. now right.
    + apply (Hstep s c s1); [left | exact Hs | exact Hb].
Qed.

End Loops.

Lemma bind_singleton_fmap {A B : Type} (f : A -> B) (l : list A) :
  (x ← l; [f x]) = f <$> l.
Proof. induction l as [|x l IH]; [reflexivity|]. cbn. now rewrite <- IH. Qed.

Lemma fmap_bind_list {A B C : Type} (f : B -> C) (g : A -> list B) (l : list A) :
  f <$> (l ≫= g) = l ≫= (fun x => f <$> g x).
Proof.
  induction l as [|x l IH]; [reflexivity|].
  rewrite !bind_cons, fmap_app, IH. reflexivity.
Qed.

(** The indices of the cells of row [y]. *)
Lemma row_numbers (w y : Z) :
  0 <= w -> 0 <= y -> (y + 1) * w <= U32.modulus ->
  (x ← seqZ 0 w; [U32.add (U32.mul y w) x]) = seqZ (y * w) w.
Proof.
  intros Hw Hy Hb.
  rewrite <- (Z.add_0_r (y * w)) at 1. rewrite <- fmap_add_seqZ, <- bind_singleton_fmap.
  apply Forall_bind_ext, Forall_seqZ. intros x Hx. f_equal.
  unfold U32.add, U32.mul.
  rewrite (wrap_small (y * w)) by (unfold U32.in_range; nia).
  apply wrap_small. unfold U32.in_range. nia.
Qed.

(** The row-major numbering of the cells of a rectangle of [n] rows of
    [w] cells runs through [0, 1, ..., n * w - 1]. *)
Lemma row_major_numbers (w : Z) (n : nat) :
  0 <= w -> Z.of_nat n * w <= U32.modulus ->
  (y ← seqZ 0 (Z.of_nat n); x ← seqZ 0 w; [U32.add (U32.mul y w) x])
  = seqZ 0 (Z.of_nat n * w).
Proof.
  intros Hw. induction n as [|n IH]; intros Hn.
  - reflexivity.
  - rewrite seqZ_S, bind_app, IH by nia. cbn [mbind list_bind app].
    rewrite app_nil_r, Z.add_0_l, row_numbers by nia.
    replace (Z.of_nat (S n) * w) with (Z.of_nat n * w + w) by lia.
    rewrite seqZ_app by nia. reflexivity.
Qed.

Lemma cell_numbers_seqZ (w h : Z) :
  0 <= w -> 0 <= h -> w * h <= U32.modulus ->
  cell_numbers w h = seqZ 0 (w * h).
Proof.
  intros Hw Hh Hb. unfold cell_numbers, range.
  replace (h - 1 + 1 - 0) with (Z.of_nat (Z.to_nat h)) by lia.
  replace (w - 1 + 1 - 0) with w by lia.
  rewrite row_major_numbers by lia. f_equal. lia.
Qed.

Lemma index_plate_cells (r : Rectangle) :
  0 <= width r -> 0 <= height r -> width r * height r <= U32.modulus ->
  (fun c => index r c.1 c.2) <$> plate_cells r = seqZ 0 (width r * height r).
Proof.
  intros Hw Hh Hb. unfold plate_cells, range.
  rewrite fmap_bind_list.
  erewrite list_bind_ext; [| |reflexivity].
  2:{ intros y. rewrite fmap_bind_list. cbn [fmap list_fmap fst snd]. reflexivity. }
  unfold index.
  replace (height r - 1 + 1 - 0) with (Z.of_nat (Z.to_nat (height r))) by lia.
  replace (width r - 1 + 1 - 0) with (width r) by lia.
  rewrite row_major_numbers by lia. f_equal. lia.
Qed.

(** ** What the constructor builds *)

Section Construction.

Context {RandSource Movement : Type}.
Context `{!RandomSource RandSource} `{!Motion Movement RandSource}.

Lemma store_insert {A : Type} (buf : list A) (i : nat) (v : A) :
  (i < length buf)%nat -> store buf (Z.of_nat i) v = Some (<[i := v]> buf).
Proof.
  intros Hi. unfold store.
  destruct (Z.leb_spec 0 (Z.of_nat i)), (Z.ltb_spec (Z.of_nat i) (Z.of_nat (length buf)));
    try lia. cbn. now rewrite Nat2Z.id.
Qed.

Lemma insert_take_drop {A : Type} (l buf : list A) (n : nat) (c : A) :
  l !! n = Some c -> (n < length buf)%nat ->
  <[n := c]> (take n l ++ drop n buf) = take (S n) l ++ drop (S n) buf.
Proof.
  intros Hl Hb. pose proof (lookup_lt_Some _ _ _ Hl) as Hn.
  rewrite insert_app_r_alt by (rewrite length_take; lia).
  rewrite length_take_le by lia. rewrite Nat.sub_diag.
  rewrite (take_S_r _ _ _ Hl), <- app_assoc. f_equal.
  destruct (lookup_lt_is_Some_2 buf n Hb) as [b Hbn].
  now rewrite (drop_S _ _ _ Hbn).
Qed.

(** The loop of the constructor over the first [n] cells. *)
Lemma clone_loop (cells : list float) (plate_age : Z) (n : nat) :
  forall (heights : list float) (ages : list Z),
  (n <= length cells)%nat -> (n <= length heights)%nat -> (n <= length ages)%nat ->
  for_each (clone_cell cells plate_age) (seqZ 0 (Z.of_nat n)) (heights, ages)
  = Some (take n cells ++ drop n heights,
          ((fun c => Z.land plate_age (U32.mask (F32.gtb c F32.zero))) <$> take n cells)
            ++ drop n ages).
Proof.
  induction n as [|n IH]; intros heights ages Hc Hh Ha.
  - reflexivity.
  - rewrite seqZ_S, for_each_app, IH by lia. cbn [mbind option_bind for_each].
    destruct (lookup_lt_is_Some_2 cells n ltac:(lia)) as [c Hcell].
    unfold clone_cell. rewrite Z.add_0_l, load_lookup, Nat2Z.id, Hcell by lia.
    cbn [mbind option_bind].
    rewrite !store_insert
      by (rewrite length_app, ?length_fmap, length_take, length_drop; lia).
    cbn [mbind option_bind]. f_equal. f_equal.
    + now apply insert_take_drop.
    + rewrite (take_S_r _ _ _ Hcell), fmap_app. cbn [fmap list_fmap].
      rewrite <- app_assoc. cbn [app].
      rewrite insert_app_r_alt by (rewrite length_fmap, length_take; lia).
      rewrite length_fmap, length_take_le, Nat.sub_diag by lia. f_equal.
      destruct (lookup_lt_is_Some_2 ages n ltac:(lia)) as [b Hbn].
      now rewrite (drop_S _ _ _ Hbn).
Qed.

(** The mass builder sums the first [n] cells. *)
Lemma mass_loop (cells : list float) (n : nat) :
  (n <= length cells)%nat ->
  for_each (fun (acc : Mass) (k : Z) =>
              cells ← Some cells; c ← load cells k; Some (incMass acc c))
           (seqZ 0 (Z.of_nat n)) (mkMass F32.zero)
  = Some (mkMass (fold_left F32.add (take n cells) F32.zero)).
Proof.
  induction n as [|n IH]; intros Hn.
  - reflexivity.
  - rewrite seqZ_S, for_each_app, IH by lia. cbn [mbind option_bind for_each].
    destruct (lookup_lt_is_Some_2 cells n ltac:(lia)) as [c Hcell].
    rewrite Z.add_0_l, load_lookup, Nat2Z.id, Hcell by lia.
    cbn [mbind option_bind]. rewrite (take_S_r _ _ _ Hcell), fold_left_app.
    reflexivity.
Qed.

(** The plate the constructor builds from an array that has a height
    for every cell. *)
Lemma plate_ctor_value (seed : Z) (cells : list float)
    (w h _x _y plate_age : Z) (wd : WorldDimension) :
  0 < w -> 0 < h -> w * h < U32.modulus ->
  w * h <= Z.of_nat (length cells) ->
  U32.in_range plate_age ->
  plate_ctor (RandSource := RandSource) (Movement := Movement)
             seed (Some cells) w h _x _y plate_age wd
  = let heights := take (Z.to_nat (w * h)) cells in
    Constructed
      (mkPlate (mv_init (rs_seed seed) wd).2
               (mkMass (fold_left F32.add heights F32.zero))
               (mkRectangle wd (F32.of_Z _x) (F32.of_Z _y) w h)
               heights
               ((fun c => if F32.gtb c F32.zero then plate_age else 0) <$> heights)
               wd (mv_init (rs_seed seed) wd).1
               (mkSegments (replicate (Z.to_nat (w * h)) UNASSIGNED) [])).
Proof.
  intros Hw Hh Hb Hlen Hage. unfold plate_ctor, MassBuilder_build.
  rewrite cell_numbers_seqZ by lia.
  assert (Harea : U32.mul w h = w * h)
    by (apply wrap_small; unfold U32.in_range; nia).
  rewrite Harea.
  assert (Hn : w * h = Z.of_nat (Z.to_nat (w * h))) by lia.
  revert Hn Hlen. generalize (Z.to_nat (w * h)). intros n -> Hlen.
  rewrite mass_loop by lia.
  destruct (mv_init (rs_seed seed) wd) as [movement rs].
  destruct (Z.leb_spec w 0), (Z.leb_spec h 0); try lia. cbn [orb].
  rewrite clone_loop by (rewrite ?length_replicate; lia).
  cbv zeta. cbn [fst snd].
  rewrite !drop_ge by (rewrite length_replicate; lia). rewrite !app_nil_r.
  do 2 f_equal. apply list_fmap_ext. intros i c _. now apply land_mask.
Qed.

(** X1.  From an array that has a height for every cell of a plate of
    [w] x [h] cells the constructor builds a plate: its heights are the
    first [w * h] heights of the array, the age of a cell is [plate_age]
    where the height is above 0 and 0 elsewhere, no cell has a continent
    and there is no continent record, the mass is the sum of the
    heights, taken in order, and the rectangle is at [(_x, _y)]. *)
Theorem plate_ctor_clones (seed : Z) (cells : list float)
    (w h _x _y plate_age : Z) (wd : WorldDimension) :
  0 < w -> 0 < h -> w * h < U32.modulus ->
  w * h <= Z.of_nat (length cells) ->
  U32.in_range plate_age ->
  exists p : plate RandSource Movement,
    plate_ctor seed (Some cells) w h _x _y plate_age wd = Constructed p
    /\ map p = take (Z.to_nat (w * h)) cells
    /\ age_map p
       = (fun c => if F32.gtb c F32.zero then plate_age else 0)
           <$> take (Z.to_nat (w * h)) cells
    /\ _segments p = mkSegments (replicate (Z.to_nat (w * h)) UNASSIGNED) []
    /\ getMass (_mass p)
       = fold_left F32.add (take (Z.to_nat (w * h)) cells) F32.zero
    /\ _bounds p = mkRectangle wd (F32.of_Z _x) (F32.of_Z _y) w h
    /\ _worldDimension p = wd.
Proof.
  intros Hw Hh Hb Hlen Hage.
  rewrite plate_ctor_value by assumption. cbv zeta.
  eexists. split; [reflexivity|]. cbn. auto 10.
Qed.

(** X2.  A plate of no width or of no height is refused, whatever the
    array. *)
Theorem zero_dimension_is_invalid (seed w h _x _y plate_age : Z)
    (wd : WorldDimension) (m : option (list float)) :
  w = 0 \/ h = 0 ->
  plate_ctor (RandSource := RandSource) (Movement := Movement)
             seed m w h _x _y plate_age wd = InvalidArgument.
Proof.
  intros [-> | ->]; [apply zero_width_is_invalid | apply zero_height_is_invalid].
Qed.

(** X3.  An array that is shorter than the plate is read past its end
    when the mass is built. *)
Theorem short_heightmap_is_read_past_its_end (seed : Z) (cells : list float)
    (w h _x _y plate_age : Z) (wd : WorldDimension) :
  0 < w -> 0 < h -> w * h <= U32.modulus ->
  Z.of_nat (length cells) < w * h ->
  plate_ctor (RandSource := RandSource) (Movement := Movement)
             seed (Some cells) w h _x _y plate_age wd = InvalidRead.
Proof.
  intros Hw Hh Hb Hlen. unfold plate_ctor, MassBuilder_build.
  rewrite cell_numbers_seqZ by lia.
  rewrite (for_each_fails _ _ _ (Z.of_nat (length cells))); [reflexivity | |].
  - apply elem_of_seqZ. lia.
  - intros acc. cbn [mbind option_bind].
    rewrite load_lookup, Nat2Z.id by lia.
    now rewrite (lookup_ge_None_2 cells (length cells)).
Qed.

End Construction.

(** ** How far the rectangle grows *)

Section Growth.

Context {RandSource Movement : Type}.
Implicit Types (p : plate RandSource Movement).

Lemma scale8_eq (d : Z) :
  scale8 d
  = ((Z.b2z (0 <? d) + d / 8) mod U32.modulus * 8) mod U32.modulus.
Proof.
  unfold scale8, U32.shl, U32.add, U32.shr, U32.wrap.
  now rewrite Z.shiftl_mul_pow2, Z.shiftr_div_pow2 by lia.
Qed.

(** Without wrap-around the scaled growth is above the growth, by 8 at
    most. *)
Lemma scale8_bounds (d : Z) :
  0 <= d < U32.modulus - 8 ->
  (d = 0 -> scale8 d = 0) /\ (0 < d -> d < scale8 d <= d + 8).
Proof.
  intros Hd. rewrite scale8_eq. unfold U32.modulus in *.
  assert (Hb : 0 <= Z.b2z (0 <? d) <= 1) by (destruct (0 <? d); cbn; lia).
  pose proof (Z.div_mod d 8 ltac:(lia)) as Hdm.
  pose proof (Z.mod_pos_bound d 8 ltac:(lia)) as Hm.
  rewrite (Z.mod_small (_ + _)) by lia.
  rewrite (Z.mod_small (_ * 8)) by lia.
  split.
  - intros ->. reflexivity.
  - intros Hpos. destruct (Z.ltb_spec 0 d); [cbn [Z.b2z]; lia | lia].
Qed.

Lemma scale8_multiple (d : Z) : scale8 d mod 8 = 0.
Proof.
  rewrite scale8_eq. unfold U32.modulus.
  change (2 ^ 32) with (2 ^ 29 * 8).
  set (a := (_ + _) mod _). rewrite Z.mul_mod_distr_r by lia.
  apply Z.mod_mul. lia.
Qed.

Lemma scale8_zero : scale8 0 = 0.
Proof. reflexivity. Qed.

(** X4.  A growth is scaled to a multiple of 8: 0 stays 0, and a growth
    of [d > 0] cells becomes the least multiple of 8 above [d], so that
    a multiple of 8 grows by 8. *)
Theorem scale8_pads (d : Z) :
  0 <= d < U32.modulus - 8 ->
  scale8 d mod 8 = 0
  /\ (d = 0 -> scale8 d = 0)
  /\ (0 < d -> d < scale8 d <= d + 8).
Proof.
  intros Hd. split; [apply scale8_multiple | now apply scale8_bounds].
Qed.

(** The distance to one side once the two masks are applied: the
    distance itself when it is the one chosen and is less than the side
    of the world, 0 otherwise. *)
Lemma masked_distance (d : Z) (c1 c2 : bool) :
  U32.in_range d ->
  Z.land (Z.land d (U32.mask c1)) (U32.mask c2) = if c1 && c2 then d else 0.
Proof.
  intros Hd. rewrite (land_mask d c1 Hd). destruct c1; cbn [andb].
  - now apply land_mask.
  - apply Z.land_0_l.
Qed.

(** The growth, with its masks read as conditionals. *)
Lemma growth_unfold p x y :
  let W := getWidth (_worldDimension p) in
  let H := getHeight (_worldDimension p) in
  let ilft := leftAsUint (_bounds p) in
  let itop := topAsUint (_bounds p) in
  let irgt := rightAsUintNonInclusive (_bounds p) in
  let ibtm := bottomAsUintNonInclusive (_bounds p) in
  let _lft := U32.sub ilft x in
  let _rgt := U32.sub (U32.add (Z.land W (U32.mask (x <? ilft))) x) irgt in
  let _top := U32.sub itop y in
  let _btm := U32.sub (U32.add (Z.land H (U32.mask (y <? itop))) y) ibtm in
  let d_lft := scale8 (if (_lft <? _rgt) && (_lft <? W) then _lft else 0) in
  let d_rgt := scale8 (if (_rgt <=? _lft) && (_rgt <? W) then _rgt else 0) in
  let d_top := scale8 (if (_top <? _btm) && (_top <? H) then _top else 0) in
  let d_btm := scale8 (if (_btm <=? _top) && (_btm <? H) then _btm else 0) in
  let horizontal :=
    if W <? U32.add (U32.add (width (_bounds p)) d_lft) d_rgt
    then (0, U32.sub W (width (_bounds p))) else (d_lft, d_rgt) in
  let vertical :=
    if H <? U32.add (U32.add (height (_bounds p)) d_top) d_btm
    then (0, U32.sub H (height (_bounds p))) else (d_top, d_btm) in
  growth p x y = (horizontal.1, horizontal.2, vertical.1, vertical.2).
Proof.
  intros. unfold growth. cbv zeta.
  rewrite !masked_distance by apply sub_in_range.
  fold W H ilft itop irgt ibtm. fold _lft _rgt _top _btm.
  fold (scale8 (if (_lft <? _rgt) && (_lft <? W) then _lft else 0)).
  fold (scale8 (if (_rgt <=? _lft) && (_rgt <? W) then _rgt else 0)).
  fold (scale8 (if (_top <? _btm) && (_top <? H) then _top else 0)).
  fold (scale8 (if (_btm <=? _top) && (_btm <? H) then _btm else 0)).
  fold d_lft d_rgt d_top d_btm. subst horizontal vertical.
  destruct (W <? _); destruct (H <? _); reflexivity.
Qed.

(** X5.  The rectangle grows on one side at most in each direction; a
    growth to the left or to the top is a multiple of 8, and so is one
    to the right or to the bottom unless it is what the rectangle lacks
    to be as wide, or as high, as the world. *)
Theorem growth_one_side p x y d_lft d_rgt d_top d_btm :
  growth p x y = (d_lft, d_rgt, d_top, d_btm) ->
  (d_lft = 0 \/ d_rgt = 0) /\ (d_top = 0 \/ d_btm = 0)
  /\ d_lft mod 8 = 0 /\ d_top mod 8 = 0
  /\ (d_rgt mod 8 = 0
      \/ d_rgt = U32.sub (getWidth (_worldDimension p)) (width (_bounds p)))
  /\ (d_btm mod 8 = 0
      \/ d_btm = U32.sub (getHeight (_worldDimension p)) (height (_bounds p))).
Proof.
  rewrite growth_unfold. cbv zeta.
  set (_lft := U32.sub _ x). set (_rgt := U32.sub (U32.add _ x) _).
  set (_top := U32.sub _ y). set (_btm := U32.sub (U32.add _ y) _).
  intros [= <- <- <- <-].
  assert (Hh : scale8 (if (_lft <? _rgt) && (_lft <? getWidth (_worldDimension p))
                        then _lft else 0) = 0
               \/ scale8 (if (_rgt <=? _lft) && (_rgt <? getWidth (_worldDimension p))
                          then _rgt else 0) = 0).
  { destruct (Z.ltb_spec _lft _rgt), (Z.leb_spec _rgt _lft); try lia;
      cbn [andb]; auto using scale8_zero. }
  assert (Hv : scale8 (if (_top <? _btm) && (_top <? getHeight (_worldDimension p))
                        then _top else 0) = 0
               \/ scale8 (if (_btm <=? _top) && (_btm <? getHeight (_worldDimension p))
                          then _btm else 0) = 0).
  { destruct (Z.ltb_spec _top _btm), (Z.leb_spec _btm _top); try lia;
      cbn [andb]; auto using scale8_zero. }
  destruct (_ <? U32.add (U32.add (width _) _) _);
    destruct (_ <? U32.add (U32.add (height _) _) _); cbn [fst snd];
    repeat split; auto using scale8_multiple.
Qed.

(** The rectangle with its growth is at least as large as it was and no
    larger than the world. *)
Lemma growth_fits p x y d_lft d_rgt d_top d_btm :
  let W := getWidth (_worldDimension p) in
  let H := getHeight (_worldDimension p) in
  growth p x y = (d_lft, d_rgt, d_top, d_btm) ->
  W <= 2 ^ 30 -> H <= 2 ^ 30 ->
  0 <= width (_bounds p) <= W -> 0 <= height (_bounds p) <= H ->
  width (_bounds p) <= U32.add (width (_bounds p)) (U32.add d_lft d_rgt) <= W
  /\ height (_bounds p) <= U32.add (height (_bounds p)) (U32.add d_top d_btm) <= H.
Proof.
  intros W H. rewrite growth_unfold. cbv zeta. fold W H.
  set (_lft := U32.sub _ x). set (_rgt := U32.sub (U32.add _ x) _).
  set (_top := U32.sub _ y). set (_btm := U32.sub (U32.add _ y) _).
  intros [= <- <- <- <-] HW HH Hw Hh.
  assert (Hside : forall d other limit (strict : bool),
            U32.in_range d -> 0 <= limit <= 2 ^ 30 ->
            let raw := if (if strict then d <? other else d <=? other) && (d <? limit)
                       then d else 0 in
            0 <= scale8 raw <= limit + 8 /\ (raw = 0 -> scale8 raw = 0)).
  { intros d other limit strict Hd Hl raw.
    assert (Hraw : 0 <= raw < limit \/ raw = 0).
    { subst raw. destruct (if strict then _ else _); cbn [andb]; [|now right].
      destruct (Z.ltb_spec d limit); [left | now right].
      unfold U32.in_range in Hd. lia. }
    assert (Hr : 0 <= raw < U32.modulus - 8) by (unfold U32.modulus; lia).
    destruct (scale8_bounds raw Hr) as (H0 & Hpos).
    split; [|exact H0].
    destruct (Z.eq_dec raw 0) as [E|E]; [rewrite (H0 E); lia|].
    specialize (Hpos ltac:(lia)). lia. }
  assert (Hl := Hside _lft _rgt W true (sub_in_range _ _) ltac:(lia)).
  assert (Hr := Hside _rgt _lft W false (sub_in_range _ _) ltac:(lia)).
  assert (Ht := Hside _top _btm H true (sub_in_range _ _) ltac:(lia)).
  assert (Hb := Hside _btm _top H false (sub_in_range _ _) ltac:(lia)).
  cbv zeta in Hl, Hr, Ht, Hb. clear Hside.
  assert (Hone : forall d other limit,
            (if (d <? other) && (d <? limit) then d else 0) = 0
            \/ (if (other <=? d) && (other <? limit) then other else 0) = 0).
  { intros d other limit.
    destruct (Z.ltb_spec d other), (Z.leb_spec other d); try lia; cbn [andb]; auto. }
  assert (Hfit : forall size limit dl dr,
            0 <= size <= limit -> limit <= 2 ^ 30 ->
            0 <= dl <= limit + 8 -> 0 <= dr <= limit + 8 -> dl = 0 \/ dr = 0 ->
            let g := if limit <? U32.add (U32.add size dl) dr
                     then (0, U32.sub limit size) else (dl, dr) in
            size <= U32.add size (U32.add g.1 g.2) <= limit).
  { intros size limit dl dr Hs Hlim Hdl Hdr Hzero g. subst g.
    unfold U32.add, U32.sub in *.
    rewrite (wrap_small (size + dl)) by (unfold U32.in_range, U32.modulus; lia).
    rewrite (wrap_small (size + dl + dr)) by (unfold U32.in_range, U32.modulus; lia).
    destruct (Z.ltb_spec limit (size + dl + dr)); cbn [fst snd].
    - rewrite (wrap_small (limit - size)) by (unfold U32.in_range, U32.modulus; lia).
      rewrite (wrap_small (0 + _)) by (unfold U32.in_range, U32.modulus; lia).
      rewrite wrap_small by (unfold U32.in_range, U32.modulus; lia). lia.
    - rewrite (wrap_small (dl + dr)) by (unfold U32.in_range, U32.modulus; lia).
      rewrite wrap_small by (unfold U32.in_range, U32.modulus; lia). lia. }
  split.
  - apply Hfit; [lia | lia | apply Hl | apply Hr |].
    destruct (Hone _lft _rgt W) as [E|E]; [left; now apply Hl | right; now apply Hr].
  - apply Hfit; [lia | lia | apply Ht | apply Hb |].
    destruct (Hone _top _btm H) as [E|E]; [left; now apply Ht | right; now apply Hb].
Qed.

(** X6.  [setCrust] never makes the rectangle smaller, and never larger
    than the world. *)
Theorem setCrust_stays_in_world p x y z t p' :
  let W := getWidth (_worldDimension p) in
  let H := getHeight (_worldDimension p) in
  setCrust p x y z t = Some p' ->
  W <= 2 ^ 30 -> H <= 2 ^ 30 ->
  0 <= width (_bounds p) <= W -> 0 <= height (_bounds p) <= H ->
  width (_bounds p) <= width (_bounds p') <= W
  /\ height (_bounds p) <= height (_bounds p') <= H.
Proof.
  intros W H Hset HW HH Hw Hh. unfold setCrust in Hset.
  bind_inv Hset as [p1 i] eqn:Hloc.
  apply update_Some in Hset as (m & a & _ & _ & _ & _ & _ & Hb & _). rewrite Hb.
  unfold locate in Hloc. destruct (getMapIndex _ x y) as [[i0 lx] ly].
  destruct (i0 =? BAD_INDEX).
  - apply reframe_Some in Hloc.
    destruct (growth p _ _) as [[[d_lft d_rgt] d_top] d_btm] eqn:Hg.
    destruct Hloc as (_ & Hb1 & _). rewrite Hb1. cbn [grow shift width height].
    now apply (growth_fits _ _ _ _ _ _ _ Hg).
  - injection Hloc as <- <-. lia.
Qed.

End Growth.

(** ** The cell of a world position *)

Lemma getValidMapIndex_Some (r : Rectangle) (x y i lx ly : Z) :
  getValidMapIndex r x y = Some (i, lx, ly)
  <-> getMapIndex r x y = (i, lx, ly) /\ i <> BAD_INDEX.
Proof.
  unfold getValidMapIndex. destruct (getMapIndex r x y) as [[i0 lx0] ly0].
  destruct (Z.eqb_spec i0 BAD_INDEX); split.
  - discriminate.
  - intros [[= -> -> ->] Hne]. contradiction.
  - intros [= <- <- <-]. auto.
  - intros [[= -> -> ->] _]. reflexivity.
Qed.

(** World coordinates are looked up modulo the sides of the world. *)
Lemma getMapIndex_normalized (r : Rectangle) (x y : Z) :
  (getMapIndex r (x mod getWidth (r_world r)) (y mod getHeight (r_world r))).1.1
  = (getMapIndex r x y).1.1.
Proof.
  unfold getMapIndex. cbv zeta. rewrite !Zmod_mod.
  destruct (_ && _); reflexivity.
Qed.

(** ** [setCrust], continued *)

Section SetCrustMore.

Context {RandSource Movement : Type}.
Implicit Types (p : plate RandSource Movement).

(** The cell [setCrust] writes to is the cell of [(x, y)] in the
    rectangle the plate has afterwards. *)
Lemma locate_index p x y z p1 i :
  r_world (_bounds p) = _worldDimension p ->
  locate p x y z = Some (p1, i) ->
  (getMapIndex (_bounds p1) x y).1.1 = i /\ i <> BAD_INDEX
  /\ r_world (_bounds p1) = _worldDimension p1.
Proof.
  intros Hworld Hloc. unfold locate in Hloc.
  destruct (getMapIndex (_bounds p) x y) as [[i0 lx] ly] eqn:Hi.
  destruct (Z.eqb_spec i0 BAD_INDEX) as [_|Hne].
  - apply reframe_Some in Hloc.
    destruct (growth p _ _) as [[[d_lft d_rgt] d_top] d_btm].
    destruct Hloc as (_ & Hb & _ & _ & _ & Hwd & (lx' & ly' & Hv) & _).
    apply getValidMapIndex_Some in Hv as [Hv Hne]. rewrite <- Hb in Hv.
    assert (Hw1 : r_world (_bounds p1) = _worldDimension p)
      by (rewrite Hb; exact Hworld).
    split; [|split; [exact Hne | congruence]].
    rewrite <- getMapIndex_normalized, Hw1. cbn [normalize fst snd] in Hv.
    now rewrite Hv.
  - injection Hloc as <- <-. rewrite Hi. auto.
Qed.

Lemma getCrust_at p x y i :
  (getMapIndex (_bounds p) x y).1.1 = i -> i <> BAD_INDEX ->
  getCrust p x y = load (map p) i.
Proof.
  unfold getCrust. destruct (getMapIndex _ x y) as [[i0 lx] ly]. cbn.
  intros -> Hne. now destruct (Z.eqb_spec i BAD_INDEX).
Qed.

(** The cell [setCrust] has written, seen from the rectangle the plate
    has afterwards. *)
Lemma setCrust_written p x y z t p' :
  r_world (_bounds p) = _worldDimension p ->
  setCrust p x y z t = Some p' ->
  exists i,
    (getMapIndex (_bounds p') x y).1.1 = i /\ i <> BAD_INDEX
    /\ load (map p') i = Some (clamp z)
    /\ r_world (_bounds p') = _worldDimension p'.
Proof.
  intros Hworld Hset. unfold setCrust in Hset.
  bind_inv Hset as [p1 i] eqn:Hloc.
  apply (locate_index _ _ _ _ _ _ Hworld) in Hloc as (Hi & Hne & Hw1).
  apply update_Some in Hset as (m & a & _ & _ & _ & Hsm & _ & Hb & _ & Hwd & _).
  exists i. rewrite Hb. split; [exact Hi|]. split; [exact Hne|].
  split; [eapply load_store_eq; exact Hsm | congruence].
Qed.

(** X7.  After [setCrust(x, y, z, t)], whether or not the plate had to
    grow, [getCrust(x, y)] is [z], or 0 when [z] is negative. *)
Theorem setCrust_then_getCrust p x y z t p' :
  r_world (_bounds p) = _worldDimension p ->
  setCrust p x y z t = Some p' ->
  getCrust p' x y = Some (if F32.ltb z F32.zero then F32.zero else z).
Proof.
  intros Hworld Hset.
  destruct (setCrust_written _ _ _ _ _ _ Hworld Hset) as (i & Hi & Hne & Hz & _).
  rewrite (getCrust_at p' x y i Hi Hne). exact Hz.
Qed.

(** X8.  On a cell of its rectangle [setCrust] changes nothing but the
    crust and the age of that cell and the mass: the rectangle, the
    continents and every other cell stay as they were. *)
Theorem setCrust_inside_changes_one_cell p x y z t p' i lx ly :
  getMapIndex (_bounds p) x y = (i, lx, ly) -> i <> BAD_INDEX ->
  setCrust p x y z t = Some p' ->
  _bounds p' = _bounds p /\ _segments p' = _segments p
  /\ length (map p') = length (map p)
  /\ length (age_map p') = length (age_map p)
  /\ forall j, j <> i ->
       load (map p') j = load (map p) j
       /\ load (age_map p') j = load (age_map p) j.
Proof.
  intros Hi Hne Hset. unfold setCrust, locate in Hset. rewrite Hi in Hset.
  destruct (Z.eqb_spec i BAD_INDEX); [contradiction|].
  cbn [mbind option_bind] in Hset.
  apply update_Some in Hset as (m & a & _ & _ & Hsa & Hsm & _ & Hb & Hs & _).
  split; [exact Hb | split; [exact Hs|]].
  split; [eapply store_length; exact Hsm|].
  split; [eapply store_length; exact Hsa|].
  intros j Hj. split; eapply load_store_ne; eauto.
Qed.

(** X9.  Outside the rectangle there is nothing to clear: [setCrust] with
    a crust that is not above 0 on a cell outside the plate stops at the
    assertion of its growth. *)
Theorem setCrust_outside_needs_crust p x y z t :
  (getMapIndex (_bounds p) x y).1.1 = BAD_INDEX ->
  F32.gtb z F32.zero = false ->
  setCrust p x y z t = None.
Proof.
  intros Hout Hz. unfold setCrust, locate.
  destruct (getMapIndex _ x y) as [[i lx] ly]. cbn in Hout. subst i.
  rewrite Z.eqb_refl. unfold reframe.
  assert (Hc : F32.gtb (clamp z) F32.zero = false).
  { unfold clamp. destruct (F32.ltb z F32.zero); [reflexivity | exact Hz]. }
  rewrite Hc. reflexivity.
Qed.

End SetCrustMore.

(** ** The sizes of the buffers *)

Section Sizes.

Context {RandSource Movement : Type}.
Context `{!RandomSource RandSource} `{!Motion Movement RandSource}.
Implicit Types (p a b : plate RandSource Movement).

Lemma area_nonneg (r : Rectangle) : 0 <= area r.
Proof. apply wrap_in_range. Qed.

Lemma length_replicate_area {A : Type} (r : Rectangle) (v : A) :
  Z.of_nat (length (replicate (Z.to_nat (area r)) v)) = area r.
Proof. rewrite length_replicate. pose proof (area_nonneg r). lia. Qed.

Lemma copy_rows_length {A : Type} (n : nat) :
  forall j d_top d_lft new_width old_width (old tmp r : list A),
  copy_rows n j d_top d_lft new_width old_width old tmp = Some r ->
  length r = length tmp.
Proof.
  induction n as [|n IH]; intros j d_top d_lft nw ow old tmp r Hcopy.
  - now injection Hcopy as <-.
  - cbn [copy_rows] in Hcopy. bind_inv Hcopy as tmp' eqn:Hrow.
    rewrite (IH _ _ _ _ _ _ _ _ Hcopy). eapply memcpy_length. exact Hrow.
Qed.

(** The buffers of a reframed plate are allocated for its new
    rectangle. *)
Lemma reframe_well_formed p x y z p1 i :
  reframe p x y z = Some (p1, i) -> well_formed p1.
Proof.
  intros Hre. apply reframe_Some in Hre.
  destruct (growth p _ _) as [[[d_lft d_rgt] d_top] d_btm].
  destruct Hre as (_ & Hb & Hcopy & _).
  apply copy_old_plate_rows in Hcopy as (Hh & Ha & Hs).
  apply copy_rows_length in Hh, Ha, Hs. unfold well_formed.
  rewrite Hh, Ha, Hs, Hb, !length_replicate_area. auto.
Qed.

Lemma update_well_formed p i z t p' :
  update p i z t = Some p' -> well_formed p -> well_formed p'.
Proof.
  intros Hup (Hh & Ha & Hs).
  apply update_Some in Hup as (m & a & _ & _ & Hsa & Hsm & _ & Hb & Hseg & _).
  apply store_length in Hsa, Hsm. unfold well_formed.
  rewrite Hsa, Hsm, Hb, Hseg. auto.
Qed.

Lemma setCrust_keeps_sizes p x y z t p' :
  setCrust p x y z t = Some p' -> well_formed p -> well_formed p'.
Proof.
  intros Hset Hwf. unfold setCrust in Hset. bind_inv Hset as [p1 i] eqn:Hloc.
  apply (update_well_formed _ _ _ _ _ Hset).
  unfold locate in Hloc. destruct (getMapIndex _ x y) as [[i0 lx] ly].
  destruct (i0 =? BAD_INDEX).
  - eapply reframe_well_formed. exact Hloc.
  - now injection Hloc as <- <-.
Qed.

(** X10.  [setCrust] keeps one cell of crust, of age and of continent id
    for every cell of the rectangle, also when it enlarges the
    rectangle, and it keeps the rectangle in the world of the plate. *)
Theorem setCrust_well_formed p x y z t p' :
  setCrust p x y z t = Some p' ->
  well_formed p -> r_world (_bounds p) = _worldDimension p ->
  well_formed p' /\ r_world (_bounds p') = _worldDimension p'.
Proof.
  intros Hset Hwf Hworld. split.
  - eapply setCrust_keeps_sizes; eassumption.
  - destruct (setCrust_written _ _ _ _ _ _ Hworld Hset) as (i & _ & _ & _ & Hw).
    exact Hw.
Qed.

Lemma addCrustByCollision_keeps_sizes p x y z time c p' :
  addCrustByCollision p x y z time c = Some p' -> well_formed p -> well_formed p'.
Proof.
  intros Hadd Hwf. unfold addCrustByCollision in Hadd.
  bind_inv Hadd as old. bind_inv Hadd as p1 eqn:Hset.
  bind_inv Hadd as [[i lx] ly]. bind_inv Hadd as ids eqn:Hids.
  bind_inv Hadd as d. injection Hadd as <-.
  apply (setCrust_keeps_sizes _ _ _ _ _ _ Hset) in Hwf as (Hh & Ha & Hs).
  apply store_length in Hids. unfold well_formed. cbn. rewrite Hids. auto.
Qed.

Lemma aggregate_cell_keeps_sizes seg wx wy lx ly active a b c a' b' :
  aggregate_cell seg wx wy lx ly active (a, b) c = Some (a', b') ->
  well_formed a /\ well_formed b -> well_formed a' /\ well_formed b'.
Proof.
  intros Hstep [Ha Hb].
  apply aggregate_cell_Some in Hstep as (Hbd & Hs & Hag & _ & Hcase).
  destruct Hcase as [(_ & -> & ->) | (_ & Hstore & _ & Hdep)]; [auto|].
  split.
  - apply store_length in Hstore. destruct Ha as (Hh & Ha & Hi).
    unfold well_formed. rewrite Hstore, Hag, Hs, Hbd. auto.
  - unfold deposit in Hdep. eapply addCrustByCollision_keeps_sizes; eassumption.
Qed.

(** X11.  [aggregateCrust] keeps the buffers of both plates, the one that
    loses the continent and the one that receives it, of the size of
    their rectangles. *)
Theorem aggregateCrust_well_formed a b wx wy a' b' delta :
  aggregateCrust a b wx wy = Some (a', b', delta) ->
  well_formed a -> well_formed b -> well_formed a' /\ well_formed b'.
Proof.
  intros Hcall Ha Hb.
  destruct (aggregateCrust_Some _ _ _ _ _ _ _ Hcall)
    as (i & lx & ly & seg & d & _ & _ & _ & Hcase).
  destruct Hcase as [(_ & -> & -> & _)
                    | (_ & active & a2 & d2 & _ & Hloop & _ & -> & _)]; [auto|].
  assert (H2 : well_formed a2 /\ well_formed b').
  { revert Hloop.
    apply (for_each_invariant (fun st => well_formed st.1 /\ well_formed st.2));
      [|cbn; auto].
    intros [a1 b1] c [a3 b3] _ Hwf Hstep.
    eapply aggregate_cell_keeps_sizes; eassumption. }
  destruct H2 as [(Hh & Hag & Hs) Hb']. split; [|exact Hb'].
  unfold well_formed. cbn. auto.
Qed.

Lemma clone_cell_lengths (cells : list float) (plate_age : Z) (n : nat)
    (st st' : list float * list Z) (k : Z) :
  clone_cell cells plate_age st k = Some st' ->
  length st.1 = n /\ length st.2 = n -> length st'.1 = n /\ length st'.2 = n.
Proof.
  destruct st as [hs ags]. unfold clone_cell. intros H [Hh Ha].
  bind_inv H as c. bind_inv H as hs' eqn:Hhs. bind_inv H as ags' eqn:Hags.
  injection H as <-. apply store_length in Hhs, Hags. cbn in *. lia.
Qed.

(** X12.  A constructed plate has one cell of crust, of age and of
    continent id for every cell of its rectangle, and its rectangle
    lives in the world of the plate. *)
Theorem plate_ctor_well_formed (seed : Z) (m : option (list float))
    (w h _x _y plate_age : Z) (wd : WorldDimension) p :
  plate_ctor seed m w h _x _y plate_age wd = Constructed p ->
  well_formed p /\ r_world (_bounds p) = _worldDimension p
  /\ width (_bounds p) = w /\ height (_bounds p) = h.
Proof.
  unfold plate_ctor. destruct (MassBuilder_build m w h) as [mass|]; [|discriminate].
  destruct (mv_init _ wd) as [movement rs]. destruct m as [cells|]; [|discriminate].
  destruct (_ || _); [discriminate|].
  destruct (for_each _ _ _) as [[heights ages]|] eqn:Hloop; [|discriminate].
  intros [= <-]. cbn. split; [|auto].
  apply (for_each_invariant
           (fun st => length st.1 = Z.to_nat (U32.mul w h)
                      /\ length st.2 = Z.to_nat (U32.mul w h))) in Hloop.
  - destruct Hloop as [Hh Ha]. unfold well_formed, area. cbn in *.
    rewrite Hh, Ha, length_replicate.
    pose proof (wrap_in_range (w * h)) as Hr. unfold U32.in_range in Hr.
    unfold U32.mul. lia.
  - intros st c st' _ Hst Hstep. eapply clone_cell_lengths; eassumption.
  - cbn. now rewrite !length_replicate.
Qed.

End Sizes.

(** ** [addCrustByCollision] and [getContinentArea] *)

Section Collision.

Context {RandSource Movement : Type}.
Implicit Types (p : plate RandSource Movement).

(** [setCrust] leaves the continent records where they are; it moves
    their bounding boxes when it enlarges the rectangle. *)
Lemma setCrust_records p x y z t p' :
  setCrust p x y z t = Some p' ->
  seg_data (_segments p') = seg_data (_segments p)
  \/ exists dx dy, seg_data (_segments p') = shift_data dx dy <$> seg_data (_segments p).
Proof.
  intros Hset. unfold setCrust in Hset. bind_inv Hset as [p1 i] eqn:Hloc.
  apply update_Some in Hset as (m & a & _ & _ & _ & _ & _ & _ & -> & _).
  unfold locate in Hloc. destruct (getMapIndex _ x y) as [[i0 lx] ly].
  destruct (i0 =? BAD_INDEX).
  - apply reframe_Some in Hloc.
    destruct (growth p _ _) as [[[d_lft d_rgt] d_top] d_btm].
    destruct Hloc as (_ & _ & _ & Hd & _). right. eauto.
  - injection Hloc as <- <-. now left.
Qed.

Lemma setCrust_record p x y z t p' (c : Z) :
  setCrust p x y z t = Some p' ->
  match data (_segments p) c with
  | Some d => exists d', data (_segments p') c = Some d'
                         /\ sd_area d' = sd_area d /\ collCount d' = collCount d
                         /\ sd_exists d' = sd_exists d
  | None => data (_segments p') c = None
  end.
Proof.
  intros Hset. unfold data.
  destruct (setCrust_records _ _ _ _ _ _ Hset) as [-> | (dx & dy & ->)].
  - destruct (_ !! _) as [d|]; eauto.
  - rewrite list_lookup_fmap. destruct (_ !! _) as [d|]; cbn; eauto.
Qed.

(** What the call is made of. *)
Lemma addCrustByCollision_Some p x y z time c p' :
  addCrustByCollision p x y z time c = Some p' ->
  exists old p1 i lx ly ids d1,
    getCrust p x y = Some old
    /\ setCrust p x y (F32.add old z) time = Some p1
    /\ getValidMapIndex (_bounds p1) x y = Some (i, lx, ly)
    /\ store (seg_id (_segments p1)) i c = Some ids
    /\ data (_segments p1) c = Some d1
    /\ p' = with_segments p1
              (setData (reassign (_segments p1) ids) c
                       (enlarge_to_contain (incArea d1) lx ly)).
Proof.
  unfold addCrustByCollision. intros H.
  bind_inv H as old eqn:Hold. bind_inv H as p1 eqn:Hset.
  bind_inv H as [[i lx] ly] eqn:Hi. bind_inv H as ids eqn:Hids.
  bind_inv H as d1 eqn:Hd. injection H as <-.
  exists old, p1, i, lx, ly, ids, d1. auto 10.
Qed.

(** X13.  [addCrustByCollision(x, y, z, t, c)] adds [z] to the crust
    [getCrust(x, y)] gave before the call (0 for a cell outside the
    plate, which is then enlarged) and gives the cell to continent
    [c]. *)
Theorem addCrustByCollision_adds p x y z time c p' :
  r_world (_bounds p) = _worldDimension p ->
  addCrustByCollision p x y z time c = Some p' ->
  exists old,
    getCrust p x y = Some old
    /\ getCrust p' x y = Some (clamp (F32.add old z))
    /\ selectCollisionSegment p' x y = Some c.
Proof.
  intros Hworld Hadd.
  apply addCrustByCollision_Some in Hadd
    as (old & p1 & i & lx & ly & ids & d1 & Hold & Hset & Hi & Hids & Hd & ->).
  exists old. split; [exact Hold|]. split.
  - destruct (setCrust_written _ _ _ _ _ _ Hworld Hset) as (k & Hk & Hne & Hz & _).
    cbn [with_segments _bounds map].
    rewrite (getCrust_at _ x y k) by (cbn [with_segments _bounds]; assumption).
    exact Hz.
  - unfold selectCollisionSegment. cbn [with_segments _bounds _segments].
    rewrite Hi. cbn [mbind option_bind]. unfold idAt. cbn [setData reassign seg_id].
    pose proof (store_in_range _ _ _ _ Hids) as Hr.
    apply load_store_eq in Hids. now rewrite load_lookup in Hids by lia.
Qed.

(** X14.  The record of the continent has its area counted up by one and
    its bounding box enlarged to contain the cell, and
    [getContinentArea] at the cell gives the new area. *)
Theorem addCrustByCollision_grows_continent p x y z time c p' d :
  addCrustByCollision p x y z time c = Some p' ->
  data (_segments p) c = Some d ->
  exists d' i lx ly,
    getValidMapIndex (_bounds p') x y = Some (i, lx, ly)
    /\ data (_segments p') c = Some d'
    /\ sd_area d' = U32.add (sd_area d) 1
    /\ collCount d' = collCount d
    /\ getLeft d' <= lx <= getRight d' /\ getTop d' <= ly <= getBottom d'
    /\ getContinentArea p' x y = Some (U32.add (sd_area d) 1).
Proof.
  intros Hadd Hd.
  apply addCrustByCollision_Some in Hadd
    as (old & p1 & i & lx & ly & ids & d1 & Hold & Hset & Hi & Hids & Hd1 & ->).
  pose proof (setCrust_record _ _ _ _ _ _ c Hset) as Hrec. rewrite Hd in Hrec.
  destruct Hrec as (d1' & Hd1' & Harea & Hcount & _).
  rewrite Hd1 in Hd1'. injection Hd1' as <-.
  assert (Hc : (Z.to_nat c < length (seg_data (_segments p1)))%nat)
    by (eapply lookup_lt_Some; exact Hd1).
  assert (Hnew : data (setData (reassign (_segments p1) ids) c
                               (enlarge_to_contain (incArea d1) lx ly)) c
                 = Some (enlarge_to_contain (incArea d1) lx ly)).
  { unfold data, setData. cbn [seg_data reassign]. now apply list_lookup_insert_eq. }
  exists (enlarge_to_contain (incArea d1) lx ly), i, lx, ly.
  cbn [with_segments _bounds _segments].
  split; [exact Hi|]. split; [exact Hnew|].
  cbn [enlarge_to_contain incArea sd_area collCount getLeft getRight getTop getBottom].
  rewrite Harea. split; [reflexivity|]. split; [exact Hcount|].
  split; [lia|]. split; [lia|].
  unfold getContinentArea. cbn [with_segments _bounds _segments].
  rewrite Hi. cbn [mbind option_bind].
  assert (Hid : idAt (setData (reassign (_segments p1) ids) c
                        (enlarge_to_contain (incArea d1) lx ly)) i = Some c).
  { unfold idAt. cbn [setData reassign seg_id].
    pose proof (store_in_range _ _ _ _ Hids) as Hr.
    apply load_store_eq in Hids. now rewrite load_lookup in Hids by lia. }
  rewrite Hid. cbn [mbind option_bind].
  assert (Hsize : c < size (setData (reassign (_segments p1) ids) c
                              (enlarge_to_contain (incArea d1) lx ly))).
  { unfold size, setData. cbn [seg_data reassign]. rewrite length_insert. lia. }
  rewrite option_guard_True by exact Hsize. rewrite Hnew. cbn [mbind option_bind].
  cbn [enlarge_to_contain incArea sd_area]. now rewrite Harea.
Qed.

(** X15.  A continent id that has no record cannot receive crust: the
    call ends on the access to the missing record. *)
Theorem addCrustByCollision_needs_record p x y z time c :
  data (_segments p) c = None ->
  addCrustByCollision p x y z time c = None.
Proof.
  intros Hd. unfold addCrustByCollision.
  destruct (getCrust p x y) as [old|]; [|reflexivity]. cbn [mbind option_bind].
  destruct (setCrust p x y _ time) as [p1|] eqn:Hset; [|reflexivity].
  cbn [mbind option_bind].
  destruct (getValidMapIndex _ x y) as [[[i lx] ly]|]; [|reflexivity].
  cbn [mbind option_bind].
  destruct (store _ i c) as [ids|]; [|reflexivity]. cbn [mbind option_bind].
  pose proof (setCrust_record _ _ _ _ _ _ c Hset) as Hrec. rewrite Hd in Hrec.
  unfold data in *. cbn [reassign seg_data]. now rewrite Hrec.
Qed.

End Collision.

(** ** [addCrustBySubduction], continued *)

Section SubductionMore.

Context {RandSource Movement : Type}.
Context `{!RandomSource RandSource} `{!Motion Movement RandSource}.
Implicit Types (p : plate RandSource Movement).

Lemma displacement_source p dx dy :
  (displacement p dx dy).2
  = (rs_next (rs_next_double (_randsource p)).2).2.
Proof.
  unfold displacement, perturbation.
  destruct (rs_next_double (_randsource p)) as [d rs1]. cbn [snd].
  destruct (rs_next rs1) as [n rs2]. reflexivity.
Qed.

(** X16.  Every call that returns, whether it deposits the crust or drops
    it, takes two values from the random source, a double and then a
    word, and leaves the rectangle, the continents, the motion and the
    sizes of the buffers as they were. *)
Theorem addCrustBySubduction_draws_twice p x y z t dx dy p' :
  addCrustBySubduction p x y z t dx dy = Some p' ->
  _randsource p' = (rs_next (rs_next_double (_randsource p)).2).2
  /\ _bounds p' = _bounds p /\ _segments p' = _segments p
  /\ _movement p' = _movement p /\ _worldDimension p' = _worldDimension p
  /\ length (map p') = length (map p)
  /\ length (age_map p') = length (age_map p).
Proof.
  intros Hcall.
  destruct (subduction_target p x y dx dy) as [[fx fy]|] eqn:Htarget.
  2:{ unfold addCrustBySubduction in Hcall. rewrite Htarget in Hcall. discriminate. }
  rewrite (addCrustBySubduction_unfold _ _ _ _ _ _ _ _ _ Htarget) in Hcall.
  cbv zeta in Hcall. rewrite <- (displacement_source p dx dy).
  destruct (isInLimits _ fx fy); [|injection Hcall as <-; cbn; auto 10].
  bind_inv Hcall as m.
  destruct (F32.gtb m F32.zero); [|injection Hcall as <-; cbn; auto 10].
  bind_inv Hcall as a. bind_inv Hcall as ages eqn:Hages.
  bind_inv Hcall as heights eqn:Hheights. injection Hcall as <-. cbn.
  apply store_length in Hages, Hheights. auto 10.
Qed.

(** X17.  A deposit adds [z] to the crust of the target cell and to the
    mass, and leaves the crust and the age of every other cell as they
    were. *)
Theorem subduction_adds_crust p x y z t dx dy fx fy m p' :
  subduction_target p x y dx dy = Some (fx, fy) ->
  isInLimits (_bounds p) fx fy = true ->
  load (map p) (deposit_cell p fx fy) = Some m ->
  F32.gtb m F32.zero = true ->
  addCrustBySubduction p x y z t dx dy = Some p' ->
  load (map p') (deposit_cell p fx fy) = Some (F32.add m z)
  /\ getMass (_mass p') = F32.add (getMass (_mass p)) z
  /\ forall j, j <> deposit_cell p fx fy ->
       load (map p') j = load (map p) j
       /\ load (age_map p') j = load (age_map p) j.
Proof.
  intros Htarget Hin Hm Hland Hcall.
  destruct (subduction_deposit _ _ _ _ _ _ _ _ _ _ _ Htarget Hin Hm Hland Hcall)
    as (a & _ & Hages & Hheights & Hmass).
  split; [eapply load_store_eq; exact Hheights|].
  split; [now rewrite Hmass|].
  intros j Hj. split; eapply load_store_ne; eauto.
Qed.

End SubductionMore.

(** ** [aggregateCrust], continued *)

Section AggregationMore.

Context {RandSource Movement : Type}.
Implicit Types (a b p : plate RandSource Movement).

(** X18.  [aggregateCrust] leaves the bookkeeping of the source plate
    intact: its rectangle, its ages and the continent id of every cell
    are as before, also for the cells it has emptied, and so is every
    continent record but the one of the continent at [(wx, wy)], which
    is empty afterwards. *)
Theorem aggregateCrust_keeps_bookkeeping a b wx wy a' b' delta :
  aggregateCrust a b wx wy = Some (a', b', delta) ->
  _bounds a' = _bounds a /\ age_map a' = age_map a
  /\ seg_id (_segments a') = seg_id (_segments a)
  /\ exists i lx ly seg d',
       getValidMapIndex (_bounds a) wx wy = Some (i, lx, ly)
       /\ idAt (_segments a) i = Some seg
       /\ data (_segments a') seg = Some d' /\ isEmpty d' = true
       /\ forall c, Z.to_nat c <> Z.to_nat seg ->
            data (_segments a') c = data (_segments a) c.
Proof.
  intros Hcall.
  destruct (aggregateCrust_Some _ _ _ _ _ _ _ Hcall)
    as (i & lx & ly & seg & d & Hi & Hseg & Hd & Hcase).
  destruct Hcase as [(Hempty & -> & -> & _)
                    | (_ & active & a2 & d2 & _ & Hloop & Hd2 & -> & _)].
  - repeat split; try reflexivity. exists i, lx, ly, seg, d. auto.
  - assert (Hframe : _bounds a2 = _bounds a /\ _segments a2 = _segments a
                     /\ age_map a2 = age_map a).
    { revert Hloop.
      apply (for_each_invariant
               (fun st => _bounds st.1 = _bounds a /\ _segments st.1 = _segments a
                          /\ age_map st.1 = age_map a)); [|cbn; auto].
      intros [a1 b1] c [a3 b3] _ (Hb1 & Hs1 & Hg1) Hstep.
      apply aggregate_cell_Some in Hstep as (Hb3 & Hs3 & Hg3 & _).
      cbn in *. repeat split; congruence. }
    destruct Hframe as (Hb & Hs & Hg). cbn [with_segments _bounds age_map _segments].
    split; [exact Hb|]. split; [exact Hg|].
    split; [cbn [setData seg_id]; now rewrite Hs|].
    exists i, lx, ly, seg, (markNonExistent d2).
    split; [exact Hi|]. split; [exact Hseg|].
    unfold data in *. cbn [setData seg_data]. rewrite Hs in *.
    split; [apply list_lookup_insert_eq; eapply lookup_lt_Some; exact Hd2|].
    split; [reflexivity|].
    intros c Hc. apply list_lookup_insert_ne. congruence.
Qed.

(** X19.  A cell that has no continent, its id being [0xFFFFFFFF], cannot
    be aggregated nor asked for the area of its continent: both calls
    end on the access to a record that does not exist. *)
Theorem unassigned_cell_has_no_record a b wx wy i lx ly :
  getValidMapIndex (_bounds a) wx wy = Some (i, lx, ly) ->
  idAt (_segments a) i = Some UNASSIGNED ->
  size (_segments a) <= UNASSIGNED ->
  aggregateCrust a b wx wy = None /\ getContinentArea a wx wy = None.
Proof.
  intros Hi Hid Hsize.
  assert (Hd : data (_segments a) UNASSIGNED = None).
  { unfold data. apply lookup_ge_None_2. unfold size in Hsize. lia. }
  split.
  - unfold aggregateCrust. rewrite Hi. cbn [mbind option_bind].
    rewrite Hid. cbn [mbind option_bind]. now rewrite Hd.
  - unfold getContinentArea. rewrite Hi. cbn [mbind option_bind].
    rewrite Hid. cbn [mbind option_bind].
    rewrite option_guard_False by lia. reflexivity.
Qed.

End AggregationMore.

(** ** [findRiverSources], continued *)

Section RiverSourcesMore.

Context {RandSource Movement : Type}.
Implicit Types (p : plate RandSource Movement).

Lemma StronglySorted_seqZ (m : Z) (n : nat) :
  StronglySorted Z.lt (seqZ m (Z.of_nat n)).
Proof.
  revert m. induction n as [|n IH]; intros m; [constructor|].
  rewrite seqZ_cons by lia. constructor.
  - replace (Z.pred (Z.of_nat (S n))) with (Z.of_nat n) by lia. apply IH.
  - apply Forall_seqZ. lia.
Qed.

Lemma StronglySorted_fmap_filter {A : Type} (f : A -> Z) (P : A -> Prop)
    `{!forall x, Decision (P x)} (l : list A) :
  StronglySorted Z.lt (f <$> l) -> StronglySorted Z.lt (f <$> filter P l).
Proof.
  induction l as [|x l IH]; [trivial|].
  rewrite fmap_cons. intros Hs. apply StronglySorted_inv in Hs as [Hs Hx].
  destruct (decide (P x)) as [HP|HP].
  - rewrite filter_cons_True, fmap_cons by exact HP. constructor; [now apply IH|].
    rewrite Forall_fmap in *. apply Forall_forall. intros c Hc.
    apply (proj1 (Forall_forall _ _) Hx).
    apply list_elem_of_filter in Hc. tauto.
  - rewrite filter_cons_False by exact HP. now apply IH.
Qed.

(** X20.  The indices [findRiverSources] pushes come in increasing order,
    each cell once at most, and are indices of cells of the plate. *)
Theorem findRiverSources_in_order p lower_bound sources out :
  0 <= width (_bounds p) -> 0 <= height (_bounds p) ->
  width (_bounds p) * height (_bounds p) <= U32.modulus ->
  findRiverSources p lower_bound sources = Some out ->
  exists pushed,
    out = sources ++ pushed
    /\ StronglySorted Z.lt pushed
    /\ Forall (fun i => 0 <= i < width (_bounds p) * height (_bounds p)) pushed.
Proof.
  intros Hw Hh Hb Hfind. apply river_source_loop in Hfind.
  eexists. split; [exact Hfind|].
  pose proof (index_plate_cells (_bounds p) Hw Hh Hb) as Hcells.
  split.
  - apply StronglySorted_fmap_filter. rewrite Hcells.
    replace (width (_bounds p) * height (_bounds p))
      with (Z.of_nat (Z.to_nat (width (_bounds p) * height (_bounds p)))) by nia.
    apply StronglySorted_seqZ.
  - apply Forall_fmap, Forall_forall. intros c Hc.
    apply list_elem_of_filter in Hc as [_ Hc].
    assert (Hin : index (_bounds p) c.1 c.2
                  ∈ (fun c => index (_bounds p) c.1 c.2) <$> plate_cells (_bounds p))
      by (apply list_elem_of_fmap; exists c; auto).
    rewrite Hcells in Hin. apply elem_of_seqZ in Hin. cbn. lia.
Qed.

End RiverSourcesMore.

(** ** [flowRivers] *)

Section Rivers.

Context {RandSource Movement : Type}.
Implicit Types (p : plate RandSource Movement).

(** Marking a cell that was not marked leaves one cell less to mark. *)
Lemma not_done_insert (isDone : list Z) (n : nat) :
  isDone !! n = Some 0 ->
  not_done isDone = S (not_done (<[n := 1]> isDone)).
Proof.
  unfold not_done. revert n. induction isDone as [|v l IH]; intros n Hn; [discriminate|].
  destruct n as [|n]; cbn in Hn.
  - injection Hn as ->. change (<[0%nat := 1]> (0 :: l)) with (1 :: l).
    rewrite filter_cons_True, filter_cons_False by lia. reflexivity.
  - change (<[S n := 1]> (v :: l)) with (v :: <[n := 1]> l).
    destruct (decide (v = 0)).
    + rewrite !filter_cons_True by assumption. cbn [length]. f_equal. now apply IH.
    + rewrite !filter_cons_False by assumption. now apply IH.
Qed.

Lemma not_done_store (isDone isDone' : list Z) (dest : Z) :
  load isDone dest = Some 0 -> store isDone dest 1 = Some isDone' ->
  not_done isDone = S (not_done isDone').
Proof.
  intros Hl Hs. pose proof (load_Some _ _ _ Hl) as Hr.
  rewrite load_lookup in Hl by lia. unfold store in Hs.
  destruct (_ && _); [|discriminate]. injection Hs as <-.
  now apply not_done_insert.
Qed.

(** One turn of the inner loop: at most one cell is marked and pushed,
    and at most the height of the cell itself, which is not below
    [lower_bound], is changed. *)
Lemma flow_cell_Some p lower_bound sinks isDone tmp index sinks' isDone' tmp' :
  flow_cell p lower_bound (sinks, isDone, tmp) index = Some (sinks', isDone', tmp') ->
  ((sinks' = sinks /\ isDone' = isDone)
   \/ exists dest, dest < area (_bounds p) /\ load isDone dest = Some 0
                   /\ store isDone dest 1 = Some isDone'
                   /\ sinks' = sinks ++ [dest])
  /\ (tmp' = tmp
      \/ exists m t, load (map p) index = Some m
                     /\ F32.ltb m lower_bound = false
                     /\ load tmp index = Some t
                     /\ store tmp index (eroded t lower_bound) = Some tmp').
Proof.
  unfold flow_cell. intros H.
  bind_inv H as Hw. bind_inv H as m eqn:Hm.
  destruct (F32.ltb m lower_bound) eqn:Hlow; [injection H as <- <- <-; auto|].
  bind_inv H as [[[[w e] n] s] nb].
  destruct (F32.eqb _ F32.zero); [injection H as <- <- <-; auto|].
  destruct (lowest_neighbour _ _ _ _ _ _) as [lowest dest].
  bind_inv H as [sinks1 isDone1] eqn:Hsink. bind_inv H as t eqn:Ht.
  bind_inv H as tmp1 eqn:Hst. injection H as <- <- <-.
  split; [|right; exists m, t; auto].
  destruct (Z.ltb_spec dest (area (_bounds p))) as [Hd|Hd].
  - bind_inv Hsink as done eqn:Hdone.
    destruct (Z.eqb_spec done 0) as [->|Hne].
    + bind_inv Hsink as isDone2 eqn:Hmark. injection Hsink as <- <-.
      right. exists dest. auto.
    + injection Hsink as <- <-. auto.
  - injection Hsink as <- <-. auto.
Qed.

(** The inner loop over the cells [l]: every cell it pushes is a cell
    it marks, and the heights of the cells below [lower_bound] are not
    touched. *)
Lemma flow_round p lower_bound (l : list Z) :
  forall sinks isDone tmp sinks' isDone' tmp',
  for_each (flow_cell p lower_bound) l (sinks, isDone, tmp)
  = Some (sinks', isDone', tmp') ->
  (length sinks' + not_done isDone' = length sinks + not_done isDone)%nat
  /\ length tmp' = length tmp
  /\ forall j m, load (map p) j = Some m -> F32.ltb m lower_bound = true ->
       load tmp' j = load tmp j.
Proof.
  induction l as [|index l IH]; intros sinks isDone tmp sinks' isDone' tmp' Hloop.
  - injection Hloop as <- <- <-. auto.
  - cbn [for_each] in Hloop. bind_inv Hloop as [[sinks1 isDone1] tmp1] eqn:Hstep.
    apply flow_cell_Some in Hstep as [Hsink Htmp].
    apply IH in Hloop as (Hcount & Hlen & Hframe).
    split; [|split].
    + destruct Hsink as [[-> ->] | (dest & _ & Hl & Hs & ->)]; [exact Hcount|].
      rewrite (not_done_store _ _ _ Hl Hs). rewrite length_app in Hcount.
      cbn in Hcount. lia.
    + destruct Htmp as [-> | (m & t & _ & _ & _ & Hs)]; [exact Hlen|].
      rewrite Hlen. eapply store_length. exact Hs.
    + intros j m Hj Hlow. rewrite (Hframe j m Hj Hlow).
      destruct Htmp as [-> | (m' & t & Hm' & Hlow' & _ & Hs)]; [reflexivity|].
      eapply load_store_ne; [exact Hs|]. intros ->. congruence.
Qed.

(** With more turns than there are cells left to mark the outer loop
    comes to an end. *)
Lemma flow_rounds_end p lower_bound (fuel : nat) :
  forall sources isDone tmp,
  (not_done isDone < fuel)%nat ->
  flow_rounds fuel p lower_bound sources isDone tmp <> Unfinished.
Proof.
  induction fuel as [|fuel IH]; intros sources isDone tmp Hfuel; [lia|].
  destruct sources as [|c l]; [discriminate|]. cbn [flow_rounds].
  destruct (for_each _ _ _) as [[[sinks isDone'] tmp']|] eqn:Hround; [|discriminate].
  apply flow_round in Hround as (Hcount & _). cbn [length] in Hcount.
  destruct sinks as [|s sinks]; [destruct fuel; discriminate|].
  apply IH. cbn [length] in Hcount. lia.
Qed.

(** A loop that has come to an end is not changed by more turns. *)
Lemma flow_rounds_more p lower_bound (fuel : nat) :
  forall (extra : nat) sources isDone tmp,
  flow_rounds fuel p lower_bound sources isDone tmp <> Unfinished ->
  flow_rounds (fuel + extra) p lower_bound sources isDone tmp
  = flow_rounds fuel p lower_bound sources isDone tmp.
Proof.
  induction fuel as [|fuel IH]; intros extra sources isDone tmp Hend.
  - destruct sources; [destruct extra; reflexivity | contradiction].
  - destruct sources as [|c l]; [reflexivity|]. cbn [flow_rounds Nat.add] in *.
    destruct (for_each _ _ _) as [[[sinks isDone'] tmp']|]; [|reflexivity].
    now apply IH.
Qed.

(** X21.  [flowRivers] comes to an end: its outer loop takes one turn for
    every set of cells it has newly marked, so that one turn more than
    the plate has cells is enough, and more turns change nothing. *)
Theorem flowRivers_terminates p lower_bound sources tmp (extra : nat) :
  flow_rounds (S (Z.to_nat (area (_bounds p))) + extra) p lower_bound sources
              (replicate (Z.to_nat (area (_bounds p))) 0) tmp
  = match flowRivers p lower_bound sources tmp with
    | Some tmp' => Finished tmp'
    | None => Aborted
    end.
Proof.
  assert (Hend : flow_rounds (S (Z.to_nat (area (_bounds p)))) p lower_bound sources
                   (replicate (Z.to_nat (area (_bounds p))) 0) tmp <> Unfinished).
  { apply flow_rounds_end. unfold not_done.
    pose proof (length_filter (fun v => v = 0)
                  (replicate (Z.to_nat (area (_bounds p))) 0)) as Hle.
    rewrite length_replicate in Hle. lia. }
  rewrite (flow_rounds_more _ _ _ _ _ _ _ Hend). unfold flowRivers.
  destruct (flow_rounds _ _ _ _ _ _); [reflexivity | reflexivity | contradiction].
Qed.

Lemma flow_rounds_frame p lower_bound (fuel : nat) :
  forall sources isDone tmp tmp',
  flow_rounds fuel p lower_bound sources isDone tmp = Finished tmp' ->
  length tmp' = length tmp
  /\ forall j m, load (map p) j = Some m -> F32.ltb m lower_bound = true ->
       load tmp' j = load tmp j.
Proof.
  induction fuel as [|fuel IH]; intros sources isDone tmp tmp' Hrun.
  - destruct sources; [injection Hrun as <-; auto | discriminate].
  - destruct sources as [|c l]; [injection Hrun as <-; auto|].
    cbn [flow_rounds] in Hrun.
    destruct (for_each _ _ _) as [[[sinks isDone'] tmp1]|] eqn:Hround; [|discriminate].
    apply flow_round in Hround as (_ & Hlen & Hframe).
    apply IH in Hrun as (Hlen' & Hframe').
    split; [congruence|]. intros j m Hj Hlow.
    rewrite (Hframe' j m Hj Hlow). now apply (Hframe j m).
Qed.

Lemma flowRivers_Some p lower_bound sources tmp tmp' :
  flowRivers p lower_bound sources tmp = Some tmp' ->
  flow_rounds (S (Z.to_nat (area (_bounds p)))) p lower_bound sources
              (replicate (Z.to_nat (area (_bounds p))) 0) tmp
  = Finished tmp'.
Proof.
  unfold flowRivers. intros Hrun.
  destruct (flow_rounds _ _ _ _ _ _) as [t| |]; try discriminate.
  now injection Hrun as ->.
Qed.

(** X22.  [flowRivers] carves land only: the heights it is given keep
    their number, and the height of every cell that is below
    [lower_bound] on the plate is left as it was. *)
Theorem flowRivers_carves_land_only p lower_bound sources tmp tmp' :
  flowRivers p lower_bound sources tmp = Some tmp' ->
  length tmp' = length tmp
  /\ forall j m, load (map p) j = Some m -> F32.ltb m lower_bound = true ->
       load tmp' j = load tmp j.
Proof.
  intros Hrun. apply flowRivers_Some in Hrun.
  eapply flow_rounds_frame. exact Hrun.
Qed.

End Rivers.

(** ** [erode] *)

Section Erosion.

Context {RandSource Movement : Type}.
Context `{!RandomSource RandSource} `{!Motion Movement RandSource}.
Implicit Types (p : plate RandSource Movement).

Lemma add_at_length (buf : list float) (i : Z) (v : float) (buf' : list float) :
  add_at buf i v = Some buf' -> length buf' = length buf.
Proof.
  unfold add_at. intros H. bind_inv H as t. eapply store_length. exact H.
Qed.

Lemma sub_at_length (buf : list float) (i : Z) (v : float) (buf' : list float) :
  sub_at buf i v = Some buf' -> length buf' = length buf.
Proof.
  unfold sub_at. intros H. bind_inv H as t. eapply store_length. exact H.
Qed.

(** The updates of the new heights one after the other, each with the
    length it keeps. *)
Ltac buffer_updates H :=
  repeat match type of H with
         | mbind _ (add_at ?b ?i ?v) = Some _ =>
             let t := fresh "tmpHm" in
             let E := fresh "E" in
             destruct (add_at b i v) as [t|] eqn:E;
             cbn [mbind option_bind] in H;
             [apply add_at_length in E | discriminate H]
         | mbind _ (sub_at ?b ?i ?v) = Some _ =>
             let t := fresh "tmpHm" in
             let E := fresh "E" in
             destruct (sub_at b i v) as [t|] eqn:E;
             cbn [mbind option_bind] in H;
             [apply sub_at_length in E | discriminate H]
         end.

(** One turn of the redistribution keeps the number of heights. *)
Lemma slope_cell_length p lower_bound tmpHm mass c tmpHm' mass' :
  slope_cell p lower_bound (tmpHm, mass) c = Some (tmpHm', mass') ->
  length tmpHm' = length tmpHm.
Proof.
  unfold slope_cell. destruct c as [x y]. intros H.
  bind_inv H as m. cbv zeta in H. buffer_updates H.
  destruct (F32.ltb m lower_bound); [injection H as <- _; assumption|].
  bind_inv H as [[[[w_crust e_crust] n_crust] s_crust] [[[w e] n] s]].
  destruct (F32.eqb _ F32.zero); [injection H as <- _; assumption|].
  cbv zeta in H. bind_inv H as Hsum.
  match type of H with (if ?c then _ else _) = _ => destruct c end;
    buffer_updates H; injection H as <- _; congruence.
Qed.

(** The noise loop takes one double from the source for every cell. *)
Lemma noise_loop (l : list Z) :
  forall (tmpHm : list float) (rs : RandSource) tmpHm' rs',
  for_each noise_cell l (tmpHm, rs) = Some (tmpHm', rs') ->
  length tmpHm' = length tmpHm /\ rs' = draws (length l) rs.
Proof.
  induction l as [|i l IH]; intros tmpHm rs tmpHm' rs' Hloop.
  - injection Hloop as <- <-. auto.
  - cbn [for_each] in Hloop. bind_inv Hloop as [tmp1 rs1] eqn:Hstep.
    apply IH in Hloop as [Hlen ->]. unfold noise_cell in Hstep.
    destruct (rs_next_double rs) as [d rs2] eqn:Hd.
    bind_inv Hstep as t. bind_inv Hstep as tmp2 eqn:Hs.
    injection Hstep as <- <-. apply store_length in Hs.
    split; [congruence|]. unfold draws. cbn [length].
    rewrite Nat.iter_succ_r, Hd. reflexivity.
Qed.

(** What [erode] is made of. *)
Lemma erode_Some p lower_bound p' :
  erode p lower_bound = Some p' ->
  exists sources carved noisy rs heights mass,
    findRiverSources p lower_bound [] = Some sources
    /\ flowRivers p lower_bound sources (map p) = Some carved
    /\ for_each noise_cell (range 0 (area (_bounds p) - 1)) (carved, _randsource p)
       = Some (noisy, rs)
    /\ for_each (slope_cell (with_randsource (with_map p noisy) rs) lower_bound)
                (plate_cells (_bounds p))
                (replicate (length noisy) F32.zero, mkMass F32.zero)
       = Some (heights, mass)
    /\ p' = with_mass (with_map (with_randsource (with_map p noisy) rs) heights) mass.
Proof.
  unfold erode. intros H.
  bind_inv H as sources eqn:Hsrc. bind_inv H as carved eqn:Hflow.
  bind_inv H as [noisy rs] eqn:Hnoise. cbv zeta in H.
  bind_inv H as [heights mass] eqn:Hslope. injection H as <-.
  exists sources, carved, noisy, rs, heights, mass. auto 10.
Qed.

Lemma erode_lengths p lower_bound p' :
  erode p lower_bound = Some p' -> length (map p') = length (map p).
Proof.
  intros H. apply erode_Some in H
    as (sources & carved & noisy & rs & heights & mass
        & _ & Hflow & Hnoise & Hslope & ->).
  apply flowRivers_Some, flow_rounds_frame in Hflow as [Hcarved _].
  apply noise_loop in Hnoise as [Hnoisy _].
  assert (Hh : length heights = length noisy).
  { apply (for_each_invariant (fun st => length st.1 = length noisy)) in Hslope.
    - exact Hslope.
    - intros [t1 m1] c [t2 m2] _ Hst Hstep. cbn [fst] in Hst |- *.
      rewrite <- Hst. eapply slope_cell_length. exact Hstep.
    - cbn. apply length_replicate. }
  cbn. congruence.
Qed.

(** X23.  [erode] works in place: the rectangle, the ages, the
    continents, the motion and the number of heights of the plate are
    as they were before the call; only heights, the mass and the random
    source change. *)
Theorem erode_keeps_bookkeeping p lower_bound p' :
  erode p lower_bound = Some p' ->
  _bounds p' = _bounds p /\ age_map p' = age_map p
  /\ _segments p' = _segments p /\ _movement p' = _movement p
  /\ _worldDimension p' = _worldDimension p
  /\ length (map p') = length (map p)
  /\ (well_formed p -> well_formed p').
Proof.
  intros H. pose proof (erode_lengths _ _ _ H) as Hlen.
  apply erode_Some in H
    as (sources & carved & noisy & rs & heights & mass & _ & _ & _ & _ & ->).
  cbn in *. do 5 (split; [reflexivity|]). split; [exact Hlen|].
  intros (Hh & Ha & Hs). unfold well_formed. cbn. rewrite Hlen. auto.
Qed.

(** X24.  [erode] takes from the random source one double for every cell
    of the rectangle, whatever the heights are. *)
Theorem erode_draws_once_per_cell p lower_bound p' :
  erode p lower_bound = Some p' ->
  _randsource p' = draws (Z.to_nat (area (_bounds p))) (_randsource p).
Proof.
  intros H. apply erode_Some in H
    as (sources & carved & noisy & rs & heights & mass & _ & _ & Hnoise & _ & ->).
  apply noise_loop in Hnoise as [_ ->].
  cbn [with_mass with_map with_randsource _randsource].
  f_equal. unfold range. rewrite length_seqZ. f_equal. lia.
Qed.

End Erosion.

(** ** The mass after [erode] *)

Section ErosionMass.

Context {RandSource Movement : Type}.
Context `{!RandomSource RandSource} `{!Motion Movement RandSource}.
Implicit Types (p : plate RandSource Movement).

(** Every turn of the redistribution gives the height of its cell to
    the mass builder, whatever it does with the height. *)
Lemma slope_cell_mass p lower_bound tmpHm mass c tmpHm' mass' :
  slope_cell p lower_bound (tmpHm, mass) c = Some (tmpHm', mass') ->
  exists m, load (map p) (index (_bounds p) c.1 c.2) = Some m
            /\ getMass mass' = F32.add (getMass mass) m.
Proof.
  unfold slope_cell, index. destruct c as [x y]. cbn [fst snd]. intros H.
  bind_inv H as m eqn:Hm. exists m. split; [reflexivity|].
  cbv zeta in H. bind_inv H as tmp1.
  destruct (F32.ltb m lower_bound); [now injection H as _ <-|].
  bind_inv H as [[[[w_crust e_crust] n_crust] s_crust] [[[w e] n] s]].
  destruct (F32.eqb _ F32.zero); [now injection H as _ <-|].
  cbv zeta in H. bind_inv H as Hsum.
  match type of H with (if ?c then _ else _) = _ => destruct c end;
    repeat (bind_inv H as ?); now injection H as _ <-.
Qed.

Lemma slope_loop_mass p lower_bound (l : list (Z * Z)) :
  forall tmpHm mass tmpHm' mass',
  for_each (slope_cell p lower_bound) l (tmpHm, mass) = Some (tmpHm', mass') ->
  exists hs,
    Forall2 (fun i h => load (map p) i = Some h)
            ((fun c => index (_bounds p) c.1 c.2) <$> l) hs
    /\ getMass mass' = fold_left F32.add hs (getMass mass).
Proof.
  induction l as [|c l IH]; intros tmpHm mass tmpHm' mass' Hloop.
  - injection Hloop as _ <-. exists []. split; [constructor | reflexivity].
  - cbn [for_each] in Hloop. bind_inv Hloop as [tmp1 mass1] eqn:Hstep.
    apply slope_cell_mass in Hstep as (m & Hm & Hmass).
    apply IH in Hloop as (hs & Hhs & Hsum).
    exists (m :: hs). split; [now constructor|].
    cbn [fold_left]. now rewrite <- Hmass.
Qed.

(** The cells of a buffer read one after the other. *)
Lemma loads_in_order {A : Type} (buf hs : list A) (n : nat) :
  Forall2 (fun i h => load buf i = Some h) (seqZ 0 (Z.of_nat n)) hs ->
  hs = take n buf.
Proof.
  intros Hall. apply list_eq. intros k.
  pose proof (Forall2_length _ _ _ Hall) as Hlen. rewrite length_seqZ, Nat2Z.id in Hlen.
  destruct (Nat.lt_ge_cases k n) as [Hk|Hk].
  - rewrite lookup_take_lt by lia.
    destruct (lookup_lt_is_Some_2 hs k ltac:(lia)) as [h Hh].
    assert (Hi : seqZ 0 (Z.of_nat n) !! k = Some (Z.of_nat k))
      by (rewrite lookup_seqZ_lt by lia; f_equal; lia).
    pose proof (Forall2_lookup_lr _ _ _ _ _ _ Hall Hi Hh) as Hload.
    cbn beta in Hload. rewrite load_lookup, Nat2Z.id in Hload by lia. congruence.
  - rewrite lookup_take_ge by lia. apply lookup_ge_None_2. lia.
Qed.

(** X25.  The mass [erode] leaves in the plate is the sum, cell after
    cell, of the heights as they are after the rivers and the noise and
    before the redistribution along the slopes. *)
Theorem erode_mass_is_summed_before_redistribution p lower_bound p' :
  well_formed p ->
  0 <= width (_bounds p) -> 0 <= height (_bounds p) ->
  width (_bounds p) * height (_bounds p) < U32.modulus ->
  erode p lower_bound = Some p' ->
  exists sources carved noisy rs,
    findRiverSources p lower_bound [] = Some sources
    /\ flowRivers p lower_bound sources (map p) = Some carved
    /\ for_each noise_cell (range 0 (area (_bounds p) - 1)) (carved, _randsource p)
       = Some (noisy, rs)
    /\ getMass (_mass p') = fold_left F32.add noisy F32.zero.
Proof.
  intros (Hwf & _) Hw Hh Hb H.
  apply erode_Some in H
    as (sources & carved & noisy & rs & heights & mass
        & Hsrc & Hflow & Hnoise & Hslope & ->).
  exists sources, carved, noisy, rs. do 3 (split; [assumption|]).
  pose proof (flow_rounds_frame _ _ _ _ _ _ _ (flowRivers_Some _ _ _ _ _ Hflow))
    as [Hcarved _].
  pose proof (noise_loop _ _ _ _ _ Hnoise) as [Hnoisy _].
  apply slope_loop_mass in Hslope as (hs & Hhs & Hsum).
  cbn [with_randsource with_map map _bounds] in Hhs.
  rewrite index_plate_cells in Hhs by lia.
  assert (Harea : area (_bounds p) = width (_bounds p) * height (_bounds p))
    by (apply wrap_small; unfold U32.in_range; nia).
  assert (Hn : width (_bounds p) * height (_bounds p) = Z.of_nat (length noisy))
    by (rewrite Hnoisy, Hcarved; lia).
  rewrite Hn in Hhs. apply loads_in_order in Hhs.
  rewrite firstn_all in Hhs. subst hs. exact Hsum.
Qed.

End ErosionMass.

(** ** Coordinates kept in single precision *)

(** An integer below [2^24] is a single-precision value: converted to
    [float] and back it is the same. *)
Lemma of_Z_exact (x : Z) : 0 <= x < 2 ^ 24 -> F32.trunc (F32.of_Z x) = x.
Proof.
  intros Hx. destruct x as [|m|m]; [reflexivity | | lia].
  unfold F32.of_Z. cbn [binary_normalize]. rewrite binary_round_unfold.
  set (d := Zpos (digits2_pos m)).
  pose proof (digits2_pos_bounds m) as Hd. fold d in Hd.
  assert (Hd1 : 1 <= d) by (subst d; lia).
  assert (Hd24 : d <= 24).
  { assert (Hlt : 2 ^ (d - 1) < 2 ^ 24) by lia.
    apply pow2_lt_inv in Hlt; lia. }
  rewrite Z.add_0_r, fexpF_eq. unfold F32.fexp, F32.emin.
  replace (Z.max (d - 24) (-149)) with (d - 24) by lia.
  assert (Hal : exists mz, shl_align m 0 (d - 24) = (mz, d - 24)
                           /\ Zpos mz = Zpos m * 2 ^ (24 - d)).
  { destruct (shl_align_spec m 0 (d - 24)) as [(Hlt & He & Hm) | (Hge & Heq)].
    - destruct (shl_align m 0 (d - 24)) as [mz ez]. cbn [fst snd] in *. subst ez.
      exists mz. split; [reflexivity|]. rewrite Hm. f_equal. f_equal. lia.
    - assert (d = 24) by lia. exists m. replace (d - 24) with 0 in * by lia.
      split; [exact Heq|]. replace (24 - d) with 0 by lia. lia. }
  destruct Hal as (mz & -> & Hmz). cbn [fst snd].
  assert (Hdz : Zpos (digits2_pos mz) = 24).
  { rewrite (digits2_pos_shift m mz (24 - d)) by (lia || exact Hmz). fold d. lia. }
  destruct (binary_round_aux_exact false mz (d - 24)) as (M & Hlo & Hhi & Hr).
  rewrite Hr. clear Hr. cbv zeta.
  assert (E1 : fexpF (24 + (d - 24)) = d - 24)
    by (rewrite fexpF_eq; unfold F32.fexp, F32.emin; lia).
  rewrite Hdz, E1 in *.
  replace (Z.max (d - 24 - (d - 24)) 0) with 0 in * by lia.
  rewrite Z.pow_0_r, Z.div_1_r, Z.mul_1_r in *.
  assert (M = Zpos mz) by lia. subst M. cbn [Zdigits2].
  rewrite Hdz, !Z.add_0_r, E1.
  replace (Z.max (d - 24 - (d - 24)) 0) with 0 by lia.
  rewrite Z.pow_0_r, Z.div_1_r, Z.add_0_r. unfold finish.
  destruct (Z.leb_spec (d - 24) 104); [|lia]. unfold F32.trunc.
  destruct (d - 24) as [|q|q] eqn:He; [| lia |].
  - replace (24 - d) with 0 in Hmz by lia. lia.
  - rewrite Z.shiftr_div_pow2 by lia. rewrite Hmz.
    replace (24 - d) with (Zpos q) by lia. apply Z.div_mul. lia.
Qed.

Lemma to_u32_of_Z (x : Z) : 0 <= x < 2 ^ 24 -> F32.to_u32 (F32.of_Z x) = x.
Proof.
  intros Hx. unfold F32.to_u32. rewrite of_Z_exact by exact Hx.
  apply wrap_small. unfold U32.in_range, U32.modulus. lia.
Qed.

(** ** A constructed plate, asked for its crust *)

(** The cell [(i, j)] of a rectangle whose corner is at [(x0, y0)] in
    the world is found at [(x0 + i, y0 + j)], around the edges of the
    world if need be. *)
Lemma getMapIndex_inside (r : Rectangle) (x0 y0 i j : Z) :
  let W := getWidth (r_world r) in
  let H := getHeight (r_world r) in
  leftAsUint r = x0 -> topAsUint r = y0 ->
  0 <= x0 < W -> 0 <= y0 < H ->
  width r <= W -> height r <= H ->
  0 <= i < width r -> 0 <= j < height r ->
  getMapIndex r (x0 + i) (y0 + j) = (index r i j, i, j).
Proof.
  intros W H Hl Ht Hx0 Hy0 Hw Hh Hi Hj. unfold getMapIndex. cbv zeta.
  fold W H. rewrite Hl, Ht.
  assert (Hx : (x0 + i) mod W = x0 + i \/ (x0 + i) mod W = x0 + i - W /\ W <= x0 + i).
  { destruct (Z.lt_ge_cases (x0 + i) W).
    - left. apply Z.mod_small. lia.
    - right. split; [|lia]. symmetry. apply (Z.mod_unique_pos _ _ 1); lia. }
  assert (Hy : (y0 + j) mod H = y0 + j \/ (y0 + j) mod H = y0 + j - H /\ H <= y0 + j).
  { destruct (Z.lt_ge_cases (y0 + j) H).
    - left. apply Z.mod_small. lia.
    - right. split; [|lia]. symmetry. apply (Z.mod_unique_pos _ _ 1); lia. }
  set (x := (x0 + i) mod W) in *. set (y := (y0 + j) mod H) in *.
  assert (Hlx : (if x <? x0 then x + W else x) - x0 = i)
    by (destruct (Z.ltb_spec x x0); lia).
  assert (Hly : (if y <? y0 then y + H else y) - y0 = j)
    by (destruct (Z.ltb_spec y y0); lia).
  rewrite Hlx, Hly.
  assert (Hok : ((x0 <=? x) && (x <? x0 + width r)
                 || (x0 <=? x + W) && (x + W <? x0 + width r))
                && ((y0 <=? y) && (y <? y0 + height r)
                    || (y0 <=? y + H) && (y + H <? y0 + height r)) = true).
  { apply andb_true_intro. split; apply orb_true_iff.
    - destruct Hx as [Hx | [Hx _]]; [left | right];
        apply andb_true_intro; split; [apply Z.leb_le | apply Z.ltb_lt | apply Z.leb_le | apply Z.ltb_lt]; lia.
    - destruct Hy as [Hy | [Hy _]]; [left | right];
        apply andb_true_intro; split; [apply Z.leb_le | apply Z.ltb_lt | apply Z.leb_le | apply Z.ltb_lt]; lia. }
  now rewrite Hok.
Qed.

Section ConstructionMore.

Context {RandSource Movement : Type}.
Context `{!RandomSource RandSource} `{!Motion Movement RandSource}.

(** X26.  A constructed plate gives back the array it was built from:
    at the world cell [(_x + i, _y + j)], taken around the edges of the
    world, [getCrust] is the height [m[j * w + i]] and
    [getCrustTimestamp] is the age of the plate where that height is
    above 0, and 0 elsewhere.  The corner must be a cell of a world
    whose sides do not exceed [2^24]: it is kept in single precision. *)
Theorem plate_ctor_then_getCrust (seed : Z) (cells : list float)
    (w h _x _y plate_age : Z) (wd : WorldDimension) (i j x y : Z) :
  let W := getWidth wd in
  let H := getHeight wd in
  0 < w <= W -> 0 < h <= H -> W <= 2 ^ 24 -> H <= 2 ^ 24 ->
  w * h < U32.modulus -> w * h <= Z.of_nat (length cells) ->
  U32.in_range plate_age ->
  0 <= _x < W -> 0 <= _y < H ->
  0 <= i < w -> 0 <= j < h ->
  x mod W = (_x + i) mod W -> y mod H = (_y + j) mod H ->
  exists (p : plate RandSource Movement) (c : float),
    plate_ctor seed (Some cells) w h _x _y plate_age wd = Constructed p
    /\ load cells (j * w + i) = Some c
    /\ getCrust p x y = Some c
    /\ getCrustTimestamp p x y
       = Some (if F32.gtb c F32.zero then plate_age else 0).
Proof.
  intros W H Hw Hh HW HH Hb Hlen Hage Hx0 Hy0 Hi Hj Hx Hy.
  rewrite plate_ctor_value by (assumption || lia). cbv zeta.
  assert (Hk : 0 <= j * w + i < w * h) by nia.
  destruct (lookup_lt_is_Some_2 cells (Z.to_nat (j * w + i)) ltac:(lia)) as [c Hc].
  eexists _, c. split; [reflexivity|].
  split; [rewrite load_lookup by lia; exact Hc|].
  set (r := mkRectangle wd (F32.of_Z _x) (F32.of_Z _y) w h).
  assert (Hidx : (getMapIndex r x y).1.1 = j * w + i).
  { rewrite <- getMapIndex_normalized. cbn [r r_world]. fold W H.
    rewrite Hx, Hy. change W with (getWidth (r_world r)).
    change H with (getHeight (r_world r)). rewrite getMapIndex_normalized.
    rewrite (getMapIndex_inside r _x _y i j); cbn [r r_world width height fst];
      try (assumption || lia).
    - apply (index_no_wrap r); cbn; lia.
    - apply to_u32_of_Z. lia.
    - apply to_u32_of_Z. lia. }
  assert (Hne : j * w + i <> BAD_INDEX)
    by (unfold BAD_INDEX, U32.max_value; lia).
  unfold getCrust, getCrustTimestamp. cbn [_bounds map age_map]. fold r.
  destruct (getMapIndex r x y) as [[k lx] ly]. cbn [fst] in Hidx. subst k.
  destruct (Z.eqb_spec (j * w + i) BAD_INDEX); [contradiction|].
  rewrite !load_lookup by lia. rewrite list_lookup_fmap.
  rewrite lookup_take_lt by lia. rewrite Hc. auto.
Qed.

End ConstructionMore.

(** ** Accesses to the buffers *)

(** The local coordinates [getMapIndex] gives are those of a cell of
    the rectangle. *)
Lemma getMapIndex_local (r : Rectangle) (px py i lx ly : Z) :
  0 < getWidth (r_world r) -> 0 < getHeight (r_world r) ->
  getMapIndex r px py = (i, lx, ly) ->
  (i = BAD_INDEX /\ lx = px /\ ly = py)
  \/ (i = index r lx ly /\ 0 <= lx < width r /\ 0 <= ly < height r).
Proof.
  intros HW HH. unfold getMapIndex. cbv zeta.
  set (W := getWidth (r_world r)) in *. set (H := getHeight (r_world r)) in *.
  set (x := px mod W). set (y := py mod H).
  destruct (_ && _) eqn:Hok; intros [= <- <- <-]; [right | now left].
  apply andb_true_iff in Hok as [Hx Hy]. split; [reflexivity|].
  apply orb_true_iff in Hx, Hy. split.
  - destruct (Z.ltb_spec x (leftAsUint r));
      destruct Hx as [Hx|Hx]; apply andb_true_iff in Hx as [H1 H2];
      apply Z.leb_le in H1; apply Z.ltb_lt in H2; lia.
  - destruct (Z.ltb_spec y (topAsUint r));
      destruct Hy as [Hy|Hy]; apply andb_true_iff in Hy as [H1 H2];
      apply Z.leb_le in H1; apply Z.ltb_lt in H2; lia.
Qed.

Lemma load_total {A : Type} (buf : list A) (i : Z) :
  0 <= i < Z.of_nat (length buf) -> exists v, load buf i = Some v.
Proof.
  intros Hi. rewrite load_lookup by lia. apply lookup_lt_is_Some_2. lia.
Qed.

Section Safety.

Context {RandSource Movement : Type}.
Context `{!RandomSource RandSource} `{!Motion Movement RandSource}.
Implicit Types (p : plate RandSource Movement).

Lemma area_no_wrap (r : Rectangle) :
  0 <= width r -> 0 <= height r -> width r * height r < U32.modulus ->
  area r = width r * height r.
Proof. intros. apply wrap_small. unfold U32.in_range. nia. Qed.

(** X27.  On a plate whose buffers have the size of its rectangle
    [getCrust] and [getCrustTimestamp] never read outside them: they
    answer for every world position, with 0 for a position outside the
    rectangle. *)
Theorem queries_stay_in_buffers p x y :
  well_formed p ->
  0 < getWidth (r_world (_bounds p)) -> 0 < getHeight (r_world (_bounds p)) ->
  0 <= width (_bounds p) -> 0 <= height (_bounds p) ->
  width (_bounds p) * height (_bounds p) < U32.modulus ->
  exists c t,
    getCrust p x y = Some c /\ getCrustTimestamp p x y = Some t
    /\ ((getMapIndex (_bounds p) x y).1.1 = BAD_INDEX -> c = F32.zero /\ t = 0).
Proof.
  intros (Hh & Ha & _) HW HH Hw Hht Hb.
  rewrite (area_no_wrap _ Hw Hht Hb) in Hh, Ha.
  unfold getCrust, getCrustTimestamp.
  destruct (getMapIndex (_bounds p) x y) as [[i lx] ly] eqn:Hi. cbn [fst].
  destruct (getMapIndex_local _ _ _ _ _ _ HW HH Hi) as [(-> & _) | (-> & Hlx & Hly)].
  - change (BAD_INDEX =? BAD_INDEX) with true. cbv iota.
    exists F32.zero, 0. auto.
  - rewrite (index_no_wrap _ _ _ Hlx Hly) by lia.
    set (k := ly * width (_bounds p) + lx).
    assert (Hk : 0 <= k < width (_bounds p) * height (_bounds p)) by (subst k; nia).
    destruct (Z.eqb_spec k BAD_INDEX) as [E|E].
    { unfold BAD_INDEX, U32.max_value in E. lia. }
    destruct (load_total (map p) k ltac:(lia)) as [c Hc].
    destruct (load_total (age_map p) k ltac:(lia)) as [t Ht].
    exists c, t. rewrite Hc, Ht. repeat split; intros; contradiction.
Qed.

(** A position that is not negative has an integer part that is not
    negative. *)
Lemma trunc_nonneg (fx : float) : F32.leb F32.zero fx = true -> 0 <= F32.trunc fx.
Proof.
  destruct fx as [s|s| |s m e]; cbn; try lia.
  destruct s; [discriminate|]. intros _.
  destruct e as [|q|q]; [lia | |].
  - rewrite Z.shiftl_mul_pow2 by lia. pose proof (pow2_pos (Zpos q)). nia.
  - rewrite Z.shiftr_div_pow2 by lia. apply Z.div_pos; [lia|]. apply pow2_pos. lia.
Qed.

(** X28.  Subduction never writes outside the plate: on a plate whose
    buffers have the size of its rectangle every call from a cell of
    the plate returns, having deposited the crust on a cell of the plate
    or dropped it. *)
Theorem addCrustBySubduction_stays_in_buffers p x y z t dx dy i lx ly :
  well_formed p ->
  0 <= width (_bounds p) -> 0 <= height (_bounds p) ->
  width (_bounds p) * height (_bounds p) < U32.modulus ->
  getValidMapIndex (_bounds p) x y = Some (i, lx, ly) ->
  exists p', addCrustBySubduction p x y z t dx dy = Some p'.
Proof.
  intros (Hh & Ha & _) Hw Hht Hb Hi.
  rewrite (area_no_wrap _ Hw Hht Hb) in Hh, Ha.
  assert (Htarget : exists fx fy, subduction_target p x y dx dy = Some (fx, fy)).
  { unfold subduction_target. rewrite Hi. cbn [mbind option_bind].
    destruct (displacement p dx dy) as [[dx' dy'] rs]. eauto. }
  destruct Htarget as (fx & fy & Htarget).
  rewrite (addCrustBySubduction_unfold _ _ _ _ _ _ _ _ _ Htarget). cbv zeta.
  destruct (isInLimits (_bounds p) fx fy) eqn:Hin; [|eauto].
  unfold isInLimits in Hin.
  apply andb_true_iff in Hin as [Hin Hfy]. apply andb_true_iff in Hin as [Hin Hfx].
  apply andb_true_iff in Hin as [Hx0 Hy0].
  apply Z.ltb_lt in Hfx, Hfy. apply trunc_nonneg in Hx0, Hy0.
  assert (Hk : deposit_cell p fx fy = F32.trunc fy * width (_bounds p) + F32.trunc fx).
  { unfold deposit_cell, F32.to_u32.
    rewrite !wrap_small by (unfold U32.in_range, U32.modulus in *; nia).
    apply index_no_wrap; lia. }
  rewrite Hk. set (k := F32.trunc fy * width (_bounds p) + F32.trunc fx).
  assert (Hkr : 0 <= k < width (_bounds p) * height (_bounds p)) by (subst k; nia).
  destruct (load_total (map p) k ltac:(lia)) as [m Hm].
  rewrite Hm. cbn [mbind option_bind].
  destruct (F32.gtb m F32.zero); [|eauto].
  destruct (load_total (age_map p) k ltac:(lia)) as [a Hage].
  rewrite Hage. cbn [mbind option_bind].
  destruct (store_total (age_map p) k
              (U32.mul (subduction_age m a z t) (Z.b2z (F32.gtb z F32.zero)))
              ltac:(lia)) as [ages ->].
  cbn [mbind option_bind].
  destruct (store_total (map p) k (F32.add m z) ltac:(lia)) as [heights ->].
  cbn [mbind option_bind]. eauto.
Qed.

End Safety.

(** ** The continent that receives the crust *)

Section Destination.

Context {RandSource Movement : Type}.
Implicit Types (a b p : plate RandSource Movement).

(** The record of the continent that receives the crust. *)
Lemma addCrustByCollision_record p x y z time c p' d :
  addCrustByCollision p x y z time c = Some p' ->
  data (_segments p) c = Some d ->
  exists d', data (_segments p') c = Some d'
             /\ sd_area d' = U32.add (sd_area d) 1
             /\ collCount d' = collCount d.
Proof.
  intros Hadd Hd.
  apply addCrustByCollision_Some in Hadd
    as (old & p1 & i & lx & ly & ids & d1 & Hold & Hset & Hi & Hids & Hd1 & ->).
  pose proof (setCrust_record _ _ _ _ _ _ c Hset) as Hrec. rewrite Hd in Hrec.
  destruct Hrec as (d1' & Hd1' & Harea & Hcount & _).
  rewrite Hd1 in Hd1'. injection Hd1' as <-.
  exists (enlarge_to_contain (incArea d1) lx ly). split.
  - unfold data, setData. cbn [with_segments _segments seg_data reassign].
    apply list_lookup_insert_eq. eapply lookup_lt_Some. exact Hd1.
  - cbn. now rewrite Harea.
Qed.

(** The crust of the cells [l] received one after the other. *)
Lemma deposits_grow a wx wy lx ly active (l : list (Z * Z)) :
  forall b b' d0,
  for_each (deposit a wx wy lx ly active) l b = Some b' ->
  data (_segments b) active = Some d0 ->
  U32.in_range (sd_area d0) ->
  exists d', data (_segments b') active = Some d'
             /\ sd_area d' = U32.wrap (sd_area d0 + Z.of_nat (length l))
             /\ collCount d' = collCount d0.
Proof.
  induction l as [|c l IH]; intros b b' d0 Hloop Hd0 Hr.
  - injection Hloop as <-. exists d0. cbn [length].
    now rewrite Z.add_0_r, (wrap_small _ Hr).
  - cbn [for_each] in Hloop. bind_inv Hloop as b1 eqn:Hstep.
    unfold deposit in Hstep.
    destruct (addCrustByCollision_record _ _ _ _ _ _ _ _ Hstep Hd0)
      as (d1 & Hd1 & Harea1 & Hcount1).
    assert (Hr1 : U32.in_range (sd_area d1))
      by (rewrite Harea1; apply wrap_in_range).
    destruct (IH _ _ _ Hloop Hd1 Hr1) as (d' & Hd' & Harea & Hcount).
    exists d'. split; [exact Hd'|]. split; [|congruence].
    rewrite Harea, Harea1. unfold U32.add, U32.wrap.
    rewrite Zplus_mod_idemp_l. f_equal. cbn [length]. lia.
Qed.

(** X29.  The continent that receives an aggregated continent has its
    area counted up by one for every cell moved, whether or not the
    cell it lands on belonged to it already. *)
Theorem aggregateCrust_grows_destination a b wx wy i lx ly seg d active d0
    a' b' delta :
  getValidMapIndex (_bounds a) wx wy = Some (i, lx, ly) ->
  idAt (_segments a) i = Some seg ->
  data (_segments a) seg = Some d ->
  isEmpty d = false ->
  box_in_plate a d ->
  selectCollisionSegment b wx wy = Some active ->
  data (_segments b) active = Some d0 ->
  U32.in_range (sd_area d0) ->
  aggregateCrust a b wx wy = Some (a', b', delta) ->
  exists d',
    data (_segments b') active = Some d'
    /\ sd_area d'
       = U32.wrap (sd_area d0 + Z.of_nat (length (moved_cells a seg d)))
    /\ collCount d' = collCount d0.
Proof.
  intros Hi Hseg Hd Hfull Hbox Hactive Hd0 Hr Hcall.
  destruct (aggregateCrust_Some _ _ _ _ _ _ _ Hcall)
    as (i' & lx' & ly' & seg' & d' & Hi' & Hseg' & Hd' & Hcase).
  rewrite Hi in Hi'. injection Hi' as <- <- <-.
  rewrite Hseg in Hseg'. injection Hseg' as <-.
  rewrite Hd in Hd'. injection Hd' as <-.
  destruct Hcase as [(Hempty & _) | (_ & active' & a2 & d2 & Hactive' & Hloop & _)];
    [congruence|].
  rewrite Hactive in Hactive'. injection Hactive' as <-.
  destruct (aggregate_loop a _ _ _ _ _ _ _ a b a2 b'
              (NoDup_box_indices _ _ Hbox) eq_refl eq_refl eq_refl
              (fun _ _ => eq_refl) Hloop)
    as (_ & _ & _ & _ & _ & _ & Hdep).
  fold (moved_cells a seg d) in Hdep.
  exact (deposits_grow _ _ _ _ _ _ _ _ _ _ Hdep Hd0 Hr).
Qed.

End Destination.

(** ** The properties on the plates of the scenarios *)

(** The array of scenario S1. *)
Lemma plate_ctor_clones_witness :
  let o := F32.zero in
  let cells := [o; o; o; o; F32.one; o; o; o; o] in
  exists p : plate ConstantSource Velocity,
    plate_ctor 1 (Some cells) 3 3 2 2 5 Examples.world = Constructed p
    /\ map p = cells
    /\ age_map p = [0; 0; 0; 0; 5; 0; 0; 0; 0]
    /\ getMass (_mass p) = F32.one.
Proof.
  intros o cells.
  destruct (plate_ctor_clones (RandSource := ConstantSource) (Movement := Velocity)
              1 cells 3 3 2 2 5 Examples.world)
    as (p & Hp & Hmap & Hages & _ & Hmass & _);
    [lia | lia | unfold U32.modulus; lia | cbn; lia
    | unfold U32.in_range, U32.modulus; lia |].
  exists p. split; [exact Hp|]. split; [exact Hmap|].
  split; [exact Hages | exact Hmass].
Defined.

(** A plate of no width. *)
Lemma zero_dimension_is_invalid_witness :
  plate_ctor (RandSource := ConstantSource) (Movement := Velocity)
             1 (Some [F32.one]) 0 1 2 2 5 Examples.world = InvalidArgument.
Proof. apply zero_dimension_is_invalid. left. reflexivity. Defined.

(** One height for a plate of two cells. *)
Lemma short_heightmap_is_read_past_its_end_witness :
  plate_ctor (RandSource := ConstantSource) (Movement := Velocity)
             1 (Some [F32.one]) 2 1 2 2 5 Examples.world = InvalidRead.
Proof.
  apply short_heightmap_is_read_past_its_end;
    [lia | lia | unfold U32.modulus; lia | cbn; lia].
Defined.

(** A growth of 8 cells becomes one of 16. *)
Lemma scale8_pads_witness : scale8 8 mod 8 = 0 /\ 8 < scale8 8 <= 8 + 8.
Proof.
  destruct (scale8_pads 8) as (Hm & _ & Hpos); [unfold U32.modulus; lia|].
  split; [exact Hm | apply Hpos; lia].
Defined.

(** Scenario S2: the plate of scenario S1 grows by 7 columns to the
    right, which is what it lacks to be as wide as the world. *)
Lemma growth_one_side_witness :
  growth Examples.plate_S1 6 3 = (0, 7, 0, 0)
  /\ (7 mod 8 = 0
      \/ 7 = U32.sub (getWidth (_worldDimension Examples.plate_S1))
                     (width (_bounds Examples.plate_S1))).
Proof.
  split; [vm_compute; reflexivity|].
  destruct (growth_one_side Examples.plate_S1 6 3 0 7 0 0) as (_ & _ & _ & _ & Hr & _);
    [vm_compute; reflexivity | exact Hr].
Defined.

(** Scenario S2: the widened plate is as wide as the world. *)
Lemma setCrust_stays_in_world_witness :
  exists p',
    setCrust Examples.plate_S1 6 3 (F32.of_Z 2) 9 = Some p'
    /\ 3 <= width (_bounds p') <= 10 /\ 3 <= height (_bounds p') <= 10.
Proof.
  eexists. split; [vm_compute; reflexivity|].
  eapply (setCrust_stays_in_world Examples.plate_S1 6 3 (F32.of_Z 2) 9);
    [vm_compute; reflexivity | cbn; lia | cbn; lia | cbn; lia | cbn; lia].
Defined.

(** Scenario S2: the new cell holds the crust it was given. *)
Lemma setCrust_then_getCrust_witness :
  exists p',
    setCrust Examples.plate_S1 6 3 (F32.of_Z 2) 9 = Some p'
    /\ getCrust p' 6 3 = Some (F32.of_Z 2).
Proof.
  eexists. split; [vm_compute; reflexivity|].
  eapply (setCrust_then_getCrust Examples.plate_S1 6 3 (F32.of_Z 2) 9);
    [reflexivity | vm_compute; reflexivity].
Defined.

(** The land of scenario S1 set to 3: the cell to its right is as it
    was. *)
Lemma setCrust_inside_changes_one_cell_witness :
  exists p',
    setCrust Examples.plate_S1 3 3 (F32.of_Z 3) 9 = Some p'
    /\ _bounds p' = _bounds Examples.plate_S1
    /\ load (map p') 5 = load (map Examples.plate_S1) 5.
Proof.
  eexists. split; [vm_compute; reflexivity|].
  edestruct (setCrust_inside_changes_one_cell Examples.plate_S1 3 3 (F32.of_Z 3) 9)
    as (Hb & _ & _ & _ & Hother);
    [vm_compute; reflexivity | | vm_compute; reflexivity |].
  - vm_compute. discriminate.
  - split; [exact Hb|]. apply (Hother 5). lia.
Defined.

(** No crust for the cell (6, 3), which is outside the plate of
    scenario S1. *)
Lemma setCrust_outside_needs_crust_witness :
  setCrust Examples.plate_S1 6 3 F32.zero 9 = None.
Proof. apply setCrust_outside_needs_crust; vm_compute; reflexivity. Defined.

(** Scenario S2. *)
Lemma setCrust_well_formed_witness :
  exists p',
    setCrust Examples.plate_S1 6 3 (F32.of_Z 2) 9 = Some p'
    /\ well_formed p' /\ r_world (_bounds p') = _worldDimension p'.
Proof.
  eexists. split; [vm_compute; reflexivity|].
  eapply (setCrust_well_formed Examples.plate_S1 6 3 (F32.of_Z 2) 9);
    [vm_compute; reflexivity | repeat split | reflexivity].
Defined.

(** Scenario S4. *)
Lemma aggregateCrust_well_formed_witness :
  exists a' b' delta,
    aggregateCrust Examples.plate_S1 Examples.plate_empty 3 3 = Some (a', b', delta)
    /\ well_formed a' /\ well_formed b'.
Proof.
  eexists _, _, _. split; [vm_compute; reflexivity|].
  eapply (aggregateCrust_well_formed Examples.plate_S1 Examples.plate_empty 3 3);
    [vm_compute; reflexivity | repeat split | repeat split].
Defined.

(** Scenario S1. *)
Lemma plate_ctor_well_formed_witness :
  exists p : plate ConstantSource Velocity,
    Examples.built_S1 = Constructed p
    /\ well_formed p /\ r_world (_bounds p) = _worldDimension p
    /\ width (_bounds p) = 3 /\ height (_bounds p) = 3.
Proof.
  eexists. split; [vm_compute; reflexivity|].
  eapply (plate_ctor_well_formed
            1 (Some [F32.zero; F32.zero; F32.zero; F32.zero; F32.one;
                     F32.zero; F32.zero; F32.zero; F32.zero])
            3 3 2 2 5 Examples.world).
  vm_compute. reflexivity.
Defined.

(** Crust of height 1 added to the land of scenario S1, for continent
    0. *)
Lemma addCrustByCollision_adds_witness :
  exists p',
    addCrustByCollision Examples.plate_S1 3 3 F32.one 9 0 = Some p'
    /\ getCrust p' 3 3 = Some (F32.of_Z 2)
    /\ selectCollisionSegment p' 3 3 = Some 0.
Proof.
  eexists. split; [vm_compute; reflexivity|].
  edestruct (addCrustByCollision_adds Examples.plate_S1 3 3 F32.one 9 0)
    as (old & Hold & Hnew & Hsel); [reflexivity | vm_compute; reflexivity |].
  split; [|exact Hsel]. rewrite Hnew. vm_compute in Hold.
  injection Hold as <-. vm_compute. reflexivity.
Defined.

(** Crust added at (6, 3), outside the plate of scenario S1, for
    continent 0: the area of the continent goes from 1 to 2. *)
Lemma addCrustByCollision_grows_continent_witness :
  exists p',
    addCrustByCollision Examples.plate_S1 6 3 F32.one 9 0 = Some p'
    /\ getContinentArea p' 6 3 = Some 2.
Proof.
  eexists. split; [vm_compute; reflexivity|].
  edestruct (addCrustByCollision_grows_continent Examples.plate_S1 6 3 F32.one 9 0)
    as (d' & i & lx & ly & _ & _ & _ & _ & _ & _ & Harea);
    [vm_compute; reflexivity | vm_compute; reflexivity |].
  exact Harea.
Defined.

(** There is no continent 7 on the plate of scenario S1. *)
Lemma addCrustByCollision_needs_record_witness :
  addCrustByCollision Examples.plate_S1 3 3 F32.one 9 7 = None.
Proof. apply addCrustByCollision_needs_record. vm_compute. reflexivity. Defined.

(** Scenario S3. *)
Lemma addCrustBySubduction_draws_twice_witness :
  exists p',
    addCrustBySubduction Examples.plate_S1 3 4 (F32.of_Z 5) 9 F32.zero F32.zero
    = Some p'
    /\ _bounds p' = _bounds Examples.plate_S1
    /\ length (map p') = 9%nat.
Proof.
  eexists. split; [vm_compute; reflexivity|].
  edestruct (addCrustBySubduction_draws_twice
               Examples.plate_S1 3 4 (F32.of_Z 5) 9 F32.zero F32.zero)
    as (_ & Hb & _ & _ & _ & Hlen & _); [vm_compute; reflexivity|].
  split; [exact Hb | exact Hlen].
Defined.

(** Crust of height 1 sent from the land of scenario S1 lands on it. *)
Lemma subduction_adds_crust_witness :
  exists p',
    addCrustBySubduction Examples.plate_S1 3 3 F32.one 9 F32.zero F32.zero = Some p'
    /\ load (map p') 4 = Some (F32.of_Z 2)
    /\ getMass (_mass p') = F32.of_Z 2.
Proof.
  eexists. split; [vm_compute; reflexivity|].
  at_subduction_target Examples.plate_S1 3 3 ltac:(fun fx fy =>
    edestruct (subduction_adds_crust
                 Examples.plate_S1 3 3 F32.one 9 F32.zero F32.zero fx fy)
      as (Hcell & Hmass & _);
      [vm_compute; reflexivity | vm_compute; reflexivity | vm_compute; reflexivity
      | vm_compute; reflexivity | vm_compute; reflexivity |]).
  split; [exact Hcell | exact Hmass].
Defined.

(** Scenario S4: the plate that lost its continent. *)
Lemma aggregateCrust_keeps_bookkeeping_witness :
  exists a' b' delta,
    aggregateCrust Examples.plate_S1 Examples.plate_empty 3 3 = Some (a', b', delta)
    /\ age_map a' = age_map Examples.plate_S1
    /\ seg_id (_segments a') = seg_id (_segments Examples.plate_S1).
Proof.
  eexists _, _, _. split; [vm_compute; reflexivity|].
  edestruct (aggregateCrust_keeps_bookkeeping
               Examples.plate_S1 Examples.plate_empty 3 3)
    as (_ & Hages & Hids & _); [vm_compute; reflexivity|].
  split; [exact Hages | exact Hids].
Defined.

(** The corner of the plate of scenario S1 has no continent. *)
Lemma unassigned_cell_has_no_record_witness :
  aggregateCrust Examples.plate_S1 Examples.plate_empty 2 2 = None
  /\ getContinentArea Examples.plate_S1 2 2 = None.
Proof.
  apply (unassigned_cell_has_no_record Examples.plate_S1 Examples.plate_empty 2 2 0 0 0);
    [vm_compute; reflexivity | vm_compute; reflexivity | vm_compute; congruence].
Defined.

(** The hill is the one source of its plate. *)
Lemma findRiverSources_in_order_witness :
  exists pushed,
    findRiverSources Examples.plate_hill (F32.div F32.one (F32.of_Z 2)) []
    = Some ([] ++ pushed)
    /\ StronglySorted Z.lt pushed
    /\ Forall (fun i => 0 <= i < 3 * 3) pushed.
Proof.
  destruct (findRiverSources_in_order
              Examples.plate_hill (F32.div F32.one (F32.of_Z 2)) [] [4])
    as (pushed & Hout & Hsorted & Hin);
    [cbn; lia | cbn; lia | vm_compute; congruence | vm_compute; reflexivity |].
  exists pushed. split; [rewrite <- Hout; vm_compute; reflexivity|].
  split; [exact Hsorted | exact Hin].
Defined.

(** The river that starts on the hill carves the hill and leaves the
    sea level, here above the plain, untouched. *)
Lemma flowRivers_carves_land_only_witness :
  exists tmp',
    flowRivers Examples.plate_hill (F32.of_Z 2) [4] (map Examples.plate_hill)
    = Some tmp'
    /\ length tmp' = 9%nat
    /\ load tmp' 3 = Some F32.one.
Proof.
  eexists. split; [vm_compute; reflexivity|].
  edestruct (flowRivers_carves_land_only
               Examples.plate_hill (F32.of_Z 2) [4] (map Examples.plate_hill))
    as (Hlen & Hframe); [vm_compute; reflexivity|].
  split; [exact Hlen|].
  rewrite (Hframe 3 F32.one); vm_compute; reflexivity.
Defined.

(** The plate with the hill, eroded. *)
Lemma erode_keeps_bookkeeping_witness :
  exists p',
    erode Examples.plate_hill (F32.div F32.one (F32.of_Z 2)) = Some p'
    /\ _bounds p' = _bounds Examples.plate_hill
    /\ age_map p' = age_map Examples.plate_hill
    /\ length (map p') = 9%nat.
Proof.
  eexists. split; [vm_compute; reflexivity|].
  edestruct (erode_keeps_bookkeeping
               Examples.plate_hill (F32.div F32.one (F32.of_Z 2)))
    as (Hb & Hages & _ & _ & _ & Hlen & _); [vm_compute; reflexivity|].
  split; [exact Hb|]. split; [exact Hages | exact Hlen].
Defined.

(** Nine doubles for nine cells. *)
Lemma erode_draws_once_per_cell_witness :
  exists p',
    erode Examples.plate_hill (F32.div F32.one (F32.of_Z 2)) = Some p'
    /\ _randsource p' = draws 9 (_randsource Examples.plate_hill).
Proof.
  eexists. split; [vm_compute; reflexivity|].
  eapply (erode_draws_once_per_cell
            Examples.plate_hill (F32.div F32.one (F32.of_Z 2))).
  vm_compute. reflexivity.
Defined.

(** The mass of the eroded plate is a sum of heights. *)
Lemma erode_mass_is_summed_before_redistribution_witness :
  exists p',
    erode Examples.plate_hill (F32.div F32.one (F32.of_Z 2)) = Some p'
    /\ exists noisy, getMass (_mass p') = fold_left F32.add noisy F32.zero.
Proof.
  eexists. split; [vm_compute; reflexivity|].
  edestruct (erode_mass_is_summed_before_redistribution
               Examples.plate_hill (F32.div F32.one (F32.of_Z 2)))
    as (sources & carved & noisy & rs & _ & _ & _ & Hmass);
    [repeat split | cbn; lia | cbn; lia | vm_compute; congruence
    | vm_compute; reflexivity |].
  exists noisy. exact Hmass.
Defined.

(** Scenario S6: the plate at (8, 8) answers at (1, 1) for its last
    cell. *)
Lemma plate_ctor_then_getCrust_witness :
  let o := F32.zero in
  let cells := [o; o; o; o; o; o; o; o; o; o; o; o; o; o; o; F32.one] in
  exists (p : plate ConstantSource Velocity) (c : float),
    plate_ctor 1 (Some cells) 4 4 8 8 5 Examples.world = Constructed p
    /\ load cells (3 * 4 + 3) = Some c
    /\ getCrust p 1 1 = Some c
    /\ getCrustTimestamp p 1 1 = Some (if F32.gtb c F32.zero then 5 else 0).
Proof.
  intros o cells.
  apply (plate_ctor_then_getCrust 1 cells 4 4 8 8 5 Examples.world 3 3 1 1);
    cbn;
    first [ lia | reflexivity | unfold U32.modulus; lia
          | unfold U32.in_range, U32.modulus; lia ].
Defined.

(** The plate of scenario S1 asked for a cell outside it. *)
Lemma queries_stay_in_buffers_witness :
  exists c t,
    getCrust Examples.plate_S1 7 7 = Some c
    /\ getCrustTimestamp Examples.plate_S1 7 7 = Some t
    /\ c = F32.zero /\ t = 0.
Proof.
  destruct (queries_stay_in_buffers Examples.plate_S1 7 7)
    as (c & t & Hc & Ht & Hout);
    [repeat split | cbn; lia | cbn; lia | cbn; lia | cbn; lia
    | vm_compute; reflexivity |].
  exists c, t. split; [exact Hc|]. split; [exact Ht|].
  apply Hout. vm_compute. reflexivity.
Defined.

(** Scenario S3. *)
Lemma addCrustBySubduction_stays_in_buffers_witness :
  exists p',
    addCrustBySubduction Examples.plate_S1 3 4 (F32.of_Z 5) 9 F32.zero F32.zero
    = Some p'.
Proof.
  eapply (addCrustBySubduction_stays_in_buffers Examples.plate_S1 3 4);
    [repeat split | cbn; lia | cbn; lia | vm_compute; reflexivity
    | vm_compute; reflexivity].
Defined.

(** Scenario S4: one cell moved, the area of continent 0 of the
    destination goes from 0 to 1. *)
Lemma aggregateCrust_grows_destination_witness :
  exists a' b' delta d',
    aggregateCrust Examples.plate_S1 Examples.plate_empty 3 3 = Some (a', b', delta)
    /\ data (_segments b') 0 = Some d'
    /\ sd_area d' = 1.
Proof.
  eexists _, _, _.
  edestruct (aggregateCrust_grows_destination
               Examples.plate_S1 Examples.plate_empty 3 3)
    as (d' & Hd' & Harea & _);
    [ vm_compute; reflexivity | vm_compute; reflexivity | vm_compute; reflexivity
    | reflexivity | unfold box_in_plate, U32.modulus; cbn; lia
    | vm_compute; reflexivity | vm_compute; reflexivity
    | unfold U32.in_range, U32.modulus; cbn; lia
    | vm_compute; reflexivity |].
  exists d'. split; [reflexivity|]. split; [exact Hd'|].
  rewrite Harea. vm_compute. reflexivity.
Defined.

(** ** The scenarios of the specification *)

Module Scenarios.

Example scenario_S1_land : Examples.observe Examples.built_S1 3 3 = Some (F32.one, 5, F32.one).
Proof. vm_compute. reflexivity. Qed.

Example scenario_S1_ocean : Examples.observe Examples.built_S1 2 2 = Some (F32.zero, 0, F32.one).
Proof. vm_compute. reflexivity. Qed.

Example scenario_S2 :
  (p ← setCrust Examples.plate_S1 6 3 (F32.of_Z 2) 9;
   old ← getCrust p 3 3; old_age ← getCrustTimestamp p 3 3;
   new ← getCrust p 6 3; new_age ← getCrustTimestamp p 6 3;
   Some (old, old_age, new, new_age, getMass (_mass p)))
  = Some (F32.one, 5, F32.of_Z 2, 9, F32.of_Z 3).
Proof. vm_compute. reflexivity. Qed.

Example scenario_S3 :
  (p ← addCrustBySubduction Examples.plate_S1 3 4 (F32.of_Z 5) 9 F32.zero F32.zero;
   h ← getCrust p 3 4; Some (h, getMass (_mass p)))
  = Some (F32.zero, F32.one).
Proof. vm_compute. reflexivity. Qed.

Example scenario_S4 :
  ('(a, b, delta) ← aggregateCrust Examples.plate_S1 Examples.plate_empty 3 3;
   h ← getCrust b 3 3; d ← data (_segments a) 0;
   Some (delta, getMass (_mass a), getMass (_mass b), h, isEmpty d))
  = Some (F32.one, F32.zero, F32.one, F32.one, true).
Proof. vm_compute. reflexivity. Qed.

Example scenario_S6 : Examples.observe Examples.built_S6 1 1 = Some (F32.one, 5, F32.one).
Proof. vm_compute. reflexivity. Qed.

End Scenarios.
